(** * Analytx4t: the Cortex Search chat front end

    A shallow embedding of [Snowflake-Cortex Search/frontend code.py]:
    the response post-processor ([ResponseProcessor]), the sliding
    history window, prompt creation and the per-turn processing of
    [ChatApp], and the document URL resolver of [SnowflakeService].

    Python [str] values are sequences of Unicode code points, regular
    expressions are interpreted by a backtracking matcher that follows
    the priority order of Python's [re] module, and the calls to the
    Snowflake services are oracles over an abstract world, threaded
    with the session state through a state-and-exception monad. *)

From Stdlib Require Import ZArith NArith List Ascii String Bool Lia.
From stdpp Require Import base list gmap sets.

Set Default Proof Using "Type".
Local Open Scope N_scope.

(** ** Python strings *)

Module PyStr.

(** A [str] is its sequence of code points. *)
Abbreviation str := (list N) (only parsing).

(** An ASCII literal of the source, as code points. *)
Fixpoint lit (s : string) : str :=
  match s with
  | EmptyString => []
  | String a s' => N_of_ascii a :: lit s'
  end.

Definition LF : N := 10.
Definition CR : N := 13.
Definition SPACE : N := 32.
Definition APOSTROPHE : N := 39.

(** The part of the Unicode character database that lies outside ASCII
    and that the program reaches through [re] ([\d]) and [str.lower]. *)
Class UnicodeData := {
  (** category Nd, for code points from 128 on *)
  unicode_decimal : N -> bool;
  (** the full lower-casing of a string that is not pure ASCII *)
  unicode_lower : str -> str
}.

(** The database restricted to ASCII: no other decimal digit, no other
    cased letter. *)
Definition ascii_unicode_data : UnicodeData :=
  {| unicode_decimal := fun _ => false; unicode_lower := fun s => s |}.

(** [Py_UNICODE_ISSPACE]: what [str.strip] removes and [\s] matches. *)
Definition is_space (c : N) : bool :=
  ((9 <=? c) && (c <=? 13)) || ((28 <=? c) && (c <=? 32))
  || (c =? 133) || (c =? 160) || (c =? 5760)
  || ((8192 <=? c) && (c <=? 8202))
  || (c =? 8232) || (c =? 8233) || (c =? 8239) || (c =? 8287)
  || (c =? 12288).

Definition is_ascii (c : N) : bool := c <? 128.

Definition ascii_lower (c : N) : N :=
  if (65 <=? c) && (c <=? 90) then c + 32 else c.

Section WithUnicode.
Context `{UnicodeData}.

(** [Py_UNICODE_ISDECIMAL] *)
Definition is_decimal (c : N) : bool :=
  if is_ascii c then (48 <=? c) && (c <=? 57) else unicode_decimal c.

(** [str.lower]: CPython lower-cases a pure ASCII string byte by byte
    and otherwise goes through the Unicode case mapping. *)
Definition lower (s : str) : str :=
  if forallb is_ascii s then map ascii_lower s else unicode_lower s.
End WithUnicode.

Fixpoint lstrip (s : str) : str :=
  match s with
  | c :: s' => if is_space c then lstrip s' else s
  | [] => []
  end.

Definition rstrip (s : str) : str := rev (lstrip (rev s)).

(** [s.strip()] *)
Definition strip (s : str) : str := rstrip (lstrip s).

(** [s.startswith(p)], returning what follows the prefix. *)
Fixpoint strip_prefix (p s : str) : option str :=
  match p with
  | [] => Some s
  | a :: p' =>
      match s with
      | c :: s' => if a =? c then strip_prefix p' s' else None
      | [] => None
      end
  end.

Definition starts_with (p s : str) : bool :=
  match strip_prefix p s with Some _ => true | None => false end.

(** [needle in hay] *)
Fixpoint contains (needle hay : str) : bool :=
  starts_with needle hay ||
  match hay with
  | _ :: hay' => contains needle hay'
  | [] => false
  end.

(** [s.replace(old, new)] for a non-empty [old]: occurrences are taken
    from the left and do not overlap. [skip] counts the characters of
    the occurrence in progress that are still to be dropped. *)
Fixpoint replace_from (old new : str) (skip : nat) (s : str) : str :=
  match s with
  | [] => []
  | c :: s' =>
      match skip with
      | S k => replace_from old new k s'
      | O =>
          if starts_with old s
          then new ++ replace_from old new (Nat.pred (length old)) s'
          else c :: replace_from old new O s'
      end
  end.

Definition replace (old new s : str) : str := replace_from old new O s.

(** [sep.join(parts)] *)
Fixpoint join (sep : str) (parts : list str) : str :=
  match parts with
  | [] => []
  | [p] => p
  | p :: ps => p ++ sep ++ join sep ps
  end.

(** [x in xs] for a list of strings. *)
Definition mem (x : str) (xs : list str) : bool := bool_decide (x ∈ xs).

(** [l[start:stop]] with Python's treatment of negative and
    out-of-range bounds. *)
Definition clamp_index (len i : Z) : Z :=
  if (i <? 0)%Z then Z.max 0 (i + len) else Z.min i len.

Definition slice {A} (l : list A) (start stop : Z) : list A :=
  let len := Z.of_nat (length l) in
  let a := clamp_index len start in
  let b := clamp_index len stop in
  take (Z.to_nat (b - a)) (drop (Z.to_nat a) l).

End PyStr.
Import PyStr.

(** ** The fragment of [re] the program uses *)

Module Re.

(** One-character items. *)
Inductive cset :=
| CChar (c : N)            (* a literal character *)
| CAny                     (* [.] *)
| CSpace                   (* [\s] *)
| CDigit                   (* [\d] *)
| CRange (lo hi : N)       (* [[A-Z]] *)
| COneOf (cs : list N)     (* [[abc]] *)
| CNoneOf (cs : list N).   (* [[^abc]] *)

Inductive regex :=
| Eps
| Chr (cs : cset)
| Lit (s : str)                              (* a literal run *)
| Seq (r1 r2 : regex)
| Alt (r1 r2 : regex)                        (* [r1|r2] *)
| Opt (r : regex)                            (* [(?:r)?] *)
| Rep (greedy : bool) (min : nat) (cs : cset)
      (* [cs{min,}] when greedy, [cs{min,}?] when lazy *)
| Group (i : nat) (r : regex)                (* capturing group [i] *)
| Look (r : regex)                           (* [(?=r)] *)
| EndZ.                                      (* [\Z] *)

Definition groups := list (nat * str).

(** [m.group(i)] of a group that took part in the match. *)
Fixpoint group (i : nat) (g : groups) : str :=
  match g with
  | [] => []
  | (j, s) :: g' => if Nat.eqb i j then s else group i g'
  end.

Section Matcher.
Context `{UnicodeData}.
(** The [re.DOTALL] flag. *)
Variable dotall : bool.

Definition cset_match (cs : cset) (c : N) : bool :=
  match cs with
  | CChar a => a =? c
  | CAny => dotall || negb (c =? LF)
  | CSpace => is_space c
  | CDigit => is_decimal c
  | CRange lo hi => (lo <=? c) && (c <=? hi)
  | COneOf l => existsb (N.eqb c) l
  | CNoneOf l => negb (existsb (N.eqb c) l)
  end.

(** The continuation receives the rest of the subject and the groups
    captured so far; returning [None] makes the matcher backtrack. *)
Definition cont := str -> groups -> option (str * groups).

(** Lazy repetition: leave as soon as the continuation accepts. *)
Fixpoint rep_lazy (p : N -> bool) (min : nat) (s : str)
    (k : str -> option (str * groups)) {struct s}
    : option (str * groups) :=
  match min, s with
  | S m, c :: s' => if p c then rep_lazy p m s' k else None
  | S _, [] => None
  | O, [] => k []
  | O, c :: s' =>
      match k s with
      | Some a => Some a
      | None => if p c then rep_lazy p O s' k else None
      end
  end.

(** Greedy repetition: take all that is there, give back one by one. *)
Fixpoint rep_greedy (p : N -> bool) (min : nat) (s : str)
    (k : str -> option (str * groups)) {struct s}
    : option (str * groups) :=
  let leave := match min with O => k s | S _ => None end in
  match s with
  | c :: s' =>
      if p c then
        match rep_greedy p (Nat.pred min) s' k with
        | Some a => Some a
        | None => leave
        end
      else leave
  | [] => leave
  end.

Fixpoint rmatch (r : regex) (s : str) (g : groups) (k : cont)
    : option (str * groups) :=
  match r with
  | Eps => k s g
  | Chr cs =>
      match s with
      | c :: s' => if cset_match cs c then k s' g else None
      | [] => None
      end
  | Lit l =>
      match strip_prefix l s with
      | Some s' => k s' g
      | None => None
      end
  | Seq r1 r2 => rmatch r1 s g (fun s' g' => rmatch r2 s' g' k)
  | Alt r1 r2 =>
      match rmatch r1 s g k with
      | Some a => Some a
      | None => rmatch r2 s g k
      end
  | Opt r1 =>
      match rmatch r1 s g k with
      | Some a => Some a
      | None => k s g
      end
  | Rep true min cs => rep_greedy (cset_match cs) min s (fun s' => k s' g)
  | Rep false min cs => rep_lazy (cset_match cs) min s (fun s' => k s' g)
  | Group i r1 =>
      rmatch r1 s g
        (fun s' g' => k s' ((i, take (length s - length s') s) :: g'))
  | Look r1 =>
      match rmatch r1 s g (fun s' g' => Some (s', g')) with
      | Some (_, g') => k s g'
      | None => None
      end
  | EndZ => match s with [] => k s g | _ :: _ => None end
  end.

(** A match object: the text from where the search started up to the
    match, the matched text, the groups and what follows. *)
Record match_obj := {
  m_pre : str;
  m_text : str;
  m_groups : groups;
  m_rest : str
}.

(** A match attempt at the head of [s]. When [must_advance] is set the
    attempt may not succeed without consuming anything. *)
Definition match_here (r : regex) (must_advance : bool) (s : str)
    : option (str * groups) :=
  rmatch r s []
    (fun s' g' =>
       if must_advance && (length s' =? length s)%nat then None
       else Some (s', g')).

(** Leftmost match: the attempts move right one character at a time;
    [must_advance] constrains the first position only. *)
Fixpoint search_from (r : regex) (must_advance : bool) (pre_rev s : str)
    : option match_obj :=
  match match_here r must_advance s with
  | Some (rest, g) =>
      Some {| m_pre := rev pre_rev;
              m_text := take (length s - length rest) s;
              m_groups := g;
              m_rest := rest |}
  | None =>
      match s with
      | c :: s' => search_from r false (c :: pre_rev) s'
      | [] => None
      end
  end.

(** [re.search(r, s)] *)
Definition search (r : regex) (s : str) : option match_obj :=
  search_from r false [] s.

(** The successive non-overlapping matches, and the unmatched tail.
    After an empty match the next one has to advance. Every second
    round at least consumes a character, which bounds the rounds. *)
Fixpoint scan (fuel : nat) (r : regex) (must_advance : bool) (s : str)
    : list match_obj * str :=
  match fuel with
  | O => ([], s)
  | S fuel' =>
      match search_from r must_advance [] s with
      | None => ([], s)
      | Some m =>
          let '(ms, tl) :=
            scan fuel' r (Nat.eqb (length (m_text m)) 0) (m_rest m) in
          (m :: ms, tl)
      end
  end.

Definition finditer (r : regex) (s : str) : list match_obj * str :=
  scan (2 * length s + 2) r false s.

(** [re.findall(r, s)] for a pattern with exactly one group. *)
Definition findall (r : regex) (s : str) : list str :=
  map (fun m => group 1 (m_groups m)) (fst (finditer r s)).

(** [re.sub(r, repl, s)] with a function for [repl]. *)
Definition sub (r : regex) (repl : match_obj -> str) (s : str) : str :=
  let '(ms, tl) := finditer r s in
  concat (map (fun m => m_pre m ++ repl m) ms) ++ tl.

End Matcher.

(** Sequencing, right-nested like the pattern text. *)
Fixpoint rseq (rs : list regex) : regex :=
  match rs with
  | [] => Eps
  | [r] => r
  | r :: rs' => Seq r (rseq rs')
  end.

End Re.
Import Re.

(** ** [ResponseProcessor] *)

Module ResponseProcessor.

(** One retrieved passage and the response of the search service, as
    the program reads them: a key may be absent. *)
Record result_item := {
  chunk : option str;
  relative_path : option str;
  category : option str
}.

Record search_response := {
  results : option (list result_item)
}.

Definition QUESTION_MARK : N := 63.

(** [(?=\n\n|\Z)] and [(?:\n\n|\Z)] *)
Definition blank_line_or_end : regex := Alt (Lit [LF; LF]) EndZ.

(** [(?:\n|\r\n)?<header>.*?(?=\n\n|\Z)] *)
Definition removal_pattern (header : string) : regex :=
  rseq [Opt (Alt (Lit [LF]) (Lit [CR; LF])); Lit (lit header);
        Rep false 0 CAny; Look blank_line_or_end].

Definition patterns_to_remove : list regex :=
  map removal_pattern
    ["Related Questions:"; "You might also want to know:";
     "Suggested Questions:"; "Common Questions:";
     "Follow-up Questions:"]%string.

(** [<header>(.*?)(?:\n\n|\Z)] *)
Definition section_pattern (header : string) : regex :=
  rseq [Lit (lit header); Group 1 (Rep false 0 CAny); blank_line_or_end].

Definition section_patterns : list regex :=
  map section_pattern
    ["Related Questions:"; "Common Issues:";
     "Common Issues and Solutions:"; "Scenario-Based Questions:";
     "Follow-up Questions:"; "You might also want to know:"]%string.

(** [(.*?\?)] *)
Definition up_to_question_mark : regex :=
  Group 1 (Seq (Rep false 0 CAny) (Chr (CChar QUESTION_MARK))).

(** The bullet class as the file has it: [-], U+201A, U+00C4, U+00A2
    and [*]. *)
Definition bullet_class : cset := COneOf [45; 8218; 196; 162; 42].

(** [[-...*]\s*(.*?\?)] *)
Definition bullet_pattern : regex :=
  rseq [Chr bullet_class; Rep true 0 CSpace; up_to_question_mark].

(** [\d+\.\s*(.*?\?)] *)
Definition numbered_pattern : regex :=
  rseq [Rep true 1 CDigit; Chr (CChar 46); Rep true 0 CSpace;
        up_to_question_mark].

(** [<stem>s?:(.*?)(?=\n\n|\Z)] *)
Definition context_pattern_s (stem : string) : regex :=
  rseq [Lit (lit stem); Opt (Chr (CChar 115)); Chr (CChar 58);
        Group 1 (Rep false 0 CAny); Look blank_line_or_end].

Definition context_patterns : list regex :=
  [context_pattern_s "Common Issue"; context_pattern_s "Scenario";
   context_pattern_s "Use Case";
   rseq [Lit (lit "Common Queries:"); Group 1 (Rep false 0 CAny);
         Look blank_line_or_end]].

(** [[^.!?]] *)
Definition not_sentence_end : cset := CNoneOf [46; 33; QUESTION_MARK].

(** [([A-Z][^.!?]*\?)] *)
Definition sentence_pattern : regex :=
  Group 1 (rseq [Chr (CRange 65 90); Rep true 0 not_sentence_end;
                 Chr (CChar QUESTION_MARK)]).

(** [([A-Z][^.!?]{10,}?\?)] *)
Definition general_pattern : regex :=
  Group 1 (rseq [Chr (CRange 65 90); Rep false 10 not_sentence_end;
                 Chr (CChar QUESTION_MARK)]).

(** [Video Guide:\s*\[(.*?)\]\((.*?)\)] *)
Definition video_pattern : regex :=
  rseq [Lit (lit "Video Guide:"); Rep true 0 CSpace; Chr (CChar 91);
        Group 1 (Rep false 0 CAny); Lit (lit "](");
        Group 2 (Rep false 0 CAny); Chr (CChar 41)].

(** The characters that stand before the title in the file: U+F8FF,
    U+00FC, U+00EC, U+03C0 (the bytes of U+1F4F9, the video camera,
    read in another encoding). *)
Definition glyph : str := [63743; 252; 236; 960].

Section WithUnicode.
Context `{UnicodeData}.

Definition clean_assistant_response (content : str) : str :=
  let cleaned_content :=
    fold_left (fun cleaned pattern => sub true pattern (fun _ => []) cleaned)
              patterns_to_remove content in
  let cleaned_content :=
    sub false (Rep true 3 (CChar LF)) (fun _ => [LF; LF]) cleaned_content in
  strip cleaned_content.

(** The test every pass applies before [questions.append]. *)
Definition accepted (questions : list str) (clean_question : str) : bool :=
  negb (Nat.eqb (length clean_question) 0)
  && negb (mem clean_question questions)
  && negb (contains (lit "video") (lower clean_question))
  && (length clean_question <? 100)%nat.

Definition add_question (questions : list str) (question : str)
    : list str :=
  let clean_question := strip question in
  if accepted questions clean_question
  then questions ++ [clean_question]
  else questions.

(** [for question in candidates: ...] *)
Definition add_questions (questions candidates : list str) : list str :=
  fold_left add_question candidates questions.

(** The candidates one matched section contributes. *)
Definition section_candidates (section_text : str) : list str :=
  let bullet_questions := findall false bullet_pattern section_text in
  let numbered_questions := findall false numbered_pattern section_text in
  bullet_questions ++ numbered_questions.

(** One round of the loop over [section_patterns]; the state is
    [(found_questions, questions)]. *)
Definition section_step (response : str) (acc : bool * list str)
    (pattern : regex) : bool * list str :=
  match search true pattern response with
  | Some section_match =>
      let section_text := group 1 (m_groups section_match) in
      (true, add_questions (snd acc) (section_candidates section_text))
  | None => acc
  end.

Definition context_candidates (section_text : str) : list str :=
  let context_questions := findall false bullet_pattern section_text in
  match context_questions with
  | [] => findall false sentence_pattern section_text
  | _ :: _ => context_questions
  end.

Definition context_step (combined_chunks : str) (questions : list str)
    (pattern : regex) : list str :=
  match search true pattern combined_chunks with
  | Some section_match =>
      add_questions questions
        (context_candidates (group 1 (m_groups section_match)))
  | None => questions
  end.

Definition _extract_questions_from_context (questions : list str)
    (context_data : search_response) : list str :=
  match results context_data with
  | Some items =>
      let chunks := map (fun item => default [] (chunk item)) items in
      let combined_chunks := join [SPACE] chunks in
      fold_left (context_step combined_chunks) context_patterns questions
  | None => questions
  end.

Definition _extract_general_questions (questions : list str)
    (response : str) : list str :=
  add_questions questions (findall false general_pattern response).

Definition extract_related_questions (response : str)
    (context_data : search_response) : list str :=
  let '(found_questions, questions) :=
    fold_left (section_step response) section_patterns (false, []) in
  let questions :=
    if negb found_questions || (length questions <? 3)%nat
    then _extract_questions_from_context questions context_data
    else questions in
  let questions :=
    if (length questions <? 3)%nat
    then _extract_general_questions questions response
    else questions in
  slice questions 0 4.

(** The link text [Video Guide: [<glyph> title](url)]. *)
Definition video_link (video_title video_url : str) : str :=
  lit "Video Guide: [" ++ glyph ++ [SPACE] ++ video_title
  ++ lit "](" ++ video_url ++ lit ")".

Definition replace_video_link (m : match_obj) : str :=
  let video_title := group 1 (m_groups m) in
  let video_url := group 2 (m_groups m) in
  if contains (lit "youtube.com") video_url
     || contains (lit "youtu.be") video_url
  then video_link video_title video_url
  else if contains (lit "internal_video_path") video_url
  then
    let search_query := replace [SPACE] (lit "+") video_title in
    let youtube_search_url :=
      lit "https://www.youtube.com/results?search_query=" ++ search_query
      ++ lit "+hospital+information+system" in
    video_link video_title youtube_search_url
  else video_link video_title video_url.

Definition process_video_links (response : str) : str :=
  sub false video_pattern replace_video_link response.

End WithUnicode.

(** The candidates in the order in which [extract_related_questions]
    comes across them, before stripping and filtering. *)
Section Discovery.
Context `{UnicodeData}.

Definition discovered_in_sections (response : str) : list str :=
  concat
    (map (fun pattern =>
            match search true pattern response with
            | Some m => section_candidates (group 1 (m_groups m))
            | None => []
            end) section_patterns).

Definition discovered_in_context (context_data : search_response)
    : list str :=
  match results context_data with
  | Some items =>
      let combined_chunks :=
        join [SPACE] (map (fun item => default [] (chunk item)) items) in
      concat
        (map (fun pattern =>
                match search true pattern combined_chunks with
                | Some m => context_candidates (group 1 (m_groups m))
                | None => []
                end) context_patterns)
  | None => []
  end.

Definition discovered (response : str) (context_data : search_response)
    : list str :=
  discovered_in_sections response
  ++ discovered_in_context context_data
  ++ findall false general_pattern response.
End Discovery.

End ResponseProcessor.
Import ResponseProcessor.

(** ** The services and the session *)

Module Session.

(** What a call into Snowflake or a failed lookup raises: instances of
    Python's [Exception]. *)
Inductive exn :=
| ServiceError (msg : str)
| KeyError (key_repr : str).

(** [str(e)] *)
Definition exn_str (e : exn) : str :=
  match e with
  | ServiceError msg => msg
  | KeyError key_repr => key_repr
  end.

Inductive outcome (A : Type) :=
| Ok (a : A)
| Raise (e : exn).
Arguments Ok {A} a.
Arguments Raise {A} e.

Record message := {
  role : str;
  content : str
}.

(** [st.session_state] *)
Record session_state := {
  messages : list message;
  model_name : str;
  category_value : str;
  use_chat_history : bool;
  debug : bool;
  num_chunks : Z;
  sliding_window : Z;
  suggested_questions : list str;
  question_asked : bool;
  current_question : str;
  related_documents : list (str * str)
}.

(** What leaves the program: the calls to the services and the errors
    shown in the page. *)
Inductive event :=
| EvSearch (query : str) (filter : option str) (limit : Z)
| EvComplete (model prompt : str)
| EvSql (cmd : str)
| EvSqlToPandas (cmd : str)
| EvStError (msg : str).

(** The Snowflake session, the Cortex search service and [Complete]:
    each call may change the world and may raise. The search answers
    with its decoded response; [sql_to_pandas] answers with the column
    [URL_LINK] of the data frame. *)
Class Snowflake (World : Type) := {
  cortex_search : str -> option str -> Z -> World -> outcome search_response * World;
  cortex_complete : str -> str -> World -> outcome str * World;
  sql_collect : str -> World -> outcome unit * World;
  sql_to_pandas : str -> World -> outcome (list str) * World
}.

(** [PromptBuilder]: two fixed f-string templates, filled with Python's
    rendering of the history and of the retrieved context. *)
Class PromptBuilder := {
  create_chat_summary_prompt : list message -> str -> str;
  create_main_prompt : str -> list message -> search_response -> str
}.

Section Monad.
Context {World : Type}.

Record app := {
  world : World;
  session : session_state;
  trace : list event
}.

(** Computations over the application: state and exceptions. *)
Definition M (A : Type) : Type := app -> outcome A * app.

Definition ret {A} (a : A) : M A := fun s => (Ok a, s).

Definition bind {A B} (m : M A) (f : A -> M B) : M B :=
  fun s =>
    match m s with
    | (Ok a, s') => f a s'
    | (Raise e, s') => (Raise e, s')
    end.

Definition raise {A} (e : exn) : M A := fun s => (Raise e, s).

(** [try: body / except Exception as e: handler e] *)
Definition try_except {A} (body : M A) (handler : exn -> M A) : M A :=
  fun s =>
    match body s with
    | (Ok a, s') => (Ok a, s')
    | (Raise e, s') => handler e s'
    end.

Definition get_session : M session_state := fun s => (Ok (session s), s).

Definition set_session (f : session_state -> session_state) : M unit :=
  fun s =>
    (Ok tt, {| world := world s; session := f (session s);
               trace := trace s |}).

Definition emit (ev : event) : M unit :=
  fun s =>
    (Ok tt, {| world := world s; session := session s;
               trace := trace s ++ [ev] |}).

(** A call that leaves the program. *)
Definition call {A} (ev : event) (oracle : World -> outcome A * World)
    : M A :=
  fun s =>
    let '(r, w) := oracle (world s) in
    (r, {| world := w; session := session s; trace := trace s ++ [ev] |}).

Definition lift_outcome {A} (o : outcome A) : M A := fun s => (o, s).
End Monad.
Arguments app : clear implicits.
Arguments M : clear implicits.

#[global] Instance M_ret {World} : MRet (M World) := @ret World.
#[global] Instance M_bind {World} : MBind (M World) :=
  fun A B f m => bind m f.

End Session.
Import Session.

(** ** [SnowflakeService] *)

Module SnowflakeService.
Section WithServices.
Context {World : Type} `{Snowflake World}.

(** The body of the [try] in [get_document_url]. *)
Definition get_document_url_body (path : str) : M World str :=
  _ ← call (EvSql (lit "USE DATABASE kritik_db"))
           (sql_collect (lit "USE DATABASE kritik_db"));
  _ ← call (EvSql (lit "USE SCHEMA data"))
           (sql_collect (lit "USE SCHEMA data"));
  let cmd :=
    lit "SELECT GET_PRESIGNED_URL(@kritik_db.data.STAGE_AWS, '" ++ path
    ++ lit "', 360) AS URL_LINK FROM DIRECTORY(@kritik_db.data.STAGE_AWS)" in
  df_url_link ← call (EvSqlToPandas cmd) (sql_to_pandas cmd);
  (* df_url_link._get_value(0, 'URL_LINK') *)
  match df_url_link !! 0%nat with
  | Some url => mret url
  | None => raise (KeyError (lit "0"))
  end.

Definition get_document_url (path : str) : M World str :=
  try_except (get_document_url_body path)
    (fun e =>
       _ ← emit (EvStError (lit "Error generating URL for " ++ path
                             ++ lit ": " ++ exn_str e));
       mret (lit "#")).

Definition search_similar_chunks (query category : str) (num_chunks : Z)
    : M World search_response :=
  if bool_decide (category = lit "ALL")
  then call (EvSearch query None num_chunks)
            (cortex_search query None num_chunks)
  else
    let filter_obj := Some category in
    call (EvSearch query filter_obj num_chunks)
         (cortex_search query filter_obj num_chunks).

Definition complete_with_llm (model_name prompt : str) : M World str :=
  call (EvComplete model_name prompt) (cortex_complete model_name prompt).

End WithServices.
End SnowflakeService.
Import SnowflakeService.

(** ** [APP_CONFIG] and [ChatState] *)

Module ChatState.

Definition NUM_CHUNKS : Z := 10.
Definition SLIDING_WINDOW : Z := 7.
Definition MODEL : str := lit "llama3.3-70b".
Definition DEFAULT_CATEGORY : str := lit "ALL".
Definition INITIAL_QUESTIONS : list str :=
  [lit "What are the patient's profile and admission details?";
   lit "What is the final diagnosis mentioned in the report?";
   lit "What treatment protocols and medications were administered during the hospital stay?";
   lit "What does the discharge summary indicate regarding the patient's progress and follow-up care?"].

(** The session after [initialize] on a fresh one. *)
Definition initialize : session_state :=
  {| messages := [];
     model_name := MODEL;
     category_value := DEFAULT_CATEGORY;
     use_chat_history := true;
     debug := false;
     num_chunks := NUM_CHUNKS;
     sliding_window := SLIDING_WINDOW;
     suggested_questions := INITIAL_QUESTIONS;
     question_asked := false;
     current_question := [];
     related_documents := [] |}.

Definition clear_conversation (st : session_state) : session_state :=
  {| messages := [];
     model_name := model_name st;
     category_value := category_value st;
     use_chat_history := use_chat_history st;
     debug := debug st;
     num_chunks := num_chunks st;
     sliding_window := sliding_window st;
     suggested_questions := INITIAL_QUESTIONS;
     question_asked := false;
     current_question := current_question st;
     related_documents := [] |}.

Definition append_message (m : message) (st : session_state)
    : session_state :=
  {| messages := messages st ++ [m];
     model_name := model_name st;
     category_value := category_value st;
     use_chat_history := use_chat_history st;
     debug := debug st;
     num_chunks := num_chunks st;
     sliding_window := sliding_window st;
     suggested_questions := suggested_questions st;
     question_asked := question_asked st;
     current_question := current_question st;
     related_documents := related_documents st |}.

Definition set_suggested_questions (qs : list str) (st : session_state)
    : session_state :=
  {| messages := messages st;
     model_name := model_name st;
     category_value := category_value st;
     use_chat_history := use_chat_history st;
     debug := debug st;
     num_chunks := num_chunks st;
     sliding_window := sliding_window st;
     suggested_questions := qs;
     question_asked := question_asked st;
     current_question := current_question st;
     related_documents := related_documents st |}.

Definition set_related_documents (docs : list (str * str))
    (st : session_state) : session_state :=
  {| messages := messages st;
     model_name := model_name st;
     category_value := category_value st;
     use_chat_history := use_chat_history st;
     debug := debug st;
     num_chunks := num_chunks st;
     sliding_window := sliding_window st;
     suggested_questions := suggested_questions st;
     question_asked := question_asked st;
     current_question := current_question st;
     related_documents := docs |}.

End ChatState.
Import ChatState.

(** ** [ChatApp] *)

Module ChatApp.

(** [set(item['relative_path'] for item in items)]: a missing key
    raises at the first item that lacks it. *)
Fixpoint relative_paths_of (items : list result_item) : outcome (gset str) :=
  match items with
  | [] => Ok ∅
  | item :: items' =>
      match relative_path item with
      | None => Raise (KeyError (lit "'relative_path'"))
      | Some path =>
          match relative_paths_of items' with
          | Ok paths => Ok ({[path]} ∪ paths)
          | Raise e => Raise e
          end
      end
  end.

(** The recent history under the sliding window. *)
Definition _get_chat_history (st : session_state) : list message :=
  let window_size := sliding_window st in
  let len := Z.of_nat (length (messages st)) in
  let start_index := Z.max 0 (len - window_size) in
  slice (messages st) start_index len.

Section WithServices.
Context {World : Type} `{Snowflake World} `{PromptBuilder} `{UnicodeData}.

Definition _summarize_conversation (chat_history : list message)
    (question : str) : M World str :=
  st ← get_session;
  let prompt := create_chat_summary_prompt chat_history question in
  summary ← complete_with_llm (model_name st) prompt;
  mret (replace [APOSTROPHE] [] summary).

Definition _create_prompt (question : str)
    : M World (str * gset str * search_response) :=
  st ← get_session;
  '(chat_history, prompt_context) ←
    (if use_chat_history st && (0 <? length (messages st))%nat then
       let chat_history := _get_chat_history st in
       match chat_history with
       | _ :: _ =>
           summary ← _summarize_conversation chat_history question;
           prompt_context ←
             search_similar_chunks summary (category_value st)
                                   (num_chunks st);
           mret (chat_history, prompt_context)
       | [] =>
           prompt_context ←
             search_similar_chunks question (category_value st)
                                   (num_chunks st);
           mret (chat_history, prompt_context)
       end
     else
       prompt_context ←
         search_similar_chunks question (category_value st)
                               (num_chunks st);
       mret ([], prompt_context));
  let json_data := prompt_context in
  items ←
    match results json_data with
    | Some items => mret items
    | None => raise (KeyError (lit "'results'"))
    end;
  relative_paths ← lift_outcome (relative_paths_of items);
  let prompt := create_main_prompt question chat_history prompt_context in
  mret (prompt, relative_paths, json_data).

Definition _process_user_input (question : str)
    : M World (str * gset str) :=
  let question := replace [APOSTROPHE] [] question in
  '(prompt, relative_paths, context_data) ← _create_prompt question;
  st ← get_session;
  response ← complete_with_llm (model_name st) prompt;
  let response := process_video_links response in
  let response := replace [APOSTROPHE] [] response in
  let new_questions := extract_related_questions response context_data in
  _ ← match new_questions with
      | _ :: _ => set_session (set_suggested_questions new_questions)
      | [] => mret tt
      end;
  mret (response, relative_paths).

Fixpoint for_each {A B} (f : A -> M World B) (l : list A)
    : M World (list B) :=
  match l with
  | [] => mret []
  | x :: l' => y ← f x; ys ← for_each f l'; mret (y :: ys)
  end.

(** The paths are visited in the iteration order of the set, which
    Python leaves unspecified; [elements] fixes one. *)
Definition _update_related_documents (relative_paths : gset str)
    : M World unit :=
  match elements relative_paths with
  | [] => mret tt
  | paths =>
      documents ←
        for_each (fun path =>
                    url_link ← get_document_url path;
                    mret (path, url_link)) paths;
      set_session (set_related_documents documents)
  end.

(** One turn, started from a suggested-question button. *)
Definition _process_question (question : str) : M World unit :=
  _ ← set_session
        (append_message {| role := lit "User"; content := question |});
  '(response, relative_paths) ← _process_user_input question;
  _ ← set_session
        (append_message {| role := lit "assistant"; content := response |});
  _update_related_documents relative_paths.

End WithServices.

End ChatApp.
Import ChatApp.

(** ** Vocabulary of the statements *)

Module Vocabulary.
Section WithUnicode.
Context `{UnicodeData}.

(** The two filters of the extraction, on an item of the result. *)
Definition well_filtered (q : str) : Prop :=
  contains (lit "video") (lower q) = false /\ (length q < 100)%nat.

(** [qs'] is [qs] followed by accepted, stripped candidates taken in
    order from [cands]. *)
Definition extends (cands qs qs' : list str) : Prop :=
  exists added,
    qs' = qs ++ added
    /\ added `sublist_of` map strip cands
    /\ Forall well_filtered added
    /\ (NoDup qs -> NoDup qs').

(** A link as a response carries it. *)
Definition raw_link (title url : str) : str :=
  lit "Video Guide: [" ++ title ++ lit "](" ++ url ++ lit ")".

(** The URL [replace_video_link] puts in the link. *)
Definition rewritten_url (title url : str) : str :=
  if contains (lit "youtube.com") url || contains (lit "youtu.be") url
  then url
  else if contains (lit "internal_video_path") url
  then lit "https://www.youtube.com/results?search_query="
       ++ replace [SPACE] (lit "+") title
       ++ lit "+hospital+information+system"
  else url.
End WithUnicode.

(** The response of the example: an answer, then a section of two
    related questions. *)
Definition example_response : str :=
  lit "Answer." ++ [LF; LF] ++ lit "Related Questions:" ++ [LF]
  ++ lit "- Q1?" ++ [LF] ++ lit "- Q2?" ++ [LF; LF].

(** A session that differs from the initial one in its transcript, its
    window and its suggested questions. *)
Definition session_with (transcript : list message) (window : Z)
    (suggested : list str) : session_state :=
  {| messages := transcript;
     model_name := MODEL;
     category_value := DEFAULT_CATEGORY;
     use_chat_history := true;
     debug := false;
     num_chunks := NUM_CHUNKS;
     sliding_window := window;
     suggested_questions := suggested;
     question_asked := false;
     current_question := [];
     related_documents := [] |}.

(** Services that always answer: the search with [items], the model
    with [answer], the stage with one URL. *)
Definition answering (items : list result_item) (answer : str)
    : Snowflake unit :=
  {| cortex_search := fun _ _ _ w => (Ok {| results := Some items |}, w);
     cortex_complete := fun _ _ w => (Ok answer, w);
     sql_collect := fun _ w => (Ok tt, w);
     sql_to_pandas := fun _ w => (Ok [lit "https://stage/doc"], w) |}.

(** A session whose SQL statements fail. *)
Definition sql_down : Snowflake unit :=
  {| cortex_search := fun _ _ _ w => (Ok {| results := Some [] |}, w);
     cortex_complete := fun _ _ w => (Ok [], w);
     sql_collect := fun _ w => (Raise (ServiceError (lit "no session")), w);
     sql_to_pandas :=
       fun _ w => (Raise (ServiceError (lit "no session")), w) |}.

(** Templates that keep only the question and the history texts. *)
Definition plain_prompts : PromptBuilder :=
  {| create_chat_summary_prompt :=
       fun chat_history question =>
         concat (map content chat_history) ++ question;
     create_main_prompt := fun question _ _ => question |}.

Definition start (st : session_state) : app unit :=
  {| world := tt; session := st; trace := [] |}.

Definition passage (path : string) : result_item :=
  {| chunk := Some []; relative_path := Some (lit path);
     category := Some (lit "ALL") |}.

(** The rounds a scan may still go through: every second round
    consumes a character. *)
Definition rounds (must_advance : bool) (s : str) : nat :=
  (2 * length s + if must_advance then 0 else 1)%nat.

(** The filter the search is called with for a category. *)
Definition category_filter (category : str) : option str :=
  if bool_decide (category = lit "ALL") then None else Some category.

Section WithWorld.
Context {World : Type} `{Snowflake World} `{PromptBuilder}.

(** What [_create_prompt] does once the retrieval has answered. *)
Definition after_search (question : str) (chat_history : list message)
    (prompt_context : search_response)
    : M World (str * gset str * search_response) :=
  items ←
    match results prompt_context with
    | Some items => mret items
    | None => raise (KeyError (lit "'results'"))
    end;
  relative_paths ← lift_outcome (relative_paths_of items);
  mret (create_main_prompt question chat_history prompt_context,
        relative_paths, prompt_context).

(** An event whose retrieval query, if it is a search, satisfies [G]. *)
Definition query_ok (G : str -> Prop) (ev : event) : Prop :=
  match ev with
  | EvSearch query _ _ => G query
  | _ => True
  end.

(** A text without apostrophe. *)
Definition quote_free (text : str) : Prop := APOSTROPHE ∉ text.

(** [m] leaves the session as it is, adds only events that satisfy
    [P] and returns only values that satisfy [Q]. *)
Definition frame {A} (P : event -> Prop) (Q : A -> Prop) (m : M World A)
    : Prop :=
  forall s,
    session (m s).2 = session s
    /\ (exists added, trace (m s).2 = trace s ++ added /\ Forall P added)
    /\ (forall a, (m s).1 = Ok a -> Q a).

(** The state after the handler of [get_document_url] has run. *)
Definition reported (path : str) (e : exn) (s : app World) : app World :=
  {| world := world s; session := session s;
     trace := trace s
              ++ [EvStError (lit "Error generating URL for " ++ path
                             ++ lit ": " ++ exn_str e)] |}.
End WithWorld.

End Vocabulary.
Import Vocabulary.

(** ** The script: one run of the page per interaction *)

Module Script.

(** What the user did since the last run: nothing, a click on the
    clear button, a click on the suggestion button of index [i], or a
    question submitted in the chat input. *)
Inductive interaction :=
| Idle
| ClickClear
| ClickSuggestion (i : nat)
| Submit (question : str).

(** How a run ends: at the end of the script, or by
    [st.experimental_rerun()], which stops it where it is called. *)
Inductive run_end :=
| Completed
| Rerun.

Definition set_flags (asked : bool) (current : str) (st : session_state)
    : session_state :=
  {| messages := messages st;
     model_name := model_name st;
     category_value := category_value st;
     use_chat_history := use_chat_history st;
     debug := debug st;
     num_chunks := num_chunks st;
     sliding_window := sliding_window st;
     suggested_questions := suggested_questions st;
     question_asked := asked;
     current_question := current;
     related_documents := related_documents st |}.

(** The clicked index, if the interaction is a click on a suggestion. *)
Definition clicked_suggestion (ui : interaction) : option nat :=
  match ui with
  | ClickSuggestion i => Some i
  | _ => None
  end.

(** One button per suggested question; the clicked one sets the flags. *)
Definition _display_suggested_questions (clicked : option nat)
    (st : session_state) : session_state :=
  match clicked with
  | Some i =>
      match suggested_questions st !! i with
      | Some question => set_flags true question st
      | None => st
      end
  | None => st
  end.

(** The buttons are there only while the transcript is empty. *)
Definition _render_chat_interface (clicked : option nat)
    (st : session_state) : session_state :=
  match messages st with
  | [] => _display_suggested_questions clicked st
  | _ :: _ => st
  end.

Section WithServices.
Context {World : Type} `{Snowflake World} `{PromptBuilder} `{UnicodeData}.

Definition _render_main_interface (ui : interaction) : M World run_end :=
  _ ← set_session (_render_chat_interface (clicked_suggestion ui));
  match ui with
  | ClickClear => _ ← set_session clear_conversation; mret Rerun
  | _ => mret Completed
  end.

Definition _handle_user_input (ui : interaction) : M World run_end :=
  st ← get_session;
  if question_asked st && negb (Nat.eqb (length (current_question st)) 0)
  then
    _ ← _process_question (current_question st);
    _ ← set_session (set_flags false []);
    mret Rerun
  else
    match ui with
    | Submit ((_ :: _) as question) =>
        _ ← set_session
              (append_message {| role := lit "User"; content := question |});
        '(response, relative_paths) ← _process_user_input question;
        (* the placeholder shows clean_assistant_response(response) *)
        _ ← _update_related_documents relative_paths;
        _ ← set_session
              (append_message
                 {| role := lit "assistant"; content := response |});
        mret Rerun
    | _ => mret Completed
    end.

(** [ChatApp.run] on a session that [ChatState.initialize] has filled:
    the page is rendered, then the input is handled. *)
Definition run (ui : interaction) : M World run_end :=
  ended ← _render_main_interface ui;
  match ended with
  | Rerun => mret Rerun
  | Completed => _handle_user_input ui
  end.

(** The states the application goes through, from a fresh session. *)
Inductive reachable : app World -> Prop :=
| reachable_fresh w :
    reachable {| world := w; session := initialize; trace := [] |}
| reachable_run s ui : reachable s -> reachable (run ui s).2.

End WithServices.
End Script.
Import Script.

(** ** Vocabulary of the further properties *)

Module Observations.

(** A call that uses the settings of the session: a retrieval with its
    category filter and chunk limit, or a completion with its model. *)
Definition uses_settings (st : session_state) (ev : event) : Prop :=
  match ev with
  | EvSearch _ filter limit =>
      filter = category_filter (category_value st) /\ limit = num_chunks st
  | EvComplete model _ => model = model_name st
  | _ => False
  end.

Definition is_retrieval (ev : event) : Prop :=
  match ev with EvSearch _ _ _ => True | _ => False end.

Definition is_completion (ev : event) : Prop :=
  match ev with EvComplete _ _ => True | _ => False end.

(** A retrieval response the program can read: the results are there
    and every one of them has its path. *)
Definition readable (r : search_response) : Prop :=
  exists items,
    results r = Some items
    /\ Forall (fun item => is_Some (relative_path item)) items.

(** The session differs from [st] at most in its suggested questions,
    and then holds between one and four of them. *)
Definition resuggested (st st' : session_state) : Prop :=
  st' = st
  \/ exists new_questions,
       new_questions <> [] /\ (length new_questions <= 4)%nat
       /\ st' = set_suggested_questions new_questions st.

(** The statements [get_document_url] sends for a path, in order. *)
Definition url_statements (path : str) : list event :=
  [EvSql (lit "USE DATABASE kritik_db");
   EvSql (lit "USE SCHEMA data");
   EvSqlToPandas
     (lit "SELECT GET_PRESIGNED_URL(@kritik_db.data.STAGE_AWS, '" ++ path
      ++ lit "', 360) AS URL_LINK FROM DIRECTORY(@kritik_db.data.STAGE_AWS)")].

(** The pattern ends with the literal character [c]. *)
Fixpoint ends_with_char (c : N) (r : regex) : bool :=
  match r with
  | Chr (CChar a) => a =? c
  | Seq _ r2 => ends_with_char c r2
  | _ => false
  end.

(** The pattern ends with its group 1, and the group ends with the
    literal character [c]. *)
Fixpoint captures_to_char (c : N) (r : regex) : bool :=
  match r with
  | Group 1 body => ends_with_char c body
  | Seq _ r2 => captures_to_char c r2
  | _ => false
  end.

(** A suggestion as the extraction delivers it. *)
Definition question_like (q : str) : Prop :=
  (exists w, q = w ++ [QUESTION_MARK])
  /\ (forall a, head q = Some a -> is_space a = false).

(** The length of the longest prefix whose characters satisfy [p]. *)
Fixpoint run_length (p : N -> bool) (s : str) : nat :=
  match s with
  | c :: s' => if p c then S (run_length p s') else O
  | [] => O
  end.

Definition is_LF (c : N) : bool := LF =? c.

(** Three newlines in a row: two blank lines. *)
Definition blank_lines : str := [LF; LF; LF].

(** [\n{3,}] *)
Definition newlines_pattern : regex := Rep true 3 (CChar LF).

Definition user_message (question : str) : message :=
  {| role := lit "User"; content := question |}.

Definition assistant_message (response : str) : message :=
  {| role := lit "assistant"; content := response |}.

(** The settings are the ones of [APP_CONFIG]. *)
Definition default_settings (st : session_state) : Prop :=
  model_name st = MODEL /\ category_value st = DEFAULT_CATEGORY
  /\ use_chat_history st = true /\ debug st = false
  /\ num_chunks st = NUM_CHUNKS /\ sliding_window st = SLIDING_WINDOW.

(** A transcript made of questions, each followed by at most one
    answer, the answers without apostrophe. *)
Inductive dialogue : list message -> Prop :=
| dialogue_empty : dialogue []
| dialogue_question transcript question :
    dialogue transcript -> dialogue (transcript ++ [user_message question])
| dialogue_answer transcript question response :
    dialogue transcript -> quote_free response ->
    dialogue (transcript
              ++ [user_message question; assistant_message response]).

(** What every session of the application satisfies. *)
Definition well_kept (st : session_state) : Prop :=
  default_settings st
  /\ (messages st = [] ->
      suggested_questions st = INITIAL_QUESTIONS
      /\ related_documents st = [])
  /\ (suggested_questions st <> []
      /\ (length (suggested_questions st) <= 4)%nat)
  /\ (question_asked st = true -> current_question st ∈ INITIAL_QUESTIONS)
  /\ dialogue (messages st).

(** A call made with the settings of [APP_CONFIG]: no category filter,
    ten chunks, the configured model. *)
Definition default_call (ev : event) : Prop :=
  match ev with
  | EvSearch _ filter limit => filter = None /\ limit = NUM_CHUNKS
  | EvComplete model _ => model = MODEL
  | _ => True
  end.

(** An event of the URL lookup: a statement or an error shown. *)
Definition is_lookup (ev : event) : Prop :=
  match ev with
  | EvSql _ | EvSqlToPandas _ | EvStError _ => True
  | _ => False
  end.

(** The application with its session replaced by [f] of it. *)
Definition with_session {World} (f : session_state -> session_state)
    (s : app World) : app World :=
  {| world := world s; session := f (session s); trace := trace s |}.

(** A computation that ends a run where it ends. *)
Definition then_rerun {World} (r : outcome unit * app World)
    : outcome run_end * app World :=
  match r with
  | (Ok _, s) => (Ok Rerun, s)
  | (Raise e, s) => (Raise e, s)
  end.

(** The headers of the sections that the display leaves out. *)
Definition hidden_headers : list string :=
  ["Related Questions:"; "You might also want to know:";
   "Suggested Questions:"; "Common Questions:";
   "Follow-up Questions:"]%string.

(** A header as the removal takes it: a text without newline that does
    not begin with a carriage return. *)
Definition plain_header (h : str) : Prop :=
  h <> [] /\ (LF ∉ h) /\ head h <> Some CR.

(** What follows a header that stands at the head of [s], after the
    newline that may precede it. *)
Definition header_here (h s : str) : option str :=
  match strip_prefix (LF :: h) s with
  | Some r => Some r
  | None =>
      match strip_prefix (CR :: LF :: h) s with
      | Some r => Some r
      | None => strip_prefix h s
      end
  end.

(** The text from the first blank line on; empty when there is none. *)
Fixpoint section_rest (s : str) : str :=
  match s with
  | [] => []
  | _ :: s' => if starts_with [LF; LF] s then s else section_rest s'
  end.

(** A session whose retrieval answers without its results. *)
Definition unreadable_search : Snowflake unit :=
  {| cortex_search := fun _ _ _ w => (Ok {| results := None |}, w);
     cortex_complete := fun _ _ w => (Ok (lit "Summary."), w);
     sql_collect := fun _ w => (Ok tt, w);
     sql_to_pandas := fun _ w => (Ok [lit "https://stage/doc"], w) |}.

(** A clicked question waits to be processed: the flag is up, the
    question is remembered and the transcript is not empty. *)
Definition pending (question : str) (st : session_state) : Prop :=
  question_asked st = true
  /\ current_question st = question
  /\ messages st <> [].

(** A session whose retrieval cannot be read the first time it is
    asked, and answers without results from then on. *)
Definition unreadable_once : Snowflake bool :=
  {| cortex_search :=
       fun _ _ _ (asked : bool) =>
         let found : option (list result_item) :=
           if asked then Some [] else None in
         (Ok {| results := found |}, true);
     cortex_complete := fun _ _ w => (Ok (lit "Summary."), w);
     sql_collect := fun _ w => (Ok tt, w);
     sql_to_pandas := fun _ w => (Ok [lit "https://stage/doc"], w) |}.

End Observations.
Import Observations.

(** * Properties *)

(** ** The matcher *)

(** What the matcher hands to its continuation is a suffix of the
    subject, so a scan comes to its end within the fuel that [finditer]
    gives it. *)

Section Matcher.
Context `{UnicodeData}.
Variable dotall : bool.

Lemma strip_prefix_suffix p s s' :
  strip_prefix p s = Some s' -> s' `suffix_of` s.
Proof.
  revert s. induction p as [|a p IH]; intros s; simpl.
  - by intros [= <-].
  - destruct s as [|c s]; [done|]. destruct (a =? c); [|done].
    intros Hs. by apply suffix_cons_r, IH.
Qed.

Lemma rep_lazy_suffix p min s k res :
  rep_lazy p min s k = Some res ->
  exists s1, s1 `suffix_of` s /\ k s1 = Some res.
Proof.
  revert min. induction s as [|c s IH]; intros min; simpl.
  - destruct min; [|done]. intros Hk. by exists [].
  - destruct min as [|min].
    + destruct (k (c :: s)) eqn:Hk.
      * intros [= <-]. by exists (c :: s).
      * destruct (p c); [|done]. intros Hr.
        destruct (IH _ Hr) as (s1 & Hs & Hk1). exists s1.
        split; [by apply suffix_cons_r|done].
    + destruct (p c); [|done]. intros Hr.
      destruct (IH _ Hr) as (s1 & Hs & Hk1). exists s1.
      split; [by apply suffix_cons_r|done].
Qed.

Lemma rep_greedy_suffix p min s k res :
  rep_greedy p min s k = Some res ->
  exists s1, s1 `suffix_of` s /\ k s1 = Some res.
Proof.
  revert min. induction s as [|c s IH]; intros min; simpl.
  - destruct min; [|done]. intros Hk. by exists [].
  - assert (Hleave : match min with O => k (c :: s) | S _ => None end
                     = Some res ->
                     exists s1, s1 `suffix_of` c :: s /\ k s1 = Some res).
    { destruct min; [|done]. intros Hk. by exists (c :: s). }
    destruct (p c); [|done].
    destruct (rep_greedy p (Nat.pred min) s k) eqn:Hr; [|done].
    intros [= <-]. destruct (IH _ Hr) as (s1 & Hs & Hk1). exists s1.
    split; [by apply suffix_cons_r|done].
Qed.

Lemma rmatch_suffix r s g k res :
  rmatch dotall r s g k = Some res ->
  exists s1 g1, s1 `suffix_of` s /\ k s1 g1 = Some res.
Proof.
  revert s g k. induction r as [| cs | l | r1 IH1 r2 IH2 | r1 IH1 r2 IH2
                               | r1 IH1 | greedy min cs | i r1 IH1
                               | r1 IH1 | ]; intros s g k; cbn [rmatch].
  - intros Hk. by exists s, g.
  - destruct s as [|c s]; [done|]. destruct (cset_match dotall cs c); [|done].
    intros Hk. exists s, g. split; [by apply suffix_cons_r|done].
  - destruct (strip_prefix l s) as [s'|] eqn:Hp; [|done].
    intros Hk. exists s', g. split; [by eapply strip_prefix_suffix|done].
  - intros Hr. apply IH1 in Hr as (s1 & g1 & Hs1 & Hr).
    apply IH2 in Hr as (s2 & g2 & Hs2 & Hr). exists s2, g2.
    split; [by etrans|done].
  - destruct (rmatch dotall r1 s g k) eqn:Hr1.
    + intros [= <-]. eauto.
    + eauto.
  - destruct (rmatch dotall r1 s g k) eqn:Hr1.
    + intros [= <-]. eauto.
    + intros Hk. by exists s, g.
  - destruct greedy; intros Hr.
    + apply rep_greedy_suffix in Hr as (s1 & Hs & Hk). by exists s1, g.
    + apply rep_lazy_suffix in Hr as (s1 & Hs & Hk). by exists s1, g.
  - intros Hr. apply IH1 in Hr as (s1 & g1 & Hs1 & Hr). eauto.
  - destruct (rmatch dotall r1 s g _) as [[s0 g']|]; [|done].
    intros Hk. by exists s, g'.
  - destruct s; [|done]. intros Hk. by exists [], g.
Qed.

Lemma match_here_rest r adv s rest g :
  match_here dotall r adv s = Some (rest, g) ->
  rest `suffix_of` s /\ (adv = true -> length rest <> length s).
Proof.
  unfold match_here. intros Hr.
  apply rmatch_suffix in Hr as (s1 & g1 & Hs & Hk).
  destruct adv; cbn [andb] in Hk.
  - destruct (length s1 =? length s)%nat eqn:Hl; [done|].
    injection Hk as <- <-. split; [done|]. intros _. by apply Nat.eqb_neq.
  - injection Hk as <- <-. by split.
Qed.

Lemma search_from_rest r adv pre s m :
  search_from dotall r adv pre s = Some m ->
  (length (m_rest m) <= length s)%nat
  /\ (adv = true -> (length (m_rest m) < length s)%nat)
  /\ (length (m_text m) <> 0%nat -> (length (m_rest m) < length s)%nat).
Proof.
  revert adv pre m.
  induction s as [|c s IH]; intros adv pre m; cbn [search_from].
  - destruct (match_here dotall r adv []) as [[rest g]|] eqn:Hm; [|done].
    intros [= <-]. cbn [m_rest m_text].
    apply match_here_rest in Hm as [Hs Hadv].
    apply suffix_length in Hs. cbn [length] in Hs.
    assert (Hl : length rest = 0%nat) by lia. rewrite Hl in *.
    split; [done|]. split.
    + intros Ha. by specialize (Hadv Ha).
    + done.
  - destruct (match_here dotall r adv (c :: s)) as [[rest g]|] eqn:Hm.
    + intros [= <-]. cbn [m_rest m_text].
      apply match_here_rest in Hm as [Hs Hadv].
      apply suffix_length in Hs. split; [done|]. split.
      * intros Ha. specialize (Hadv Ha). cbn [length] in *. lia.
      * rewrite length_take. cbn [length] in *. lia.
    + intros Hr. apply IH in Hr as (Hle & _ & _). simpl. lia.
Qed.

Lemma scan_fuel r n n' adv s :
  (rounds adv s < n)%nat -> (rounds adv s < n')%nat ->
  scan dotall n r adv s = scan dotall n' r adv s.
Proof.
  revert n' adv s. induction n as [|n IH]; intros n' adv s Hn Hn'; [lia|].
  destruct n' as [|n']; [lia|]. cbn [scan].
  destruct (search_from dotall r adv [] s) as [m|] eqn:Hm; [|done].
  apply search_from_rest in Hm as (Hle & Hadv & Htext).
  rewrite (IH n'); [done| |].
  - unfold rounds in *.
    destruct (Nat.eqb_spec (length (m_text m)) 0); destruct adv; lia.
  - unfold rounds in *.
    destruct (Nat.eqb_spec (length (m_text m)) 0); destruct adv; lia.
Qed.

(** More fuel than [finditer] gives changes nothing. *)
Lemma finditer_fuel r s n :
  (2 * length s + 2 <= n)%nat ->
  scan dotall n r false s = finditer dotall r s.
Proof.
  intros Hn. unfold finditer. apply scan_fuel; unfold rounds; lia.
Qed.
End Matcher.

(** Some runs of the patterns. *)
Example bullets_found :
  findall (H := ascii_unicode_data) false bullet_pattern
    (lit "- Who?" ++ [LF] ++ lit "* Why not?" ++ [LF] ++ lit "- no")
  = [lit "Who?"; lit "Why not?"].
Proof. vm_compute. reflexivity. Qed.

Example numbered_found :
  findall (H := ascii_unicode_data) false numbered_pattern
    (lit "1. Who? 12.When? 3 What?")
  = [lit "Who?"; lit "When?"].
Proof. vm_compute. reflexivity. Qed.

Example section_removed :
  clean_assistant_response (H := ascii_unicode_data)
    (lit "A." ++ [LF] ++ lit "You might also want to know: x" ++ [LF; LF]
     ++ lit "B.")
  = lit "A." ++ [LF; LF] ++ lit "B.".
Proof. vm_compute. reflexivity. Qed.

Example internal_link_rewritten :
  process_video_links (H := ascii_unicode_data)
    (lit "See Video Guide:[Add user](internal_video_path/7) now")
  = lit "See " ++ video_link (lit "Add user")
      (lit "https://www.youtube.com/results?search_query=Add+user+hospital+information+system")
    ++ lit " now".
Proof. vm_compute. reflexivity. Qed.

(** ** Suggested-question extraction *)

Section Extraction.
Context `{UnicodeData}.

Lemma extends_refl qs : extends [] qs qs.
Proof.
  exists []. rewrite app_nil_r. repeat split; auto.
Qed.

Lemma extends_trans c1 c2 qs1 qs2 qs3 :
  extends c1 qs1 qs2 -> extends c2 qs2 qs3 -> extends (c1 ++ c2) qs1 qs3.
Proof.
  intros (a1 & -> & S1 & F1 & N1) (a2 & -> & S2 & F2 & N2).
  exists (a1 ++ a2). rewrite app_assoc. split; [done|]. split; [|split].
  - rewrite map_app. by apply sublist_app.
  - by apply Forall_app.
  - auto.
Qed.

Lemma extends_weaken c0 c c1 qs qs' :
  extends c qs qs' -> extends (c0 ++ c ++ c1) qs qs'.
Proof.
  intros (a & -> & S & F & N). exists a. split; [done|]. split; [|by split].
  rewrite !map_app. etrans; [exact S|].
  apply sublist_inserts_l, sublist_inserts_r. done.
Qed.

Lemma add_question_extends qs q : extends [q] qs (add_question qs q).
Proof.
  unfold add_question. destruct (accepted qs (strip q)) eqn:Acc.
  - unfold accepted in Acc.
    apply andb_prop in Acc as [Acc Hlen].
    apply andb_prop in Acc as [Acc Hvid].
    apply andb_prop in Acc as [_ Hmem].
    apply negb_true_iff in Hvid, Hmem. apply Nat.ltb_lt in Hlen.
    apply bool_decide_eq_false in Hmem.
    exists [strip q]. split; [done|]. split; [done|]. split.
    + constructor; [by split|constructor].
    + intros ND. apply NoDup_app. split; [done|]. split.
      * intros x Hx Hx'. apply list_elem_of_singleton in Hx'. by subst x.
      * apply NoDup_singleton.
  - exists []. rewrite app_nil_r. repeat split; auto.
    apply sublist_nil_l.
Qed.

Lemma add_questions_extends cands qs :
  extends cands qs (add_questions qs cands).
Proof.
  revert qs. induction cands as [|c cands IH]; intros qs; simpl.
  - apply extends_refl.
  - apply (extends_trans [c] cands _ (add_question qs c)).
    + apply add_question_extends.
    + apply IH.
Qed.

Lemma extends_skip cands qs : extends cands qs qs.
Proof. apply (extends_weaken [] [] cands), extends_refl. Qed.

Lemma section_fold_extends response patterns acc :
  extends
    (concat
       (map (fun pattern =>
               match search true pattern response with
               | Some m => section_candidates (group 1 (m_groups m))
               | None => []
               end) patterns))
    (snd acc)
    (snd (fold_left (section_step response) patterns acc)).
Proof.
  revert acc. induction patterns as [|p ps IH]; intros acc; simpl.
  - apply extends_refl.
  - eapply extends_trans; [|apply IH].
    unfold section_step. destruct (search true p response); simpl.
    + apply add_questions_extends.
    + apply extends_refl.
Qed.

Lemma context_fold_extends combined patterns qs :
  extends
    (concat
       (map (fun pattern =>
               match search true pattern combined with
               | Some m => context_candidates (group 1 (m_groups m))
               | None => []
               end) patterns))
    qs
    (fold_left (context_step combined) patterns qs).
Proof.
  revert qs. induction patterns as [|p ps IH]; intros qs; simpl.
  - apply extends_refl.
  - eapply extends_trans; [|apply IH].
    unfold context_step. destruct (search true p combined).
    + apply add_questions_extends.
    + apply extends_refl.
Qed.

Lemma context_extends qs context_data :
  extends (discovered_in_context context_data) qs
          (_extract_questions_from_context qs context_data).
Proof.
  unfold discovered_in_context, _extract_questions_from_context.
  destruct (results context_data).
  - apply context_fold_extends.
  - apply extends_refl.
Qed.

Lemma slice_prefix {A} (l : list A) (n : Z) :
  (0 <= n)%Z -> slice l 0 n = take (Z.to_nat n) l.
Proof.
  intros Hn. unfold slice, clamp_index.
  replace (0 <? 0)%Z with false by done.
  replace (n <? 0)%Z with false by (symmetry; apply Z.ltb_ge; lia).
  replace (Z.to_nat (Z.min 0 (Z.of_nat (length l)))) with 0%nat by lia.
  rewrite drop_0.
  destruct (Z.le_ge_cases n (Z.of_nat (length l))) as [Hle|Hge].
  - f_equal. lia.
  - rewrite !take_ge; [done| |]; lia.
Qed.

(** The result is the first four of a list that the passes built by
    appending accepted candidates. *)
Lemma extract_related_questions_accumulates
    (response : str) (context_data : search_response) :
  exists questions,
    extends (discovered response context_data) [] questions
    /\ extract_related_questions response context_data = take 4 questions.
Proof.
  unfold extract_related_questions.
  pose proof (section_fold_extends response section_patterns (false, []))
    as E1.
  change (concat _) with (discovered_in_sections response) in E1.
  destruct (fold_left (section_step response) section_patterns (false, []))
    as [found questions]. cbn [snd] in E1.
  remember (if negb found || (length questions <? 3)%nat
            then _extract_questions_from_context questions context_data
            else questions) as questions2 eqn:Hq2.
  assert (E2 : extends (discovered_in_context context_data)
                       questions questions2).
  { subst questions2.
    destruct (negb found || (length questions <? 3)%nat).
    - apply context_extends.
    - apply extends_skip. }
  clear Hq2.
  remember (if (length questions2 <? 3)%nat
            then _extract_general_questions questions2 response
            else questions2) as questions3 eqn:Hq3.
  assert (E3 : extends (findall false general_pattern response)
                       questions2 questions3).
  { subst questions3. destruct (length questions2 <? 3)%nat.
    - apply add_questions_extends.
    - apply extends_skip. }
  clear Hq3. exists questions3. split.
  - exact (extends_trans _ _ _ _ _ E1 (extends_trans _ _ _ _ _ E2 E3)).
  - cbn zeta. by rewrite slice_prefix.
Qed.

Lemma extract_related_questions_length
    (response : str) (context_data : search_response) :
  (length (extract_related_questions response context_data) <= 4)%nat.
Proof.
  destruct (extract_related_questions_accumulates response context_data)
    as (questions & _ & ->).
  rewrite length_take. lia.
Qed.

(** C1. Whatever the response and the context data are, the
    suggested-question extraction returns at most 4 items; no item
    contains "video" once lower-cased and every item is shorter than
    100 characters; no item occurs twice; and the items come in the
    order in which the passes discovered them. *)
Theorem extract_related_questions_filtered
    (response : str) (context_data : search_response) :
  let questions := extract_related_questions response context_data in
  (length questions <= 4)%nat
  /\ Forall well_filtered questions
  /\ NoDup questions
  /\ questions `sublist_of` map strip (discovered response context_data).
Proof.
  cbn zeta.
  destruct (extract_related_questions_accumulates response context_data)
    as (all & (added & Heq & Hsub & Hall & Hnodup) & ->).
  simpl in Heq. subst all.
  split; [rewrite length_take; lia|].
  split; [by apply Forall_take|].
  split.
  - eapply sublist_NoDup; [|apply sublist_take]. apply Hnodup. constructor.
  - etrans; [apply sublist_take|exact Hsub].
Qed.

End Extraction.


(** ** Video links *)

(** A character that does not occur in a literal. *)
Ltac not_in_literal :=
  let Hin := fresh "Hin" in
  intros Hin; apply list_elem_of_In in Hin; revert Hin;
  vm_compute; intuition discriminate.

Section VideoLinks.
Context `{UnicodeData}.

Lemma strip_prefix_app p s : strip_prefix p (p ++ s) = Some s.
Proof.
  induction p as [|a p IH]; simpl; [done|]. by rewrite N.eqb_refl.
Qed.

Lemma rep_lazy_until p (t : str) c s k r :
  Forall (fun x => p x = true) t ->
  (forall x t', x :: t' `suffix_of` t -> k (x :: t' ++ c :: s) = None) ->
  k (c :: s) = Some r ->
  rep_lazy p 0 (t ++ c :: s) k = Some r.
Proof.
  induction t as [|x t IH]; intros Hp Hk Hr; simpl.
  - by rewrite Hr.
  - rewrite (Hk x t) by done.
    apply Forall_cons in Hp as [-> Hp]. apply IH; [done| |done].
    intros y t' Hsuf. apply Hk. by apply suffix_cons_r.
Qed.

Lemma take_consumed (t rest : str) :
  take (length (t ++ rest) - length rest) (t ++ rest) = t.
Proof.
  rewrite length_app. replace (length t + length rest - length rest)%nat
    with (length t) by lia.
  apply take_app_length.
Qed.

Lemma rep_greedy_stop p c s k :
  p c = false -> rep_greedy p 0 (c :: s) k = k (c :: s).
Proof. intros Hp. simpl. by rewrite Hp. Qed.

Lemma rep_greedy_step p c s k r :
  p c = true -> rep_greedy p 0 s k = Some r ->
  rep_greedy p 0 (c :: s) k = Some r.
Proof. intros Hp Hr. simpl. by rewrite Hp, Hr. Qed.

Lemma any_not_LF (t : str) :
  Forall (fun x => x <> LF) t ->
  Forall (fun x => cset_match false CAny x = true) t.
Proof.
  intros HF. eapply Forall_impl; [exact HF|].
  intros x Hx. simpl. by apply negb_true_iff, N.eqb_neq.
Qed.

Lemma strip_prefix_cons_ne a p x s :
  a <> x -> strip_prefix (a :: p) (x :: s) = None.
Proof. intros Hne. simpl. by apply N.eqb_neq in Hne as ->. Qed.

Lemma video_pattern_matches (title url rest : str) :
  Forall (fun x => x <> LF) title -> 93 ∉ title ->
  Forall (fun x => x <> LF) url -> 41 ∉ url ->
  match_here false video_pattern false (raw_link title url ++ rest)
  = Some (rest, [(2%nat, url); (1%nat, title)]).
Proof.
  intros Ht1 Ht2 Hu1 Hu2.
  unfold match_here, video_pattern, raw_link.
  cbn [rseq rmatch andb].
  replace ((lit "Video Guide: [" ++ title ++ lit "](" ++ url ++ lit ")")
           ++ rest)
    with (lit "Video Guide:" ++ 32 :: 91 :: title
          ++ 93 :: 40 :: url ++ 41 :: rest)
    by (rewrite <- !app_assoc; reflexivity).
  rewrite strip_prefix_app.
  apply rep_greedy_step; [reflexivity|].
  rewrite rep_greedy_stop by reflexivity.
  change (cset_match false (CChar 91) 91) with true. cbv iota.
  apply rep_lazy_until; [by apply any_not_LF| |].
  - intros x t' Hsuf. cbv beta. change (lit "](") with [93; 40].
    rewrite strip_prefix_cons_ne; [done|].
    intros <-. apply Ht2. destruct Hsuf as [pre ->]. set_solver.
  - change (strip_prefix (lit "](") (93 :: 40 :: url ++ 41 :: rest))
      with (Some (url ++ 41 :: rest)). cbv iota.
    apply rep_lazy_until; [by apply any_not_LF| |].
    + intros x t' Hsuf. cbv beta iota. unfold cset_match.
      destruct (N.eqb_spec 41 x) as [<-|]; [|done].
      exfalso. apply Hu2. destruct Hsuf as [pre ->]. set_solver.
    + change (cset_match false (CChar 41) 41) with true. cbv iota.
      rewrite (take_consumed url (41 :: rest)).
      by rewrite (take_consumed title (93 :: 40 :: url ++ 41 :: rest)).
Qed.

Lemma search_from_here r adv pre s rest g :
  match_here false r adv s = Some (rest, g) ->
  search_from false r adv pre s
  = Some {| m_pre := rev pre;
            m_text := take (length s - length rest) s;
            m_groups := g;
            m_rest := rest |}.
Proof. intros Hm. destruct s; simpl; by rewrite Hm. Qed.

Lemma video_pattern_needs_header adv s :
  starts_with (lit "Video Guide:") s = false ->
  match_here false video_pattern adv s = None.
Proof.
  unfold starts_with, match_here, video_pattern. cbn [rseq rmatch].
  by destruct (strip_prefix (lit "Video Guide:") s).
Qed.

Lemma search_video_none adv pre s :
  contains (lit "Video Guide:") s = false ->
  search_from false video_pattern adv pre s = None.
Proof.
  revert adv pre. induction s as [|c s IH]; intros adv pre Hc.
  - cbn [search_from]. by rewrite video_pattern_needs_header.
  - cbn [contains] in Hc. apply orb_false_elim in Hc as [Hs Hc].
    cbn [search_from]. rewrite video_pattern_needs_header by done.
    by apply IH.
Qed.

Lemma process_video_links_no_link s :
  contains (lit "Video Guide:") s = false -> process_video_links s = s.
Proof.
  intros Hc. unfold process_video_links, sub, finditer.
  replace (2 * length s + 2)%nat with (S (2 * length s + 1)) by lia.
  cbn [scan]. by rewrite search_video_none.
Qed.

Lemma replace_video_link_spec m title url :
  m_groups m = [(2%nat, url); (1%nat, title)] ->
  replace_video_link m = video_link title (rewritten_url title url).
Proof.
  intros Hg. unfold replace_video_link, rewritten_url. rewrite Hg.
  change (group 1 _) with title. change (group 2 _) with url.
  destruct (contains (lit "youtube.com") url
            || contains (lit "youtu.be") url); [done|].
  by destruct (contains (lit "internal_video_path") url).
Qed.

Lemma process_video_links_single title url :
  Forall (fun x => x <> LF) title -> 93 ∉ title ->
  Forall (fun x => x <> LF) url -> 41 ∉ url ->
  process_video_links (raw_link title url)
  = video_link title (rewritten_url title url).
Proof.
  intros Ht1 Ht2 Hu1 Hu2.
  pose proof (video_pattern_matches title url [] Ht1 Ht2 Hu1 Hu2) as Hm.
  rewrite app_nil_r in Hm.
  unfold process_video_links, sub, finditer.
  replace (2 * length (raw_link title url) + 2)%nat
    with (S (S (2 * length (raw_link title url)))) by lia.
  cbn [scan]. rewrite (search_from_here _ _ _ _ _ _ Hm).
  cbn [m_rest m_text]. rewrite search_video_none by done.
  cbn [map concat m_pre rev]. rewrite !app_nil_r, app_nil_l.
  by apply replace_video_link_spec.
Qed.

Lemma video_link_raw title url :
  video_link title url = raw_link (glyph ++ SPACE :: title) url.
Proof. unfold video_link, raw_link. by rewrite <- !app_assoc. Qed.

Lemma replace_char_elem a b (t : str) x :
  x ∈ replace [a] [b] t -> x = b \/ x ∈ t.
Proof.
  unfold replace. induction t as [|c t IH]; cbn [replace_from].
  - by right.
  - unfold starts_with. cbn [strip_prefix].
    destruct (a =? c); cbn [length Nat.pred].
    + change ([b] ++ ?l) with (b :: l). rewrite !elem_of_cons.
      intros [->|Hx]; [by left|]. destruct (IH Hx); auto.
    + rewrite !elem_of_cons.
      intros [->|Hx]; [by right; left|]. destruct (IH Hx); auto.
Qed.

Lemma search_url_is_youtube (query : str) :
  contains (lit "youtube.com")
    (lit "https://www.youtube.com/results?search_query=" ++ query) = true.
Proof. reflexivity. Qed.

Lemma rewritten_url_stable title title' url :
  rewritten_url title' (rewritten_url title url) = rewritten_url title url.
Proof.
  unfold rewritten_url at 2 3.
  destruct (contains (lit "youtube.com") url
            || contains (lit "youtu.be") url) eqn:Hy.
  - unfold rewritten_url. by rewrite Hy.
  - destruct (contains (lit "internal_video_path") url) eqn:Hi.
    + unfold rewritten_url. by rewrite search_url_is_youtube.
    + unfold rewritten_url. by rewrite Hy, Hi.
Qed.

Lemma rewritten_url_chars title url x :
  x ∈ rewritten_url title url ->
  x ∈ url \/ x ∈ title \/ (x <> LF /\ x <> 41).
Proof.
  unfold rewritten_url.
  destruct (contains (lit "youtube.com") url
            || contains (lit "youtu.be") url); [by left|].
  destruct (contains (lit "internal_video_path") url); [|by left].
  rewrite !elem_of_app. intros [Hx|[Hx|Hx]].
  - right; right.
    revert Hx. generalize x. apply Forall_forall. by vm_compute; repeat constructor.
  - apply replace_char_elem in Hx as [->|Hx]; [right; right; done|by right; left].
  - right; right.
    revert Hx. generalize x. apply Forall_forall. by vm_compute; repeat constructor.
Qed.

Lemma video_link_length title url :
  length (video_link title url) = (length title + length url + 22)%nat.
Proof.
  unfold video_link. rewrite !length_app.
  change (length (lit "Video Guide: [")) with 14%nat.
  change (length glyph) with 4%nat. change (length [SPACE]) with 1%nat.
  change (length (lit "](")) with 2%nat.
  change (length (lit ")")) with 1%nat. lia.
Qed.

(** C2, as amended. The transform is not idempotent on a link it has
    already rewritten. For a link whose title and URL stay on one
    line and hold no closing bracket or parenthesis, the first
    application settles the URL and puts the glyph before the title;
    a second application keeps that URL and puts one more glyph
    before the title, so the text changes again. *)
Theorem process_video_links_again (title url : str) :
  Forall (fun x => x <> LF) title -> 93 ∉ title -> 41 ∉ title ->
  Forall (fun x => x <> LF) url -> 41 ∉ url ->
  let once := process_video_links (raw_link title url) in
  let twice := process_video_links once in
  once = video_link title (rewritten_url title url)
  /\ twice = video_link (glyph ++ SPACE :: title) (rewritten_url title url)
  /\ twice <> once.
Proof.
  intros Ht1 Ht2 Ht3 Hu1 Hu2 once twice.
  assert (H1 : once = video_link title (rewritten_url title url))
    by (by apply process_video_links_single).
  assert (H2 : twice = video_link (glyph ++ SPACE :: title)
                                  (rewritten_url title url)).
  { unfold twice. rewrite H1, video_link_raw.
    rewrite process_video_links_single.
    - by rewrite rewritten_url_stable.
    - apply Forall_app. split; [by vm_compute; repeat constructor|].
      by constructor.
    - rewrite elem_of_app, elem_of_cons.
      intros [Hg|[Hs|Ht]]; [|done|done].
      revert Hg. not_in_literal.
    - apply Forall_forall. intros x Hx ->.
      apply rewritten_url_chars in Hx as [Hx|[Hx|[Hx _]]]; [| |done].
      + by eapply Forall_forall in Hu1.
      + by eapply Forall_forall in Ht1.
    - intros Hx.
      apply rewritten_url_chars in Hx as [Hx|[Hx|[_ Hx]]]; done. }
  split; [done|]. split; [done|].
  rewrite H1, H2. intros Heq. apply (f_equal length) in Heq.
  rewrite !video_link_length, length_app in Heq. simpl in Heq. lia.
Qed.

End VideoLinks.

(** The transform at work on a link with an internal path. *)
Lemma process_video_links_again_witness :
  let title := lit "Login" in
  let url := lit "internal_video_path/login.mp4" in
  (Forall (fun x => x <> LF) title /\ (93 ∉ title) /\ (41 ∉ title)
   /\ Forall (fun x => x <> LF) url /\ (41 ∉ url))
  /\ process_video_links (H := ascii_unicode_data)
       (process_video_links (H := ascii_unicode_data) (raw_link title url))
     <> process_video_links (H := ascii_unicode_data) (raw_link title url).
Proof.
  intros title url.
  assert (Ht1 : Forall (fun x => x <> LF) title)
    by (by vm_compute; repeat constructor).
  assert (Ht2 : 93 ∉ title) by not_in_literal.
  assert (Ht3 : 41 ∉ title) by not_in_literal.
  assert (Hu1 : Forall (fun x => x <> LF) url)
    by (by vm_compute; repeat constructor).
  assert (Hu2 : 41 ∉ url) by not_in_literal.
  split; [done|].
  exact (proj2 (proj2 (process_video_links_again (H := ascii_unicode_data)
                         title url Ht1 Ht2 Ht3 Hu1 Hu2))).
Defined.

(** The claim of C2 fails on the smallest link: it is rewritten, and
    the rewritten link is rewritten again. *)
Lemma process_video_links_not_idempotent :
  let once := process_video_links (H := ascii_unicode_data)
                (lit "Video Guide: [A](b)") in
  process_video_links (H := ascii_unicode_data) once <> once.
Proof. vm_compute. discriminate. Qed.

(** ** The example response *)

(** C3, as amended. On the example response the display text is
    "Answer."; the extraction returns the two bullets and, because
    fewer than three questions were found, also what the pass over the
    whole response finds: the run from "Related" to the first question
    mark. This holds for a context with no results and for one without
    the key. *)
Theorem example_response_processed `{UnicodeData} :
  let third := lit "Related Questions:" ++ [LF] ++ lit "- Q1?" in
  clean_assistant_response example_response = lit "Answer."
  /\ extract_related_questions example_response {| results := Some [] |}
     = [lit "Q1?"; lit "Q2?"; third]
  /\ extract_related_questions example_response {| results := None |}
     = [lit "Q1?"; lit "Q2?"; third].
Proof. repeat split; vm_compute; reflexivity. Qed.

(** The claim of C3 fails in its second half: the extraction does not
    return the two bullets alone. *)
Lemma example_response_has_third_question :
  extract_related_questions (H := ascii_unicode_data) example_response
    {| results := Some [] |}
  <> [lit "Q1?"; lit "Q2?"].
Proof. vm_compute. discriminate. Qed.

(** ** The history window *)

(** C4. The history window is the transcript from index
    [max 0 (len - W)] on; it is empty when [W <= 0] and the whole
    transcript when [W >= len]. *)
Theorem get_chat_history_window (st : session_state) :
  let transcript := messages st in
  let W := sliding_window st in
  let len := Z.of_nat (length transcript) in
  _get_chat_history st = drop (Z.to_nat (Z.max 0 (len - W))) transcript
  /\ ((W <= 0)%Z -> _get_chat_history st = [])
  /\ ((len <= W)%Z -> _get_chat_history st = transcript).
Proof.
  intros transcript W len.
  assert (Hw : _get_chat_history st
               = drop (Z.to_nat (Z.max 0 (len - W))) transcript).
  { unfold _get_chat_history, slice, clamp_index.
    fold transcript. fold W. fold len.
    replace (Z.max 0 (len - W) <? 0)%Z with false
      by (symmetry; apply Z.ltb_ge; lia).
    replace (len <? 0)%Z with false by (symmetry; apply Z.ltb_ge; lia).
    rewrite Z.min_id.
    destruct (Z.le_ge_cases (Z.max 0 (len - W)) len) as [Hle|Hge].
    - rewrite Z.min_l by done. apply take_ge. rewrite length_drop.
      unfold len. lia.
    - rewrite Z.min_r by lia.
      rewrite !drop_ge by (unfold len in *; lia). apply take_nil. }
  split; [done|]. rewrite Hw. split; intros Hb.
  - apply drop_ge. unfold len in *. lia.
  - replace (Z.to_nat (Z.max 0 (len - W))) with 0%nat by lia. apply drop_0.
Qed.

(** Two sessions of two messages: one with a negative window, one with
    the configured window of 7. *)
Lemma get_chat_history_window_witness :
  let hi := {| role := lit "User"; content := lit "hi" |} in
  let yo := {| role := lit "assistant"; content := lit "yo" |} in
  _get_chat_history (session_with [hi; yo] (-1) []) = []
  /\ _get_chat_history (session_with [hi; yo] SLIDING_WINDOW []) = [hi; yo].
Proof.
  intros hi yo. split.
  - apply (get_chat_history_window (session_with [hi; yo] (-1) [])).
    simpl. lia.
  - apply (get_chat_history_window (session_with [hi; yo] SLIDING_WINDOW [])).
    simpl. unfold SLIDING_WINDOW. lia.
Defined.

(** ** One turn *)

Section Turn.
Context {World : Type} `{Snowflake World} `{PromptBuilder} `{UnicodeData}.
Local Abbreviation frame := (@Vocabulary.frame World _).

Lemma bind_run {A B} (m : M World A) (f : A -> M World B) s :
  (m ≫= f) s
  = match m s with
    | (Ok a, s') => f a s'
    | (Raise e, s') => (Raise e, s')
    end.
Proof. reflexivity. Qed.

Lemma mret_run {A} (a : A) (s : app World) :
  (mret a : M World A) s = (Ok a, s).
Proof. reflexivity. Qed.

Lemma call_run {A} ev (oracle : World -> outcome A * World) s :
  call ev oracle s
  = ((oracle (world s)).1,
     {| world := (oracle (world s)).2; session := session s;
        trace := trace s ++ [ev] |}).
Proof. unfold call. by destruct (oracle (world s)). Qed.

Lemma search_similar_chunks_run query category n s :
  search_similar_chunks query category n s
  = call (EvSearch query (category_filter category) n)
         (cortex_search query (category_filter category) n) s.
Proof.
  unfold search_similar_chunks, category_filter.
  by destruct (bool_decide (category = lit "ALL")).
Qed.

Lemma create_prompt_no_history question s :
  use_chat_history (session s) && (0 <? length (messages (session s)))%nat
  = false ->
  _create_prompt question s
  = (prompt_context ←
       search_similar_chunks question (category_value (session s))
                             (num_chunks (session s));
     after_search question [] prompt_context) s.
Proof.
  intros Hc. unfold _create_prompt. rewrite bind_run. 
  change (get_session s) with (Ok (session s), s). cbv iota. rewrite Hc.
  rewrite !bind_run.
  by destruct (search_similar_chunks _ _ _ s) as [[pc|e] s1].
Qed.

Lemma after_search_run question chat_history prompt_context s :
  exists r,
    after_search (World := World) question chat_history prompt_context s
    = (r, s).
Proof.
  unfold after_search. rewrite bind_run.
  destruct (results prompt_context) as [items|]; [|by eexists].
  rewrite mret_run. rewrite bind_run.
  unfold lift_outcome. destruct (relative_paths_of items); by eexists.
Qed.

Lemma after_search_prompt question chat_history prompt_context s r s' :
  after_search (World := World) question chat_history prompt_context s
  = (Ok r, s') ->
  r.1.1 = create_main_prompt question chat_history prompt_context
  /\ r.2 = prompt_context
  /\ exists items, results prompt_context = Some items
                   /\ relative_paths_of items = Ok r.1.2.
Proof.
  unfold after_search. rewrite bind_run.
  destruct (results prompt_context) as [items|]; [|done].
  rewrite mret_run. rewrite bind_run.
  unfold lift_outcome. destruct (relative_paths_of items) eqn:Hp; [|done].
  intros [= <- <-]. eauto.
Qed.

(** The turn, step by step. *)
Lemma process_user_input_run question s :
  _process_user_input question s
  = match _create_prompt (replace [APOSTROPHE] [] question) s with
    | (Raise e, s1) => (Raise e, s1)
    | (Ok (prompt, relative_paths, context_data), s1) =>
        match complete_with_llm (model_name (session s1)) prompt s1 with
        | (Raise e, s2) => (Raise e, s2)
        | (Ok answer, s2) =>
            let response :=
              replace [APOSTROPHE] [] (process_video_links answer) in
            (Ok (response, relative_paths),
             match extract_related_questions response context_data with
             | [] => s2
             | new_questions =>
                 {| world := world s2;
                    session :=
                      set_suggested_questions new_questions (session s2);
                    trace := trace s2 |}
             end)
        end
    end.
Proof.
  unfold _process_user_input. rewrite bind_run.
  destruct (_create_prompt _ s) as [[[[prompt paths] ctx]|e] s1]; [|done].
  rewrite bind_run. change (get_session s1) with (Ok (session s1), s1).
  cbv iota. rewrite bind_run.
  destruct (complete_with_llm _ prompt s1) as [[answer|e] s2]; [|done].
  cbv zeta. rewrite bind_run.
  by destruct (extract_related_questions _ ctx).
Qed.

Lemma frame_ret {A} P (Q : A -> Prop) a : Q a -> frame P Q (mret a).
Proof.
  intros Hq s. rewrite mret_run. cbn [fst snd]. split; [done|]. split.
  - exists []. by rewrite app_nil_r.
  - by intros ? [= <-].
Qed.

Lemma frame_raise {A} P (Q : A -> Prop) e : frame P Q (raise e).
Proof.
  intros s. unfold raise. cbn [fst snd]. split; [done|]. split; [|done].
  exists []. by rewrite app_nil_r.
Qed.

Lemma frame_lift_outcome {A} P (o : outcome A) :
  frame P (fun a => o = Ok a) (lift_outcome o).
Proof.
  intros s. unfold lift_outcome. cbn [fst snd]. split; [done|].
  split; [|done]. exists []. by rewrite app_nil_r.
Qed.

Lemma frame_get_session P : frame P (fun _ => True) get_session.
Proof.
  intros s. unfold get_session. cbn [fst snd]. split; [done|].
  split; [|done]. exists []. by rewrite app_nil_r.
Qed.

Lemma frame_call {A} P ev (oracle : World -> outcome A * World) :
  P ev -> frame P (fun _ => True) (call ev oracle).
Proof.
  intros Hev s. rewrite call_run. cbn [fst snd session trace].
  split; [done|]. split; [|done]. exists [ev]. split; [done|].
  by constructor.
Qed.

Lemma frame_bind {A B} P (Q : A -> Prop) (R : B -> Prop)
    (m : M World A) (f : A -> M World B) :
  frame P Q m -> (forall a, Q a -> frame P R (f a)) -> frame P R (m ≫= f).
Proof.
  intros Hm Hf s. rewrite bind_run.
  destruct (Hm s) as (Hs & (added & Ht & Hadded) & Hq).
  destruct (m s) as [[a|e] s1]; cbn [fst snd] in *.
  - destruct (Hf a (Hq a eq_refl) s1) as (Hs' & (added' & Ht' & Hadded') & Hr).
    split; [congruence|]. split; [|done].
    exists (added ++ added'). rewrite Ht', Ht, app_assoc. split; [done|].
    by apply Forall_app.
  - split; [done|]. split; [|done]. by exists added.
Qed.

Lemma frame_weaken {A} P (Q Q' : A -> Prop) (m : M World A) :
  (forall a, Q a -> Q' a) -> frame P Q m -> frame P Q' m.
Proof.
  intros Himp Hm s. destruct (Hm s) as (Hs & Ht & Hq). auto.
Qed.

Lemma replace_drops_apostrophes (s : str) :
  APOSTROPHE ∉ replace [APOSTROPHE] [] s.
Proof.
  unfold replace. induction s as [|c s IH]; cbn [replace_from].
  - apply not_elem_of_nil.
  - unfold starts_with. cbn [strip_prefix length Nat.pred].
    destruct (N.eqb_spec APOSTROPHE c) as [<-|Hne]; [done|].
    rewrite elem_of_cons. by intros [?|?].
Qed.

Lemma frame_complete_with_llm G model prompt :
  frame (query_ok G) (fun _ => True) (complete_with_llm model prompt).
Proof. by apply frame_call. Qed.

Lemma frame_search_similar_chunks (G : str -> Prop) query category n :
  G query ->
  frame (query_ok G) (fun _ => True)
        (search_similar_chunks query category n).
Proof.
  intros Hq. unfold search_similar_chunks.
  destruct (bool_decide (category = lit "ALL")); by apply frame_call.
Qed.

Lemma frame_summarize_conversation G chat_history question :
  frame (query_ok G) quote_free
        (_summarize_conversation chat_history question).
Proof.
  unfold _summarize_conversation.
  eapply frame_bind; [apply frame_get_session|]. intros st _.
  eapply frame_bind; [apply frame_complete_with_llm|]. intros summary _.
  apply frame_ret, replace_drops_apostrophes.
Qed.

Lemma frame_create_prompt (G : str -> Prop) question :
  G question -> (forall query, quote_free query -> G query) ->
  frame (query_ok G)
    (fun r => exists items,
                results r.2 = Some items
                /\ relative_paths_of items = Ok r.1.2)
    (_create_prompt question).
Proof.
  intros Hq HG. unfold _create_prompt.
  eapply frame_bind; [apply frame_get_session|]. intros st _.
  eapply frame_bind with (Q := fun _ => True).
  - destruct (use_chat_history st && (0 <? length (messages st))%nat).
    + destruct (_get_chat_history st).
      * eapply frame_bind; [by apply frame_search_similar_chunks|].
        intros. by apply frame_ret.
      * eapply frame_bind; [apply frame_summarize_conversation|].
        intros summary Hs.
        eapply frame_bind; [by apply frame_search_similar_chunks, HG|].
        intros. by apply frame_ret.
    + eapply frame_bind; [by apply frame_search_similar_chunks|].
      intros. by apply frame_ret.
  - intros [chat_history prompt_context] _.
    eapply frame_bind with (Q := fun items =>
                                   results prompt_context = Some items).
    + destruct (results prompt_context); [by apply frame_ret|].
      apply frame_raise.
    + intros items Hitems.
      eapply frame_bind; [apply frame_lift_outcome|].
      intros paths Hpaths. apply frame_ret. eauto.
Qed.

(** The session after a turn that came to its end. *)
Lemma process_user_input_session
    question s prompt paths ctx s1 response paths' s' :
  _create_prompt (replace [APOSTROPHE] [] question) s
  = (Ok (prompt, paths, ctx), s1) ->
  _process_user_input question s = (Ok (response, paths'), s') ->
  session s'
  = match extract_related_questions response ctx with
    | [] => session s
    | new_questions => set_suggested_questions new_questions (session s)
    end.
Proof.
  intros Hc. rewrite process_user_input_run, Hc.
  pose proof (frame_create_prompt (fun _ => True)
                (replace [APOSTROPHE] [] question) I (fun _ _ => I) s)
    as (Hs1 & _ & _). rewrite Hc in Hs1. cbn [snd] in Hs1.
  pose proof (frame_complete_with_llm (fun _ => True)
                (model_name (session s1)) prompt s1) as (Hs2 & _ & _).
  destruct (complete_with_llm _ prompt s1) as [[answer|e] s2]; [|done].
  cbn [snd] in Hs2. cbv zeta. intros [= <- <- <-].
  destruct (extract_related_questions _ ctx); cbn [session]; congruence.
Qed.

(** C6, as amended. After a turn that came to its end the suggested
    questions are the ones extracted from the response of that turn
    when there is at least one, with nothing kept from before, and
    the previous ones when there is none; a set of at most 4 strings
    stays one of at most 4 strings. *)
Theorem suggested_questions_after_turn
    question s prompt paths ctx s1 response paths' s' :
  _create_prompt (replace [APOSTROPHE] [] question) s
  = (Ok (prompt, paths, ctx), s1) ->
  _process_user_input question s = (Ok (response, paths'), s') ->
  let old_questions := suggested_questions (session s) in
  let new_questions := extract_related_questions response ctx in
  suggested_questions (session s')
  = match new_questions with
    | [] => old_questions
    | _ :: _ => new_questions
    end
  /\ ((length old_questions <= 4)%nat ->
      (length (suggested_questions (session s')) <= 4)%nat).
Proof.
  intros Hc Hp old_questions new_questions.
  rewrite (process_user_input_session _ _ _ _ _ _ _ _ _ Hc Hp).
  fold new_questions.
  pose proof (extract_related_questions_length response ctx) as Hlen.
  fold new_questions in Hlen.
  by destruct new_questions.
Qed.

(** C9. When the extraction of a turn returns the empty list, the
    suggested questions of the session are the ones it had before
    the turn. *)
Theorem suggested_questions_kept
    question s prompt paths ctx s1 response paths' s' :
  _create_prompt (replace [APOSTROPHE] [] question) s
  = (Ok (prompt, paths, ctx), s1) ->
  _process_user_input question s = (Ok (response, paths'), s') ->
  extract_related_questions response ctx = [] ->
  suggested_questions (session s') = suggested_questions (session s).
Proof.
  intros Hc Hp He.
  by rewrite (process_user_input_session _ _ _ _ _ _ _ _ _ Hc Hp), He.
Qed.

Lemma relative_paths_of_elem items paths p :
  relative_paths_of items = Ok paths ->
  p ∈ paths <-> exists item, item ∈ items /\ relative_path item = Some p.
Proof.
  revert paths. induction items as [|item items IH]; intros paths; simpl.
  - intros [= <-]. split; [set_solver|]. intros (item & Hin & _).
    by apply elem_of_nil in Hin.
  - destruct (relative_path item) as [path|] eqn:Hpath; [|done].
    destruct (relative_paths_of items) as [paths0|]; [|done].
    intros [= <-]. rewrite elem_of_union, elem_of_singleton, (IH paths0) by done.
    split.
    + intros [->|(item' & Hin & Hp)].
      * exists item. split; [left|done].
      * exists item'. split; [by right|done].
    + intros (item' & Hin & Hp). apply elem_of_cons in Hin as [->|Hin].
      * left. congruence.
      * right. eauto.
Qed.

Lemma relative_paths_of_total items :
  Forall (fun item => is_Some (relative_path item)) items <->
  exists paths, relative_paths_of items = Ok paths.
Proof.
  induction items as [|item items IH]; simpl.
  - split; [by eexists|constructor].
  - rewrite Forall_cons, IH. split.
    + intros ([path ->] & paths & ->). by eexists.
    + intros (paths & Hp). destruct (relative_path item); [|done].
      destruct (relative_paths_of items); [|done]. eauto.
Qed.

End Turn.

Section Resolver.
Context {World : Type} `{Snowflake World}.

Lemma get_document_url_run path s :
  get_document_url path s
  = match get_document_url_body path s with
    | (Ok url, s1) => (Ok url, s1)
    | (Raise e, s1) => (Ok (lit "#"), reported path e s1)
    end.
Proof.
  unfold get_document_url, try_except.
  by destruct (get_document_url_body path s) as [[url|e] s1].
Qed.

Lemma for_each_urls_total (paths : list str) s :
  exists documents s',
    for_each (fun path =>
                url_link ← get_document_url path;
                mret (path, url_link)) paths s
    = (Ok documents, s').
Proof.
  revert s. induction paths as [|path paths IH]; intros s.
  - by eexists _, _.
  - cbn [for_each]. rewrite !bind_run, get_document_url_run.
    destruct (get_document_url_body path s) as [[url|e] s1].
    + rewrite mret_run. rewrite bind_run.
      destruct (IH s1) as (documents & s' & ->). by eexists _, _.
    + rewrite mret_run. rewrite bind_run.
      destruct (IH (reported path e s1)) as (documents & s' & ->).
      by eexists _, _.
Qed.

(** C10. [get_document_url] always returns: when the lookup raises,
    the error is shown in the page and the result is "#"; when it
    succeeds, the result is the URL found. So updating the related
    documents never raises either. *)
Theorem get_document_url_total (path : str) (s : app World) :
  (exists url s', get_document_url path s = (Ok url, s'))
  /\ (forall e s1,
        get_document_url_body path s = (Raise e, s1) ->
        get_document_url path s = (Ok (lit "#"), reported path e s1))
  /\ (forall url s1,
        get_document_url_body path s = (Ok url, s1) ->
        get_document_url path s = (Ok url, s1))
  /\ (forall relative_paths,
        exists s', _update_related_documents relative_paths s = (Ok tt, s')).
Proof.
  rewrite get_document_url_run.
  split; [|split; [|split]].
  - destruct (get_document_url_body path s) as [[url|e] s1]; by eexists _, _.
  - by intros e s1 ->.
  - by intros url s1 ->.
  - intros relative_paths. unfold _update_related_documents.
    destruct (elements relative_paths) as [|p ps]; [by eexists|].
    rewrite bind_run.
    destruct (for_each_urls_total (p :: ps) s) as (documents & s' & ->).
    by eexists.
Qed.
End Resolver.

(** ** The theorems at work *)

(** In a turn started from a button the question joins the transcript
    before the prompt is created, so the window is not empty and the
    first call is the reformulation. *)
Lemma first_turn_reformulates :
  let question := lit "Any news" in
  let s' := (_process_question (H := answering [] (lit "None."))
               (H0 := plain_prompts) (H1 := ascii_unicode_data)
               question (start initialize)).2 in
  head (trace s')
  = Some (EvComplete MODEL
            (create_chat_summary_prompt (PromptBuilder := plain_prompts)
               [{| role := lit "User"; content := question |}] question)).
Proof. vm_compute. reflexivity. Qed.

(** A turn whose response carries a section of three questions. *)
Lemma suggested_questions_after_turn_witness :
  let answer :=
    lit "Fine." ++ [LF; LF] ++ lit "Related Questions:" ++ [LF]
    ++ lit "- Why?" ++ [LF] ++ lit "- When?" ++ [LF] ++ lit "- Where?" in
  let s := start initialize in
  let r := _process_user_input (H := answering [] answer)
             (H0 := plain_prompts) (H1 := ascii_unicode_data)
             (lit "Any news") s in
  r.1 = Ok (answer, ∅)
  /\ suggested_questions (session r.2)
     = [lit "Why?"; lit "When?"; lit "Where?"].
Proof.
  intros answer s r.
  assert (Hr : r = (Ok (answer, ∅), r.2)) by (vm_compute; reflexivity).
  split; [by rewrite Hr|].
  refine (eq_trans
            (proj1 (suggested_questions_after_turn
                      (H := answering [] answer) (H0 := plain_prompts)
                      (H1 := ascii_unicode_data)
                      (lit "Any news") s (lit "Any news") ∅
                      {| results := Some [] |}
                      {| world := tt; session := initialize;
                         trace := [EvSearch (lit "Any news") None
                                            NUM_CHUNKS] |}
                      answer ∅ r.2 _ Hr)) _);
    vm_compute; reflexivity.
Defined.

(** The claim of C6 fails on a response without question: nothing is
    extracted and the suggested questions are still the initial ones. *)
Lemma suggested_questions_not_replaced :
  let answer := lit "Done." in
  let r := _process_user_input (H := answering [] answer)
             (H0 := plain_prompts) (H1 := ascii_unicode_data)
             (lit "Any news") (start initialize) in
  r.1 = Ok (answer, ∅)
  /\ extract_related_questions (H := ascii_unicode_data) answer
       {| results := Some [] |} = []
  /\ suggested_questions (session r.2) = INITIAL_QUESTIONS
  /\ INITIAL_QUESTIONS <> [].
Proof. vm_compute. repeat split; discriminate. Qed.

(** A turn whose response carries no question. *)
Lemma suggested_questions_kept_witness :
  let answer := lit "Done." in
  let s := start initialize in
  let r := _process_user_input (H := answering [] answer)
             (H0 := plain_prompts) (H1 := ascii_unicode_data)
             (lit "Any news") s in
  extract_related_questions (H := ascii_unicode_data) answer
    {| results := Some [] |} = []
  /\ suggested_questions (session r.2) = INITIAL_QUESTIONS.
Proof.
  intros answer s r.
  assert (He : extract_related_questions (H := ascii_unicode_data) answer
                 {| results := Some [] |} = []) by (vm_compute; reflexivity).
  split; [exact He|].
  refine (suggested_questions_kept
            (H := answering [] answer) (H0 := plain_prompts)
            (H1 := ascii_unicode_data)
            (lit "Any news") s (lit "Any news") ∅ {| results := Some [] |}
            {| world := tt; session := initialize;
               trace := [EvSearch (lit "Any news") None NUM_CHUNKS] |}
            answer ∅ r.2 _ _ He); vm_compute; reflexivity.
Defined.

(** A session whose SQL statements fail: the resolver answers "#". *)
Lemma get_document_url_total_witness :
  let s := start initialize in
  (get_document_url (H := sql_down) (lit "a.pdf") s).1 = Ok (lit "#").
Proof.
  intros s.
  destruct (get_document_url_total (H := sql_down) (lit "a.pdf") s)
    as (_ & Hfail & _).
  by rewrite (Hfail (ServiceError (lit "no session"))
                {| world := tt; session := initialize;
                   trace := [EvSql (lit "USE DATABASE kritik_db")] |}
                eq_refl).
Defined.

(** * Further properties *)

(** ** The calls of a turn *)

(** The calls of one branch of a turn, given as three lists. *)
Ltac calls_are reformulation retrieval answer :=
  exists reformulation, retrieval, answer;
  cbn [fst snd trace]; rewrite <- ?app_assoc, ?app_nil_r;
  repeat split;
  try (simpl; lia); try (by repeat constructor);
  try (intros; discriminate); try done.

(** The branches after the retrieval has been called. *)
Ltac retrieval_cases reformulation :=
  match goal with
  | |- context [cortex_search ?q ?f ?n ?w] =>
      let pc := fresh "prompt_context" in
      destruct (cortex_search q f n w) as [[pc|?] ?]; cbn [fst snd trace];
      [ destruct (results pc) as [?items|]; cbn [fst snd trace];
        [ match goal with
          | |- context [relative_paths_of ?items] =>
              destruct (relative_paths_of items); cbn [fst snd trace]
          end;
          [ match goal with
            | |- context [EvComplete ?m (create_main_prompt ?a ?b ?c)] =>
                calls_are reformulation [EvSearch q f n]
                          [EvComplete m (create_main_prompt a b c)]
            end
          | calls_are reformulation [EvSearch q f n] (@nil event) ]
        | calls_are reformulation [EvSearch q f n] (@nil event) ]
      | calls_are reformulation [EvSearch q f n] (@nil event) ]
  end.

Section TurnCalls.
Context {World : Type} `{Snowflake World} `{PromptBuilder} `{UnicodeData}.

Lemma create_prompt_plain question s :
  use_chat_history (session s) = false \/ _get_chat_history (session s) = [] ->
  _create_prompt question s
  = (prompt_context ←
       search_similar_chunks question (category_value (session s))
                             (num_chunks (session s));
     after_search question [] prompt_context) s.
Proof.
  intros Hc.
  destruct (use_chat_history (session s)
            && (0 <? length (messages (session s)))%nat) eqn:Hb.
  - destruct Hc as [Hc|Hc]; [by rewrite Hc in Hb|].
    unfold _create_prompt. rewrite bind_run.
    change (get_session s) with (Ok (session s), s). cbv iota.
    rewrite Hb, Hc, !bind_run.
    by destruct (search_similar_chunks _ _ _ s) as [[pc|e] s1].
  - by apply create_prompt_no_history.
Qed.

Lemma create_prompt_reformulated question s :
  use_chat_history (session s) = true ->
  _get_chat_history (session s) <> [] ->
  _create_prompt question s
  = (summary ← _summarize_conversation (_get_chat_history (session s))
                                        question;
     prompt_context ←
       search_similar_chunks summary (category_value (session s))
                             (num_chunks (session s));
     after_search question (_get_chat_history (session s)) prompt_context) s.
Proof.
  intros Hu Hh.
  assert (Hm : (0 <? length (messages (session s)))%nat = true).
  { apply Nat.ltb_lt. destruct (messages (session s)) eqn:Hm; [|simpl; lia].
    exfalso. apply Hh. unfold _get_chat_history. rewrite Hm.
    unfold slice. by rewrite drop_nil, take_nil. }
  unfold _create_prompt. rewrite bind_run.
  change (get_session s) with (Ok (session s), s). cbv iota.
  rewrite Hu, Hm. cbn [andb].
  destruct (_get_chat_history (session s)) as [|m h] eqn:Hw; [done|].
  rewrite !bind_run.
  destruct (_summarize_conversation (m :: h) question s) as [[summary|e] s1];
    [|done].
  rewrite !bind_run.
  by destruct (search_similar_chunks _ _ _ s1) as [[pc|e] s2].
Qed.

Lemma summarize_conversation_run chat_history question s :
  _summarize_conversation chat_history question s
  = match complete_with_llm (model_name (session s))
            (create_chat_summary_prompt chat_history question) s with
    | (Ok summary, s1) => (Ok (replace [APOSTROPHE] [] summary), s1)
    | (Raise e, s1) => (Raise e, s1)
    end.
Proof.
  unfold _summarize_conversation. rewrite bind_run.
  change (get_session s) with (Ok (session s), s). cbv iota.
  rewrite bind_run.
  by destruct (complete_with_llm _ _ s) as [[summary|e] s1].
Qed.

(** The answer is asked for once the prompt is there, with the model of
    the session. *)
Lemma process_user_input_trace question s :
  let created := _create_prompt (replace [APOSTROPHE] [] question) s in
  trace (_process_user_input question s).2
  = trace created.2
    ++ match created.1 with
       | Ok (prompt, _, _) => [EvComplete (model_name (session s)) prompt]
       | Raise _ => []
       end.
Proof.
  cbv zeta. rewrite process_user_input_run.
  pose proof (frame_create_prompt (fun _ => True)
                (replace [APOSTROPHE] [] question) I (fun _ _ => I) s)
    as (Hs1 & _ & _).
  destruct (_create_prompt _ s) as [[[[prompt paths] ctx]|e] s1];
    cbn [fst snd] in *; [|by rewrite app_nil_r].
  unfold complete_with_llm. rewrite call_run, Hs1.
  destruct (cortex_complete _ prompt (world s1)) as [[answer|e] w];
    cbn [fst snd]; [|done].
  by destruct (extract_related_questions _ ctx).
Qed.

Lemma process_user_input_result question s :
  (_process_user_input question s).1
  = match _create_prompt (replace [APOSTROPHE] [] question) s with
    | (Raise e, _) => Raise e
    | (Ok (prompt, relative_paths, _), s1) =>
        match cortex_complete (model_name (session s)) prompt (world s1) with
        | (Ok answer, _) =>
            Ok (replace [APOSTROPHE] [] (process_video_links answer),
                relative_paths)
        | (Raise e, _) => Raise e
        end
    end.
Proof.
  rewrite process_user_input_run.
  pose proof (frame_create_prompt (fun _ => True)
                (replace [APOSTROPHE] [] question) I (fun _ _ => I) s)
    as (Hs1 & _ & _).
  destruct (_create_prompt _ s) as [[[[prompt paths] ctx]|e] s1];
    cbn [fst snd] in *; [|done].
  unfold complete_with_llm. rewrite call_run, Hs1.
  by destruct (cortex_complete _ prompt (world s1)) as [[answer|e] w].
Qed.

(** What the retrieval and the reading of its response leave behind. *)
Lemma retrieve_run query category limit question chat_history s :
  let filter := category_filter category in
  let found := cortex_search query filter limit (world s) in
  let s1 := {| world := found.2; session := session s;
               trace := trace s ++ [EvSearch query filter limit] |} in
  (prompt_context ← search_similar_chunks query category limit;
   after_search question chat_history prompt_context) s
  = match found.1 with
    | Raise e => (Raise e, s1)
    | Ok prompt_context =>
        match results prompt_context with
        | None => (Raise (KeyError (lit "'results'")), s1)
        | Some items =>
            match relative_paths_of items with
            | Raise e => (Raise e, s1)
            | Ok relative_paths =>
                (Ok (create_main_prompt question chat_history prompt_context,
                     relative_paths, prompt_context), s1)
            end
        end
    end.
Proof.
  cbv zeta. rewrite bind_run, search_similar_chunks_run, call_run.
  destruct (cortex_search _ _ _ (world s)) as [[pc|e] w]; cbn [fst snd]; [|done].
  unfold after_search. rewrite bind_run.
  destruct (results pc) as [items|]; [|done].
  rewrite mret_run, bind_run. unfold lift_outcome.
  by destruct (relative_paths_of items).
Qed.

Lemma relative_paths_of_readable items :
  Forall (fun item => is_Some (relative_path item)) items
  \/ exists e, relative_paths_of items = Raise e.
Proof.
  induction items as [|item items IH]; [by left; constructor|].
  simpl. destruct (relative_path item) eqn:Hp; [|right; by eexists].
  destruct IH as [IH|[e IH]].
  - left. constructor; [by rewrite Hp|done].
  - right. rewrite IH. by eexists.
Qed.

Lemma get_chat_history_drop (st : session_state) :
  _get_chat_history st
  = drop (Z.to_nat (Z.max 0 (Z.of_nat (length (messages st))
                             - sliding_window st))) (messages st).
Proof.
  unfold _get_chat_history, slice, clamp_index.
  set (len := Z.of_nat (length (messages st))). set (W := sliding_window st).
  replace (Z.max 0 (len - W) <? 0)%Z with false
    by (symmetry; apply Z.ltb_ge; lia).
  replace (len <? 0)%Z with false by (symmetry; apply Z.ltb_ge; lia).
  rewrite Z.min_id.
  destruct (Z.le_ge_cases (Z.max 0 (len - W)) len) as [Hle|Hge].
  - rewrite Z.min_l by done. apply take_ge. rewrite length_drop.
    unfold len. lia.
  - rewrite Z.min_r by lia.
    rewrite !drop_ge by (unfold len in *; lia). apply take_nil.
Qed.

(** X1. When the use of the chat history is switched off, or the
    sliding window is zero or negative, a turn asks for no
    reformulation, whatever the transcript holds: the first call is the
    retrieval, with the sanitized question as its query and the
    category filter and chunk limit of the session; the only call that
    may follow is the completion of the main prompt, built with an
    empty history. *)
Theorem retrieval_without_window question s :
  use_chat_history (session s) = false
  \/ (sliding_window (session s) <= 0)%Z ->
  let query := replace [APOSTROPHE] [] question in
  let st := session s in
  let s' := (_process_user_input question s).2 in
  exists later,
    trace s'
    = trace s
      ++ EvSearch query (category_filter (category_value st))
                  (num_chunks st) :: later
    /\ (later = []
        \/ exists prompt_context,
             later = [EvComplete (model_name st)
                        (create_main_prompt query [] prompt_context)]).
Proof.
  intros Hc query st s'. unfold s'.
  rewrite process_user_input_trace. cbv zeta. fold query.
  rewrite create_prompt_plain, retrieve_run.
  2:{ destruct Hc as [Hc|Hc]; [by left|right].
      rewrite get_chat_history_drop. apply drop_ge. lia. }
  cbv zeta. fold st.
  destruct (cortex_search _ _ _ (world s)) as [[pc|e] w]; cbn [fst snd trace].
  - destruct (results pc) as [items|]; cbn [fst snd trace].
    + destruct (relative_paths_of items); cbn [fst snd trace];
        rewrite <- app_assoc; eexists; split; eauto.
    + rewrite <- app_assoc. eexists; split; eauto.
  - rewrite <- app_assoc. eexists; split; eauto.
Qed.

Lemma process_user_input_reformulates question s :
  use_chat_history (session s) = true ->
  _get_chat_history (session s) <> [] ->
  let st := session s in
  let query := replace [APOSTROPHE] [] question in
  let prompt := create_chat_summary_prompt (_get_chat_history st) query in
  let turn := _process_user_input question s in
  exists later,
    trace turn.2 = trace s ++ EvComplete (model_name st) prompt :: later
    /\ match (cortex_complete (model_name st) prompt (world s)).1 with
       | Raise e => later = [] /\ turn.1 = Raise e
       | Ok summary =>
           exists later',
             later = EvSearch (replace [APOSTROPHE] [] summary)
                       (category_filter (category_value st))
                       (num_chunks st) :: later'
             /\ (later' = []
                 \/ exists prompt_context,
                      later' = [EvComplete (model_name st)
                                  (create_main_prompt query
                                     (_get_chat_history st) prompt_context)])
       end.
Proof.
  intros Hu Hh st query prompt turn. unfold turn.
  rewrite process_user_input_trace, process_user_input_result.
  cbv zeta. fold query.
  rewrite create_prompt_reformulated by done.
  rewrite bind_run, summarize_conversation_run.
  unfold complete_with_llm. rewrite call_run. fold st. fold prompt.
  destruct (cortex_complete (model_name st) prompt (world s))
    as [[summary|e] w]; cbn [fst snd].
  - rewrite retrieve_run. cbv zeta. cbn [world session trace].
    destruct (cortex_search _ _ _ w) as [[pc|e] w']; cbn [fst snd trace].
    + destruct (results pc) as [items|]; cbn [fst snd trace].
      * destruct (relative_paths_of items); cbn [fst snd trace];
          rewrite <- !app_assoc; eexists; split; eauto.
      * rewrite <- !app_assoc. eexists; split; eauto.
    + rewrite <- !app_assoc. eexists; split; eauto.
  - rewrite app_nil_r. eexists; split; eauto.
Qed.

(** X2. When the chat history is in use and the window holds at least
    one message, the first call of a turn is the completion of the
    summary prompt over the window and the sanitized question, with
    the model of the session. If that call raises, nothing else is
    called and the turn raises the same exception. Otherwise the
    retrieval follows, its query being the summary without
    apostrophes, and then at most the completion of the main prompt,
    built with the window. *)
Theorem reformulation_first question s :
  use_chat_history (session s) = true ->
  _get_chat_history (session s) <> [] ->
  let st := session s in
  let query := replace [APOSTROPHE] [] question in
  let prompt := create_chat_summary_prompt (_get_chat_history st) query in
  let turn := _process_user_input question s in
  exists later,
    trace turn.2 = trace s ++ EvComplete (model_name st) prompt :: later
    /\ match (cortex_complete (model_name st) prompt (world s)).1 with
       | Raise e => later = [] /\ turn.1 = Raise e
       | Ok summary =>
           exists later',
             later = EvSearch (replace [APOSTROPHE] [] summary)
                       (category_filter (category_value st))
                       (num_chunks st) :: later'
             /\ (later' = []
                 \/ exists prompt_context,
                      later' = [EvComplete (model_name st)
                                  (create_main_prompt query
                                     (_get_chat_history st) prompt_context)])
       end.
Proof. apply process_user_input_reformulates. Qed.

Lemma process_user_input_calls question s :
  let st := session s in
  let turn := _process_user_input question s in
  exists reformulation retrieval answer,
    trace turn.2 = trace s ++ reformulation ++ retrieval ++ answer
    /\ ((length reformulation <= 1)%nat /\ Forall is_completion reformulation)
    /\ ((length retrieval <= 1)%nat /\ Forall is_retrieval retrieval)
    /\ ((length answer <= 1)%nat /\ Forall is_completion answer)
    /\ Forall (uses_settings st) (reformulation ++ retrieval ++ answer)
    /\ (answer <> [] -> retrieval <> [])
    /\ (forall r, turn.1 = Ok r ->
                  length retrieval = 1%nat /\ length answer = 1%nat).
Proof.
  intros st turn. unfold turn.
  rewrite process_user_input_trace, process_user_input_result. cbv zeta.
  set (query := replace [APOSTROPHE] [] question).
  destruct (use_chat_history st) eqn:Hu;
    [destruct (_get_chat_history st) as [|m h] eqn:Hh|].
  - rewrite create_prompt_plain, retrieve_run by (by right). cbv zeta.
    fold st. retrieval_cases (@nil event).
  - rewrite create_prompt_reformulated by (fold st; by rewrite ?Hh).
    fold st. rewrite Hh.
    rewrite bind_run, summarize_conversation_run.
    unfold complete_with_llm. rewrite call_run. fold st.
    destruct (cortex_complete (model_name st) _ (world s))
      as [[summary|e] w]; cbn [fst snd].
    + rewrite retrieve_run. cbv zeta. cbn [world session trace]. fold st.
      retrieval_cases
        [EvComplete (model_name st)
           (create_chat_summary_prompt (m :: h) query)].
    + calls_are
        [EvComplete (model_name st)
           (create_chat_summary_prompt (m :: h) query)]
        (@nil event) (@nil event).
  - rewrite create_prompt_plain, retrieve_run by (by left). cbv zeta.
    fold st. retrieval_cases (@nil event).
Qed.

(** X3. The calls of one turn are, in this order, at most one
    completion (the reformulation), at most one retrieval and at most
    one completion (the answer). Each uses the model, the category
    filter and the chunk limit that the session had when the turn
    began; the answer is asked for only after a retrieval; and a turn
    that returns has made exactly one retrieval and asked for exactly
    one answer. *)
Theorem turn_calls question s :
  let st := session s in
  let turn := _process_user_input question s in
  exists reformulation retrieval answer,
    trace turn.2 = trace s ++ reformulation ++ retrieval ++ answer
    /\ ((length reformulation <= 1)%nat /\ Forall is_completion reformulation)
    /\ ((length retrieval <= 1)%nat /\ Forall is_retrieval retrieval)
    /\ ((length answer <= 1)%nat /\ Forall is_completion answer)
    /\ Forall (uses_settings st) (reformulation ++ retrieval ++ answer)
    /\ (answer <> [] -> retrieval <> [])
    /\ (forall r, turn.1 = Ok r ->
                  length retrieval = 1%nat /\ length answer = 1%nat).
Proof. apply process_user_input_calls. Qed.

Lemma turn_session_kept_on_failure question s e :
  (_process_user_input question s).1 = Raise e ->
  session (_process_user_input question s).2 = session s.
Proof.
  rewrite process_user_input_run.
  pose proof (frame_create_prompt (fun _ => True)
                (replace [APOSTROPHE] [] question) I (fun _ _ => I) s)
    as (Hs1 & _ & _).
  destruct (_create_prompt _ s) as [[[[prompt paths] ctx]|e1] s1];
    cbn [fst snd] in *; [|done].
  pose proof (frame_complete_with_llm (fun _ => True)
                (model_name (session s1)) prompt s1) as (Hs2 & _ & _).
  destruct (complete_with_llm _ prompt s1) as [[answer|e2] s2];
    cbn [fst snd] in *; [done|]. intros _. congruence.
Qed.

Lemma process_user_input_resuggested question s :
  let turn := _process_user_input question s in
  resuggested (session s) (session turn.2)
  /\ (forall e, turn.1 = Raise e -> session turn.2 = session s).
Proof.
  cbv zeta. rewrite process_user_input_run.
  pose proof (frame_create_prompt (fun _ => True)
                (replace [APOSTROPHE] [] question) I (fun _ _ => I) s)
    as (Hs1 & _ & _).
  destruct (_create_prompt _ s) as [[[[prompt paths] ctx]|e] s1];
    cbn [fst snd] in *; [|split; [by left|done]].
  pose proof (frame_complete_with_llm (fun _ => True)
                (model_name (session s1)) prompt s1) as (Hs2 & _ & _).
  destruct (complete_with_llm _ prompt s1) as [[answer|e] s2];
    cbn [fst snd] in *; [|split; [left; congruence|intros; congruence]].
  cbv zeta. split; [|done].
  pose proof (extract_related_questions_length
                (replace [APOSTROPHE] [] (process_video_links answer)) ctx)
    as Hlen.
  destruct (extract_related_questions _ ctx) as [|q qs] eqn:He;
    cbn [session]; [left; congruence|].
  right. exists (q :: qs). split; [done|]. split; [done|]. congruence.
Qed.

(** X4. A turn changes nothing of the session but the suggested
    questions, which it keeps or replaces by between one and four new
    ones; a turn that raises leaves the session as it found it. *)
Theorem turn_touches_suggestions_only question s :
  let turn := _process_user_input question s in
  resuggested (session s) (session turn.2)
  /\ (forall e, turn.1 = Raise e -> session turn.2 = session s).
Proof. apply process_user_input_resuggested. Qed.

Lemma retrieve_unreadable query category limit question chat_history s :
  (forall query filter limit w r,
     (cortex_search query filter limit w).1 = Ok r -> ~ readable r) ->
  exists e w,
    (prompt_context ← search_similar_chunks query category limit;
     after_search question chat_history prompt_context) s
    = (Raise e,
       {| world := w; session := session s;
          trace := trace s
                   ++ [EvSearch query (category_filter category) limit] |}).
Proof.
  intros Hbad. rewrite retrieve_run. cbv zeta.
  destruct (cortex_search _ _ _ (world s)) as [[pc|e] w] eqn:Hs;
    cbn [fst snd]; [|by eexists _, _].
  destruct (results pc) as [items|] eqn:Hr; [|by eexists _, _].
  destruct (relative_paths_of items) as [paths|e] eqn:Hp; [|by eexists _, _].
  exfalso.
  apply (Hbad query (category_filter category) limit (world s) pc);
    [by rewrite Hs|].
  exists items. split; [done|]. apply relative_paths_of_total. eauto.
Qed.

(** X5. When the retrieval never answers with a response the program
    can read (the results are missing, or a result has no path), the
    turn raises and leaves the session as it was. Every call it made is
    a completion or a retrieval, and no completion follows a retrieval:
    the answer is never asked for. *)
Theorem unreadable_response_aborts question s :
  (forall query filter limit w r,
     (cortex_search query filter limit w).1 = Ok r -> ~ readable r) ->
  let turn := _process_user_input question s in
  (exists e, turn.1 = Raise e)
  /\ session turn.2 = session s
  /\ exists reformulation retrieval,
       trace turn.2 = trace s ++ reformulation ++ retrieval
       /\ Forall is_completion reformulation
       /\ Forall is_retrieval retrieval.
Proof.
  intros Hbad turn.
  assert (Hraise : exists e, turn.1 = Raise e
                   /\ exists reformulation retrieval,
                        trace turn.2 = trace s ++ reformulation ++ retrieval
                        /\ Forall is_completion reformulation
                        /\ Forall is_retrieval retrieval).
  { unfold turn.
    rewrite process_user_input_trace, process_user_input_result. cbv zeta.
    set (query := replace [APOSTROPHE] [] question).
    destruct (use_chat_history (session s)) eqn:Hu;
      [destruct (_get_chat_history (session s)) as [|m h] eqn:Hh|].
    - rewrite create_prompt_plain by (by right).
      destruct (retrieve_unreadable query (category_value (session s))
                  (num_chunks (session s)) query [] s Hbad) as (e & w & ->).
      exists e. split; [done|]. exists [], [EvSearch query
        (category_filter (category_value (session s))) (num_chunks (session s))].
      cbn [fst snd trace]. rewrite app_nil_r.
      split; [done|]. split; by repeat constructor.
    - rewrite create_prompt_reformulated by (by rewrite ?Hh).
      rewrite Hh, bind_run, summarize_conversation_run.
      unfold complete_with_llm. rewrite call_run.
      destruct (cortex_complete _ _ (world s)) as [[summary|e] w];
        cbn [fst snd].
      + match goal with
        | |- context [(search_similar_chunks ?q ?c ?n ≫= _) ?s0] =>
            destruct (retrieve_unreadable q c n query (m :: h) s0 Hbad)
              as (e & w' & ->)
        end.
        exists e. split; [done|]. cbn [fst snd trace session].
        eexists [_], [_]. rewrite app_nil_r, <- app_assoc.
        split; [done|]. split; by repeat constructor.
      + exists e. split; [done|]. cbn [fst snd trace].
        eexists [_], []. rewrite !app_nil_r.
        split; [done|]. split; by repeat constructor.
    - rewrite create_prompt_plain by (by left).
      destruct (retrieve_unreadable query (category_value (session s))
                  (num_chunks (session s)) query [] s Hbad) as (e & w & ->).
      exists e. split; [done|]. exists [], [EvSearch query
        (category_filter (category_value (session s))) (num_chunks (session s))].
      cbn [fst snd trace]. rewrite app_nil_r.
      split; [done|]. split; by repeat constructor. }
  destruct Hraise as (e & He & Ht). split; [by exists e|]. split; [|done].
  by apply (turn_session_kept_on_failure question s e).
Qed.
End TurnCalls.

(** ** Related documents *)

Section Documents.
Context {World : Type} `{Snowflake World}.

Lemma get_document_url_cases (path : str) (s : app World) :
  let r := get_document_url path s in
  session r.2 = session s
  /\ (exists url, r.1 = Ok url)
  /\ exists statements shown,
       trace r.2 = trace s ++ statements ++ shown
       /\ statements `prefix_of` url_statements path
       /\ statements <> []
       /\ ((shown = [] /\ statements = url_statements path)
           \/ (exists e,
                 shown = [EvStError (lit "Error generating URL for " ++ path
                                     ++ lit ": " ++ exn_str e)]
                 /\ r.1 = Ok (lit "#"))).
Proof.
  cbv zeta. rewrite get_document_url_run. unfold get_document_url_body.
  rewrite bind_run, call_run.
  destruct (sql_collect _ (world s)) as [[[]|e] w1]; cbn [fst snd].
  - rewrite bind_run, call_run. cbn [world session trace].
    destruct (sql_collect _ w1) as [[[]|e] w2]; cbn [fst snd].
    + cbv zeta. rewrite bind_run, call_run. cbn [world session trace].
      destruct (sql_to_pandas _ w2) as [[frame|e] w3]; cbn [fst snd].
      * destruct frame as [|url frame]; cbn [lookup list_lookup].
        -- unfold raise, reported. cbn [fst snd session trace].
           split; [done|]. split; [by eexists|].
           eexists (url_statements path), [EvStError _].
           rewrite <- !app_assoc. split; [done|]. split; [done|].
           split; [done|]. right. by eexists.
        -- rewrite mret_run. cbn [fst snd session trace].
           split; [done|]. split; [by eexists|].
           exists (url_statements path), [].
           rewrite <- !app_assoc. split; [done|]. split; [done|].
           split; [done|]. by left.
      * unfold reported. cbn [fst snd session trace].
        split; [done|]. split; [by eexists|].
        eexists (url_statements path), [EvStError _].
        rewrite <- !app_assoc. split; [done|]. split; [done|].
        split; [done|]. right. by eexists.
    + unfold reported. cbn [fst snd session trace]. split; [done|].
      split; [by eexists|].
      eexists (take 2 (url_statements path)), [EvStError _].
      rewrite <- !app_assoc. split; [done|].
      split; [by eexists [_]|]. split; [done|]. right. by eexists.
  - unfold reported. cbn [fst snd session trace]. split; [done|].
    split; [by eexists|].
    eexists (take 1 (url_statements path)), [EvStError _].
    rewrite <- !app_assoc. split; [done|].
    split; [by eexists [_; _]|]. split; [done|]. right. by eexists.
Qed.

(** X6. [get_document_url] leaves the session as it is and sends its
    statements in order: USE DATABASE, USE SCHEMA, then the SELECT of
    the presigned URL of the path. It stops at the first statement that
    raises: nothing is sent after it, one error is shown, whose text is
    "Error generating URL for ", the path, ": " and the text of the
    exception, and the result is "#". When all three statements
    answer, the result is the first URL of the answer and nothing is
    shown; when the answer is empty an error is shown and the result
    is "#". *)
Theorem get_document_url_calls (path : str) (s : app World) :
  let use_database := lit "USE DATABASE kritik_db" in
  let use_schema := lit "USE SCHEMA data" in
  let cmd :=
    lit "SELECT GET_PRESIGNED_URL(@kritik_db.data.STAGE_AWS, '" ++ path
    ++ lit "', 360) AS URL_LINK FROM DIRECTORY(@kritik_db.data.STAGE_AWS)" in
  let shown e :=
    EvStError (lit "Error generating URL for " ++ path ++ lit ": "
               ++ exn_str e) in
  let after w sent :=
    {| world := w; session := session s; trace := trace s ++ sent |} in
  get_document_url path s
  = match sql_collect use_database (world s) with
    | (Raise e, w1) => (Ok (lit "#"), after w1 [EvSql use_database; shown e])
    | (Ok _, w1) =>
        match sql_collect use_schema w1 with
        | (Raise e, w2) =>
            (Ok (lit "#"),
             after w2 [EvSql use_database; EvSql use_schema; shown e])
        | (Ok _, w2) =>
            match sql_to_pandas cmd w2 with
            | (Raise e, w3) =>
                (Ok (lit "#"),
                 after w3 [EvSql use_database; EvSql use_schema;
                           EvSqlToPandas cmd; shown e])
            | (Ok [], w3) =>
                (Ok (lit "#"),
                 after w3 [EvSql use_database; EvSql use_schema;
                           EvSqlToPandas cmd; shown (KeyError (lit "0"))])
            | (Ok (url :: _), w3) =>
                (Ok url,
                 after w3 [EvSql use_database; EvSql use_schema;
                           EvSqlToPandas cmd])
            end
        end
    end.
Proof.
  cbv zeta. rewrite get_document_url_run. unfold get_document_url_body.
  rewrite bind_run, call_run.
  destruct (sql_collect _ (world s)) as [[[]|e] w1]; cbn [fst snd].
  - rewrite bind_run, call_run. cbn [world session trace].
    destruct (sql_collect _ w1) as [[[]|e] w2]; cbn [fst snd].
    + cbv zeta. rewrite bind_run, call_run. cbn [world session trace].
      destruct (sql_to_pandas _ w2) as [[frame|e] w3]; cbn [fst snd].
      * destruct frame as [|url frame]; cbn [lookup list_lookup].
        -- unfold raise, reported. cbn [fst snd session trace world].
           by rewrite <- !app_assoc.
        -- rewrite mret_run. by rewrite <- !app_assoc.
      * unfold reported. cbn [fst snd session trace world].
        by rewrite <- !app_assoc.
    + unfold reported. cbn [fst snd session trace world].
      by rewrite <- !app_assoc.
  - unfold reported. cbn [fst snd session trace world].
    by rewrite <- !app_assoc.
Qed.

Lemma for_each_urls (paths : list str) s :
  exists documents s',
    for_each (fun path =>
                url_link ← get_document_url path;
                mret (path, url_link)) paths s
    = (Ok documents, s')
    /\ documents.*1 = paths
    /\ session s' = session s.
Proof.
  revert s. induction paths as [|path paths IH]; intros s.
  - by eexists _, _.
  - cbn [for_each]. rewrite !bind_run.
    pose proof (get_document_url_cases path s) as (Hs & [url Hu] & _).
    cbv zeta in Hs, Hu.
    destruct (get_document_url path s) as [r s1]. cbn [fst snd] in *.
    subst r. rewrite mret_run, bind_run.
    destruct (IH s1) as (documents & s' & -> & Hd & Hs').
    rewrite mret_run. eexists _, _. split; [done|].
    split; [by rewrite fmap_cons, Hd|congruence].
Qed.

Lemma update_related_documents_cases (relative_paths : gset str) s :
  let r := _update_related_documents relative_paths s in
  r.1 = Ok tt
  /\ (relative_paths = ∅ -> session r.2 = session s)
  /\ (relative_paths <> ∅ ->
      exists documents,
        session r.2 = set_related_documents documents (session s)
        /\ NoDup documents.*1
        /\ forall path, path ∈ documents.*1 <-> path ∈ relative_paths).
Proof.
  cbv zeta. unfold _update_related_documents.
  destruct (elements relative_paths) as [|p ps] eqn:He.
  - apply elements_empty_inv in He. apply leibniz_equiv in He.
    rewrite mret_run. by repeat split.
  - rewrite bind_run.
    destruct (for_each_urls (p :: ps) s) as (documents & s' & -> & Hd & Hs).
    unfold set_session. cbn [fst snd session]. split; [done|]. split.
    + intros ->. by rewrite elements_empty in He.
    + intros _. exists documents. rewrite Hs, Hd, <- He.
      split; [done|]. split; [apply NoDup_elements|].
      intros path. apply elem_of_elements.
Qed.

(** X7. Updating the related documents does not raise. With an empty
    set of paths the session is left as it is, so the documents of an
    earlier turn stay; with a non-empty one the related documents are
    replaced by a list that holds exactly the paths of the set, each of
    them once. *)
Theorem update_related_documents_effect (relative_paths : gset str) s :
  let r := _update_related_documents relative_paths s in
  r.1 = Ok tt
  /\ (relative_paths = ∅ -> session r.2 = session s)
  /\ (relative_paths <> ∅ ->
      exists documents,
        session r.2 = set_related_documents documents (session s)
        /\ NoDup documents.*1
        /\ forall path, path ∈ documents.*1 <-> path ∈ relative_paths).
Proof. apply update_related_documents_cases. Qed.
End Documents.

(** ** The transcript *)

Section Transcript.
Context {World : Type} `{Snowflake World} `{PromptBuilder} `{UnicodeData}.

Lemma process_user_input_quote_free question s response paths :
  (_process_user_input question s).1 = Ok (response, paths) ->
  quote_free response.
Proof.
  rewrite process_user_input_result.
  destruct (_create_prompt _ s) as [[[[prompt paths0] ctx]|e] s1]; [|done].
  destruct (cortex_complete _ prompt (world s1)) as [[answer|e] w]; [|done].
  intros [= <- _]. apply replace_drops_apostrophes.
Qed.

Lemma process_question_run question s :
  _process_question question s
  = match _process_user_input question
            {| world := world s;
               session := append_message (user_message question) (session s);
               trace := trace s |} with
    | (Raise e, s1) => (Raise e, s1)
    | (Ok (response, relative_paths), s1) =>
        _update_related_documents relative_paths
          {| world := world s1;
             session := append_message (assistant_message response)
                                       (session s1);
             trace := trace s1 |}
    end.
Proof.
  unfold _process_question. rewrite bind_run.
  unfold set_session at 1. cbv iota beta. rewrite bind_run.
  destruct (_process_user_input question _) as [[[response paths]|e] s1];
    [|done].
  rewrite bind_run. by unfold set_session at 1.
Qed.

(** The session after [_process_question], by the way the turn went. *)
Lemma process_question_cases question s :
  let turn := _process_question question s in
  let st0 := append_message (user_message question) (session s) in
  match turn.1 with
  | Raise _ => session turn.2 = st0
  | Ok _ =>
      exists response st1,
        resuggested st0 st1 /\ quote_free response
        /\ let st2 := append_message (assistant_message response) st1 in
           session turn.2 = st2
           \/ exists documents,
                session turn.2 = set_related_documents documents st2
  end.
Proof.
  cbv zeta. rewrite process_question_run.
  set (s0 := {| world := world s;
                session := append_message _ (session s);
                trace := trace s |}).
  pose proof (process_user_input_resuggested question s0) as [Hre Hfail].
  pose proof (process_user_input_quote_free question s0) as Hq.
  cbv zeta in Hre, Hfail.
  destruct (_process_user_input question s0) as [[[response paths]|e] s1];
    cbn [fst snd] in *; [|by apply (Hfail e)].
  match goal with
  | |- context [_update_related_documents paths ?s2] =>
      destruct (update_related_documents_cases paths s2) as (Hok & He & Hne);
      destruct (_update_related_documents paths s2) as [r s3]
  end.
  cbn [fst snd session] in *. subst r.
  exists response, (session s1). split; [done|]. split; [by eapply Hq|].
  destruct (decide (paths = ∅)) as [Hp|Hp].
  - left. by apply He.
  - right. destruct (Hne Hp) as (documents & Hd & _). by exists documents.
Qed.

(** X8. Processing a question appends it to the transcript as a
    message of role User. When the turn returns, the answer follows it
    as a message of role assistant and holds no apostrophe; when the
    turn raises, the session is the one before with the question
    appended, so the question stays in the transcript without an
    answer. *)
Theorem process_question_transcript question s :
  let turn := _process_question question s in
  let before := messages (session s) in
  match turn.1 with
  | Raise _ =>
      session turn.2 = append_message (user_message question) (session s)
  | Ok _ =>
      exists response,
        messages (session turn.2)
        = before ++ [user_message question; assistant_message response]
        /\ quote_free response
  end.
Proof.
  cbv zeta. pose proof (process_question_cases question s) as Hc.
  cbv zeta in Hc. destruct (_process_question question s).1; [|done].
  destruct Hc as (response & st1 & Hre & Hq & Hs).
  exists response. split; [|done].
  assert (Hm : messages st1 = messages (session s) ++ [user_message question]).
  { destruct Hre as [->|(new & _ & _ & ->)]; done. }
  destruct Hs as [->|[documents ->]]; cbn [messages set_related_documents
    append_message]; by rewrite Hm, <- app_assoc.
Qed.
End Transcript.

(** ** The window and the sanitizing *)

Lemma replace_char_filter (c : N) (s : str) :
  replace [c] [] s = filter (fun x => x <> c) s.
Proof.
  unfold replace. induction s as [|x s IH]; cbn [replace_from]; [done|].
  unfold starts_with. cbn [strip_prefix length Nat.pred].
  destruct (N.eqb_spec c x) as [<-|Hne].
  - rewrite filter_cons_False by (intros Hx; by apply Hx). by rewrite <- IH.
  - rewrite filter_cons_True by (intros ->; by apply Hne). by rewrite <- IH.
Qed.

(** X9. The sanitizing of the question, of the summary and of the
    response removes the apostrophes and nothing else: the result is
    the text without its apostrophes, in the same order; sanitizing it
    again changes nothing; and a text without apostrophe is left as it
    is. *)
Theorem sanitizing_removes_apostrophes_only (s : str) :
  let sanitized := replace [APOSTROPHE] [] s in
  sanitized = filter (fun x => x <> APOSTROPHE) s
  /\ sanitized `sublist_of` s
  /\ replace [APOSTROPHE] [] sanitized = sanitized
  /\ (APOSTROPHE ∉ s -> sanitized = s).
Proof.
  cbv zeta. rewrite !replace_char_filter.
  split; [done|]. split; [apply sublist_filter|]. split.
  - rewrite list_filter_filter. apply list_filter_iff. tauto.
  - intros Hn. induction s as [|x s IH]; [done|].
    apply not_elem_of_cons in Hn as [Hx Hs].
    rewrite filter_cons_True by done. by rewrite IH.
Qed.

(** ** What the extraction delivers *)

Section Questions.
Context `{UnicodeData}.

Lemma rmatch_ends_with dotall c r s g k res :
  ends_with_char c r = true ->
  rmatch dotall r s g k = Some res ->
  exists w s1 g1, s = w ++ c :: s1 /\ k s1 g1 = Some res.
Proof.
  revert s g k. induction r as [| cs | l | r1 IH1 r2 IH2 | r1 IH1 r2 IH2 | r1 IH1
                               | gr mn cs | i body IHb | r1 IH1 | ];
    intros s g k He; try done.
  - destruct cs as [a| | | | | |]; try done. cbn [ends_with_char] in He.
    apply N.eqb_eq in He as ->. cbn [rmatch cset_match].
    destruct s as [|x s]; [done|]. destruct (N.eqb_spec c x) as [<-|]; [|done].
    intros Hk. by exists [], s, g.
  - cbn [ends_with_char] in He. cbn [rmatch]. intros Hr.
    apply rmatch_suffix in Hr as (s1 & g1 & [pre ->] & Hr).
    apply IH2 in Hr as (w & s2 & g2 & -> & Hk); [|done].
    exists (pre ++ w), s2, g2. by rewrite <- app_assoc.
Qed.

Lemma rmatch_captures dotall c r s g k res :
  captures_to_char c r = true ->
  (forall s' g' res', k s' g' = Some res' -> res'.2 = g') ->
  rmatch dotall r s g k = Some res ->
  exists w, group 1 res.2 = w ++ [c].
Proof.
  revert s g. induction r as [| cs | l | r1 IH1 r2 IH2 | r1 IH1 r2 IH2 | r1 IH1
                               | gr mn cs | i body IHb | r1 IH1 | ];
    intros s g Hc Hk; try done.
  - cbn [captures_to_char] in Hc. cbn [rmatch]. intros Hr.
    apply rmatch_suffix in Hr as (s1 & g1 & _ & Hr). by eapply IH2.
  - cbn [captures_to_char] in Hc.
    destruct i as [|[|i]]; try done. cbn [rmatch]. intros Hr.
    apply (rmatch_ends_with _ c) in Hr as (w & s1 & g1 & -> & Hr); [|done].
    apply Hk in Hr. rewrite Hr. cbn [group Nat.eqb]. exists w.
    rewrite length_app. cbn [length].
    replace (length w + S (length s1) - length s1)%nat
      with (length (w ++ [c])) by (rewrite length_app; simpl; lia).
    by rewrite (cons_middle c w s1), app_assoc, take_app_length.
Qed.

Lemma search_from_captures dotall c r adv pre s m :
  captures_to_char c r = true ->
  search_from dotall r adv pre s = Some m ->
  exists w, group 1 (m_groups m) = w ++ [c].
Proof.
  intros Hc. revert adv pre.
  induction s as [|x s IH]; intros adv pre; cbn [search_from].
  - destruct (match_here dotall r adv []) as [[rest g]|] eqn:Hm; [|done].
    intros [= <-]. cbn [m_groups].
    apply (rmatch_captures _ c) in Hm; [done..|].
    intros s' g' res'. by destruct (_ && _); intros [= <-].
  - destruct (match_here dotall r adv (x :: s)) as [[rest g]|] eqn:Hm.
    + intros [= <-]. cbn [m_groups].
      apply (rmatch_captures _ c) in Hm; [done..|].
      intros s' g' res'. by destruct (_ && _); intros [= <-].
    + apply IH.
Qed.

Lemma findall_captures dotall c r s :
  captures_to_char c r = true ->
  Forall (fun t => exists w, t = w ++ [c]) (findall dotall r s).
Proof.
  intros Hc. unfold findall, finditer.
  generalize (2 * length s + 2)%nat false. intros fuel. revert s.
  induction fuel as [|fuel IH]; intros s adv; cbn [scan fst map];
    [constructor|].
  destruct (search_from dotall r adv [] s) as [m|] eqn:Hm; [|constructor].
  specialize (IH (m_rest m) (Nat.eqb (length (m_text m)) 0)).
  destruct (scan dotall fuel r _ (m_rest m)) as [ms tl].
  cbn [fst map] in *. constructor; [|done].
  by eapply search_from_captures.
Qed.

Lemma lstrip_suffix (s : str) : lstrip s `suffix_of` s.
Proof.
  induction s as [|c s IH]; cbn [lstrip]; [done|].
  destruct (is_space c); [by apply suffix_cons_r|done].
Qed.

Lemma lstrip_head (s : str) a :
  head (lstrip s) = Some a -> is_space a = false.
Proof.
  induction s as [|c s IH]; cbn [lstrip]; [done|].
  destruct (is_space c) eqn:Hc; [done|]. by intros [= <-].
Qed.

Lemma lstrip_keeps_last (w : str) c :
  is_space c = false -> exists w', lstrip (w ++ [c]) = w' ++ [c].
Proof.
  intros Hc. induction w as [|x w IH].
  - rewrite app_nil_l. cbn [lstrip]. rewrite Hc. by exists [].
  - rewrite <- app_comm_cons. cbn [lstrip].
    destruct (is_space x); [done|]. by exists (x :: w).
Qed.

Lemma strip_question (w : str) c :
  is_space c = false ->
  exists w', strip (w ++ [c]) = w' ++ [c]
             /\ forall a, head (w' ++ [c]) = Some a -> is_space a = false.
Proof.
  intros Hc. unfold strip, rstrip.
  pose proof (lstrip_head (w ++ [c])) as Hh.
  destruct (lstrip_keeps_last w c Hc) as [w' Hw]. rewrite Hw in *.
  exists w'. split; [|done].
  rewrite rev_app_distr. change (rev [c] ++ rev w') with (c :: rev w').
  cbn [lstrip]. rewrite Hc.
  change (c :: rev w') with (rev [c] ++ rev w').
  by rewrite <- rev_app_distr, rev_involutive.
Qed.

Lemma discovered_captured response context_data :
  Forall (fun t => exists w, t = w ++ [QUESTION_MARK])
         (discovered response context_data).
Proof.
  assert (Hb := fun s => findall_captures false QUESTION_MARK
                           bullet_pattern s eq_refl).
  assert (Hn := fun s => findall_captures false QUESTION_MARK
                           numbered_pattern s eq_refl).
  assert (Hs := fun s => findall_captures false QUESTION_MARK
                           sentence_pattern s eq_refl).
  assert (Hg := fun s => findall_captures false QUESTION_MARK
                           general_pattern s eq_refl).
  unfold discovered. rewrite !Forall_app. split; [|split; [|apply Hg]].
  - unfold discovered_in_sections. apply Forall_concat, Forall_fmap.
    apply Forall_forall. intros pattern _. cbn.
    destruct (search true pattern response); [|constructor].
    unfold section_candidates. by apply Forall_app.
  - unfold discovered_in_context.
    destruct (results context_data); [|constructor].
    apply Forall_concat, Forall_fmap, Forall_forall. intros pattern _. cbn.
    destruct (search true pattern _); [|constructor].
    unfold context_candidates.
    destruct (findall false bullet_pattern _) eqn:Hf; [apply Hs|].
    rewrite <- Hf. apply Hb.
Qed.

(** X10. Every suggested question that the extraction returns ends
    with a question mark and does not begin with white space. *)
Theorem suggestions_are_questions response context_data :
  Forall question_like (extract_related_questions response context_data).
Proof.
  destruct (extract_related_questions_accumulates response context_data)
    as (questions & (added & Hq & Hsub & _) & ->).
  simpl in Hq. subst questions. apply Forall_take.
  apply Forall_forall. intros q Hin.
  eapply elem_of_sublist in Hin; [|exact Hsub].
  apply list_elem_of_fmap in Hin as (cand & -> & Hc).
  pose proof (discovered_captured response context_data) as Hd.
  rewrite Forall_forall in Hd. destruct (Hd cand Hc) as [w ->].
  destruct (strip_question w QUESTION_MARK eq_refl) as (w' & -> & Hh).
  split; [by exists w'|done].
Qed.
End Questions.

(** ** Video links inside a text *)

Section LinksInText.
Context `{UnicodeData}.

Lemma starts_with_app (p a b : str) :
  starts_with p (a ++ b) = true ->
  starts_with p a = true
  \/ exists p2, p = a ++ p2 /\ p2 <> [] /\ starts_with p2 b = true.
Proof.
  unfold starts_with. revert a. induction p as [|c p IH]; intros a.
  - intros _. by left.
  - destruct a as [|x a].
    + intros Hs. right. exists (c :: p). by rewrite app_nil_l in *.
    + rewrite <- app_comm_cons. cbn [strip_prefix].
      destruct (N.eqb_spec c x) as [<-|]; [|done]. intros Hs.
      destruct (IH a Hs) as [Ha|(p2 & -> & Hne & Hp)]; [by left|right].
      by exists p2.
Qed.

Lemma contains_suffix (needle a hay : str) :
  a `suffix_of` hay -> starts_with needle a = true ->
  contains needle hay = true.
Proof.
  intros [pre ->] Hs. induction pre as [|x pre IH].
  - rewrite app_nil_l. destruct a; cbn [contains]; by rewrite Hs.
  - rewrite <- app_comm_cons. cbn [contains]. rewrite IH. apply orb_true_r.
Qed.

Lemma header_not_straddled (pre rest : str) x t :
  contains (lit "Video Guide:") pre = false ->
  x :: t `suffix_of` pre ->
  starts_with (lit "Video Guide:") ((x :: t) ++ lit "Video Guide:" ++ rest)
  = false.
Proof.
  intros Hc Hsuf.
  destruct (starts_with _ ((x :: t) ++ _)) eqn:Hs; [exfalso|done].
  apply starts_with_app in Hs as [Hs|(p2 & Hp & Hne & Hs)].
  - by rewrite (contains_suffix _ _ _ Hsuf Hs) in Hc.
  - assert (H86 : 86 ∉ p2).
    { intros Hin. assert (Hin' : 86 ∈ t ++ p2) by (apply elem_of_app; by right).
      injection Hp as _ Hp. rewrite <- Hp in Hin'. revert Hin'.
      not_in_literal. }
    destruct p2 as [|c p2]; [done|].
    unfold starts_with in Hs.
    change (lit "Video Guide:" ++ rest)
      with (86 :: lit "ideo Guide:" ++ rest) in Hs.
    cbn [strip_prefix] in Hs. destruct (N.eqb_spec c 86) as [->|]; [|done].
    apply H86. by left.
Qed.

Lemma search_video_link adv pre0 (pre title url post : str) :
  contains (lit "Video Guide:") pre = false ->
  Forall (fun x => x <> LF) title -> 93 ∉ title ->
  Forall (fun x => x <> LF) url -> 41 ∉ url ->
  (adv = true -> pre <> []) ->
  search_from false video_pattern adv pre0 (pre ++ raw_link title url ++ post)
  = Some {| m_pre := rev pre0 ++ pre;
            m_text := raw_link title url;
            m_groups := [(2%nat, url); (1%nat, title)];
            m_rest := post |}.
Proof.
  intros Hc Ht1 Ht2 Hu1 Hu2. revert adv pre0.
  induction pre as [|x pre IH]; intros adv pre0 Hadv.
  - rewrite app_nil_l, app_nil_r.
    assert (Hm : match_here false video_pattern adv (raw_link title url ++ post)
                 = Some (post, [(2%nat, url); (1%nat, title)])).
    { destruct adv; [by specialize (Hadv eq_refl)|].
      by apply video_pattern_matches. }
    rewrite (search_from_here _ _ _ _ _ _ Hm). f_equal. f_equal.
    apply take_consumed.
  - rewrite <- app_comm_cons. cbn [search_from].
    rewrite video_pattern_needs_header.
    2:{ rewrite app_comm_cons. unfold raw_link.
        change (lit "Video Guide: [") with (lit "Video Guide:" ++ lit " [").
        rewrite <- !app_assoc. by apply (header_not_straddled (x :: pre)). }
    cbn [contains] in Hc. apply orb_false_elim in Hc as [_ Hc].
    rewrite (IH Hc false (x :: pre0)) by done.
    cbn [rev]. by rewrite <- app_assoc.
Qed.

(** X11. The first video link of a response is rewritten where it
    stands: the text before it, which does not hold "Video Guide:", is
    kept; the link gets the glyph before its title and its URL settled;
    and the text after it is processed as it would be on its own. This
    holds for a link whose title and URL stay on one line, the title
    without closing bracket and the URL without closing parenthesis. *)
Theorem video_link_in_text (pre title url post : str) :
  contains (lit "Video Guide:") pre = false ->
  Forall (fun x => x <> LF) title -> 93 ∉ title ->
  Forall (fun x => x <> LF) url -> 41 ∉ url ->
  process_video_links (pre ++ raw_link title url ++ post)
  = pre ++ video_link title (rewritten_url title url)
    ++ process_video_links post.
Proof.
  intros Hc Ht1 Ht2 Hu1 Hu2.
  unfold process_video_links, sub, finditer.
  set (n := length (pre ++ raw_link title url ++ post)).
  assert (Hn : n = length (pre ++ raw_link title url ++ post)) by done.
  replace (2 * n + 2)%nat with (S (2 * n + 1)) by lia.
  cbn [scan].
  rewrite (search_video_link false [] pre title url post) by done.
  cbn [m_rest m_text].
  assert (Hlen : (0 < length (raw_link title url))%nat)
    by (unfold raw_link; rewrite length_app; simpl; lia).
  replace (Nat.eqb (length (raw_link title url)) 0) with false
    by (symmetry; apply Nat.eqb_neq; lia).
  rewrite (scan_fuel false video_pattern _ (2 * length post + 2) false post).
  2,3: unfold rounds; rewrite ?length_app in Hn; lia.
  destruct (scan false (2 * length post + 2) video_pattern false post)
    as [ms tl].
  cbn [map concat m_pre rev]. rewrite app_nil_l, <- !app_assoc.
  f_equal. by rewrite (replace_video_link_spec _ title url).
Qed.

(** X12. A response that does not hold "Video Guide:" is returned
    unchanged by [process_video_links]. *)
Theorem video_free_text_unchanged (s : str) :
  contains (lit "Video Guide:") s = false -> process_video_links s = s.
Proof. apply process_video_links_no_link. Qed.
End LinksInText.

(** ** The display text *)

Section Display.
Context `{UnicodeData}.

Lemma rep_greedy_full p min s k r :
  (min <= run_length p s)%nat -> k (drop (run_length p s) s) = Some r ->
  rep_greedy p min s k = Some r.
Proof.
  revert min. induction s as [|c s IH]; intros min; cbn [run_length rep_greedy].
  - intros Hm Hk. by destruct min; [|lia].
  - destruct (p c).
    + intros Hm Hk. by rewrite (IH (Nat.pred min)) by (done || lia).
    + intros Hm Hk. by destruct min; [|lia].
Qed.

Lemma rep_greedy_short p min s k :
  (run_length p s < min)%nat -> rep_greedy p min s k = None.
Proof.
  revert min. induction s as [|c s IH]; intros min; cbn [run_length rep_greedy].
  - intros Hm. by destruct min; [lia|].
  - destruct (p c).
    + intros Hm. rewrite (IH (Nat.pred min)) by lia. by destruct min; [lia|].
    + intros Hm. by destruct min; [lia|].
Qed.

Lemma run_le p (s : str) : (run_length p s <= length s)%nat.
Proof.
  induction s as [|c s IH]; cbn [run_length length]; [lia|]. destruct (p c); lia.
Qed.

Lemma head_after_run (s : str) : head (drop (run_length is_LF s) s) <> Some LF.
Proof.
  induction s as [|c s IH]; cbn [run_length]; [done|].
  unfold is_LF at 1. destruct (N.eqb_spec LF c) as [<-|Hne]; [done|].
  cbn. congruence.
Qed.

Lemma starts_with_blank_lines (s : str) :
  starts_with blank_lines s = (3 <=? run_length is_LF s)%nat.
Proof.
  unfold starts_with, blank_lines.
  destruct s as [|a [|b [|c s]]]; cbn [strip_prefix run_length]; unfold is_LF;
    repeat (destruct (LF =? _)); reflexivity.
Qed.

Lemma match_here_newlines adv (s : str) :
  match_here false newlines_pattern adv s
  = if (3 <=? run_length is_LF s)%nat
    then Some (drop (run_length is_LF s) s, [])
    else None.
Proof.
  unfold match_here, newlines_pattern. cbn [rmatch].
  change (cset_match false (CChar LF)) with is_LF.
  destruct (Nat.leb_spec 3 (run_length is_LF s)) as [Hle|Hlt].
  - apply rep_greedy_full; [done|].
    replace (length (drop (run_length is_LF s) s) =? length s)%nat with false.
    + by rewrite andb_false_r.
    + symmetry. apply Nat.eqb_neq. pose proof (run_le is_LF s).
      rewrite length_drop. lia.
  - by apply rep_greedy_short.
Qed.

(** The text before the first run of three newlines takes two newlines
    after it without making a run of three. *)
Lemma blank_lines_prefix_independent c (pre a b : str) :
  starts_with blank_lines (c :: pre ++ LF :: LF :: a)
  = starts_with blank_lines (c :: pre ++ LF :: LF :: b).
Proof.
  unfold starts_with, blank_lines.
  destruct pre as [|x [|y pre]];
    rewrite <- ?app_comm_cons, ?app_nil_l; cbn [strip_prefix];
    repeat (destruct (LF =? _)); reflexivity.
Qed.

Lemma search_newlines (s : str) adv pre0 :
  match search_from false newlines_pattern adv pre0 s with
  | None => contains blank_lines s = false
  | Some m =>
      exists pre tail,
        s = pre ++ LF :: LF :: LF :: tail
        /\ m_pre m = rev pre0 ++ pre
        /\ head (m_rest m) <> Some LF
        /\ length (m_text m) <> 0%nat
        /\ forall X,
             contains blank_lines X = false -> head X <> Some LF ->
             contains blank_lines (pre ++ LF :: LF :: X) = false
  end.
Proof.
  revert adv pre0. induction s as [|c s IH]; intros adv pre0.
  - cbn [search_from]. by rewrite match_here_newlines.
  - cbn [search_from]. rewrite match_here_newlines.
    destruct (Nat.leb_spec 3 (run_length is_LF (c :: s))) as [Hle|Hlt].
    + exists [].
      assert (Hs : exists tail, c :: s = LF :: LF :: LF :: tail).
      { pose proof (starts_with_blank_lines (c :: s)) as Hb.
        rewrite (proj2 (Nat.leb_le _ _) Hle) in Hb.
        unfold starts_with in Hb.
        destruct (strip_prefix blank_lines (c :: s)) as [tail|] eqn:Hp;
          [|done].
        exists tail. revert Hp. unfold blank_lines.
        destruct s as [|b [|d s]]; cbn [strip_prefix];
          repeat (match goal with
                  | |- context [LF =? ?x] =>
                      destruct (N.eqb_spec LF x) as [<-|]; [|done]
                  end); try done.
        by intros [= ->]. }
      destruct Hs as [tail Hs]. exists tail. cbn [m_pre m_rest m_text].
      split; [by rewrite app_nil_l|]. split; [by rewrite app_nil_r|].
      split; [apply head_after_run|]. split.
      * rewrite length_take, length_drop.
        pose proof (run_le is_LF (c :: s)). lia.
      * intros X HX Hh. rewrite app_nil_l. cbn [contains].
        rewrite HX, orb_false_r.
        unfold starts_with, blank_lines. cbn [strip_prefix].
        change (LF =? LF) with true. cbv iota.
        destruct X as [|x X]; [done|]. cbn [strip_prefix].
        destruct (N.eqb_spec LF x) as [<-|]; [by exfalso; apply Hh|].
        cbn [strip_prefix]. replace (LF =? x) with false
          by (symmetry; by apply N.eqb_neq). done.
    + specialize (IH false (c :: pre0)).
      assert (Hb : starts_with blank_lines (c :: s) = false).
      { rewrite starts_with_blank_lines. apply Nat.leb_gt. lia. }
      destruct (search_from false newlines_pattern false (c :: pre0) s)
        as [m|].
      * destruct IH as (pre & tail & -> & Hp & Hr & Ht & HX).
        exists (c :: pre), tail. split; [done|].
        split; [rewrite Hp; cbn [rev]; by rewrite <- app_assoc|].
        split; [done|]. split; [done|].
        intros X HX1 HX2. rewrite <- app_comm_cons. cbn [contains].
        rewrite (HX X HX1 HX2), orb_false_r.
        by rewrite (blank_lines_prefix_independent c pre X (LF :: tail)).
      * cbn [contains]. by rewrite Hb, IH.
Qed.

Lemma newlines_collapsed n (s : str) :
  (rounds false s < n)%nat ->
  let found := scan false n newlines_pattern false s in
  let out := concat (map (fun m => m_pre m ++ [LF; LF]) found.1) ++ found.2 in
  contains blank_lines out = false /\ head out = head s.
Proof.
  revert s. induction n as [|n IH]; intros s Hn; [lia|]. cbn [scan].
  pose proof (search_newlines s false []) as Hs.
  pose proof (search_from_rest false newlines_pattern false [] s) as Hr.
  destruct (search_from false newlines_pattern false [] s) as [m|];
    [|by cbn].
  destruct Hs as (pre & tail & Hs & Hp & Hh & Ht & HX).
  destruct (Hr m eq_refl) as (_ & _ & Hlt). specialize (Hlt Ht).
  replace (Nat.eqb (length (m_text m)) 0) with false
    by (symmetry; by apply Nat.eqb_neq).
  specialize (IH (m_rest m)). cbv zeta in IH.
  destruct (scan false n newlines_pattern false (m_rest m)) as [ms tl].
  cbn [fst snd map concat] in *. rewrite Hp, app_nil_l.
  destruct IH as [IH1 IH2]; [unfold rounds in *; lia|].
  rewrite <- !app_assoc. change ([LF; LF] ++ ?x) with (LF :: LF :: x).
  split.
  - apply HX; [done|]. by rewrite IH2.
  - rewrite Hs. by destruct pre.
Qed.

Lemma strip_prefix_spec (p s r : str) :
  strip_prefix p s = Some r -> s = p ++ r.
Proof.
  revert s. induction p as [|a p IH]; intros s; cbn [strip_prefix].
  - by intros [= ->].
  - destruct s as [|c s]; [done|].
    destruct (N.eqb_spec a c) as [<-|]; [|done].
    intros Hs. by rewrite (IH s Hs).
Qed.

Lemma contains_spec (needle hay : str) :
  contains needle hay = true <-> exists a b, hay = a ++ needle ++ b.
Proof.
  split.
  - induction hay as [|c hay IH]; cbn [contains].
    + rewrite orb_false_r. unfold starts_with.
      destruct (strip_prefix needle []) as [r|] eqn:Hp; [|done].
      intros _. exists [], r. rewrite app_nil_l. by apply strip_prefix_spec.
    + intros Hc. apply orb_true_iff in Hc as [Hc|Hc].
      * unfold starts_with in Hc.
        destruct (strip_prefix needle (c :: hay)) as [r|] eqn:Hp; [|done].
        exists [], r. rewrite app_nil_l. by apply strip_prefix_spec.
      * destruct (IH Hc) as (a & b & ->). by exists (c :: a), b.
  - intros (a & b & ->). induction a as [|c a IH].
    + rewrite app_nil_l.
      assert (Hs : starts_with needle (needle ++ b) = true)
        by (unfold starts_with; by rewrite strip_prefix_app).
      destruct (needle ++ b); cbn [contains]; by rewrite Hs.
    + rewrite <- app_comm_cons. cbn [contains]. rewrite IH.
      apply orb_true_r.
Qed.

Lemma contains_infix (needle pre hay post : str) :
  contains needle (pre ++ hay ++ post) = false ->
  contains needle hay = false.
Proof.
  intros Hc. destruct (contains needle hay) eqn:Hh; [|done].
  apply contains_spec in Hh as (a & b & ->).
  assert (Ht : contains needle (pre ++ (a ++ needle ++ b) ++ post) = true).
  { apply contains_spec. exists (pre ++ a), (b ++ post).
    by rewrite <- !app_assoc. }
  by rewrite Ht in Hc.
Qed.

Lemma strip_infix (s : str) : exists pre post, s = pre ++ strip s ++ post.
Proof.
  unfold strip, rstrip.
  destruct (lstrip_suffix s) as [pre Hs].
  destruct (lstrip_suffix (rev (lstrip s))) as [q Hq].
  exists pre, (rev q). rewrite Hs at 1. f_equal.
  rewrite <- rev_app_distr, <- Hq. by rewrite rev_involutive.
Qed.

Lemma strip_ends (s : str) :
  (forall a, head (strip s) = Some a -> is_space a = false)
  /\ (forall a, last (strip s) = Some a -> is_space a = false).
Proof.
  unfold strip, rstrip. split; intros a.
  - destruct (lstrip_suffix (rev (lstrip s))) as [q Hq].
    pose proof (lstrip_head s) as Hh.
    apply (f_equal (@rev N)) in Hq.
    rewrite rev_involutive, rev_app_distr in Hq.
    rewrite Hq in Hh.
    destruct (rev (lstrip (rev (lstrip s)))) as [|x l]; [done|].
    intros [= ->]. by apply Hh.
  - destruct (lstrip (rev (lstrip s))) as [|x l] eqn:Hl; [done|].
    cbn [rev]. rewrite last_snoc. intros [= <-].
    apply (lstrip_head (rev (lstrip s))). by rewrite Hl.
Qed.

(** X13. The text shown for an assistant message never holds three
    newlines in a row, and neither begins nor ends with white space. *)
Theorem display_text_tidy (content : str) :
  let shown := clean_assistant_response content in
  contains blank_lines shown = false
  /\ (forall a, head shown = Some a -> is_space a = false)
  /\ (forall a, last shown = Some a -> is_space a = false).
Proof.
  cbv zeta. unfold clean_assistant_response.
  set (cleaned := fold_left _ patterns_to_remove content).
  split; [|apply strip_ends].
  destruct (strip_infix
              (sub false (Rep true 3 (CChar LF)) (fun _ => [LF; LF]) cleaned))
    as (pre & post & Hs).
  apply (contains_infix _ pre _ post). rewrite <- Hs.
  unfold sub, finditer.
  pose proof (newlines_collapsed (2 * length cleaned + 2) cleaned) as Hc.
  cbv zeta in Hc. change (Rep true 3 (CChar LF)) with newlines_pattern.
  destruct (scan false _ newlines_pattern false cleaned) as [ms tl].
  apply Hc. unfold rounds. lia.
Qed.
End Display.

(** ** The hidden sections *)

Section Hidden.
Context `{UnicodeData}.

Lemma search_from_parts dotall r adv pre0 (s : str) m :
  search_from dotall r adv pre0 s = Some m ->
  rev pre0 ++ s = m_pre m ++ m_text m ++ m_rest m.
Proof.
  revert adv pre0. induction s as [|c s IH]; intros adv pre0; cbn [search_from].
  - destruct (match_here dotall r adv []) as [[rest g]|] eqn:Hm; [|done].
    intros [= <-]. cbn [m_pre m_text m_rest].
    apply match_here_rest in Hm as [[a Ha] _].
    symmetry in Ha. apply app_nil in Ha as [-> ->]. done.
  - destruct (match_here dotall r adv (c :: s)) as [[rest g]|] eqn:Hm.
    + intros [= <-]. cbn [m_pre m_text m_rest].
      apply match_here_rest in Hm as [[a Ha] _]. f_equal.
      change (S (length s)) with (length (c :: s)).
      rewrite Ha. by rewrite take_consumed.
    + intros Hs. apply IH in Hs. rewrite <- Hs. cbn [rev].
      by rewrite <- app_assoc.
Qed.

Lemma strip_prefix_head_ne (x : str) c (s : str) :
  x <> [] -> head x <> Some c -> strip_prefix x (c :: s) = None.
Proof.
  destruct x as [|a x]; [done|]. intros _ Hh. cbn [strip_prefix].
  destruct (N.eqb_spec a c) as [->|]; [by exfalso; apply Hh|done].
Qed.

Lemma head_not_LF (x : str) : LF ∉ x -> head x <> Some LF.
Proof. destruct x as [|a x]; [done|]. intros Hn [= ->]. apply Hn. by left. Qed.

Lemma contains_cons_LF (x Y : str) :
  x <> [] -> LF ∉ x -> contains x (LF :: Y) = contains x Y.
Proof.
  intros Hne HLF. cbn [contains]. unfold starts_with.
  by rewrite strip_prefix_head_ne by (by try apply head_not_LF).
Qed.

(** A text without newline does not appear where a piece is put before
    a newline. *)
Lemma contains_junction (x pre Y : str) :
  x <> [] -> LF ∉ x ->
  contains x pre = false -> contains x Y = false ->
  Y = [] \/ head Y = Some LF ->
  contains x (pre ++ Y) = false.
Proof.
  intros Hne HLF Hp HY HhY.
  destruct (contains x (pre ++ Y)) eqn:Hc; [|done]. exfalso.
  apply contains_spec in Hc as (a & b & Hc).
  assert (Hin : forall u v, pre = u ++ x ++ v -> False).
  { intros u v Hu.
    assert (contains x pre = true) by (apply contains_spec; eauto).
    congruence. }
  destruct HhY as [->|Hh].
  { rewrite app_nil_r in Hc. eauto. }
  destruct Y as [|y Y]; [done|]. injection Hh as ->.
  apply app_eq_inv in Hc as [(k & Hk1 & Hk2)|(k & Hk1 & Hk2)].
  - apply app_eq_inv in Hk2 as [(k' & Hx & HY')|(k' & Hk & Hb)].
    + destruct k' as [|z k'].
      * rewrite app_nil_r in Hx. subst k.
        apply (Hin a []). by rewrite app_nil_r.
      * injection HY' as <- _. apply HLF. rewrite Hx.
        apply elem_of_app. right. by left.
    + subst k. by apply (Hin a k').
  - assert (contains x (LF :: Y) = true) by (apply contains_spec; eauto).
    congruence.
Qed.

Lemma starts_with_blank (s : str) :
  starts_with [LF; LF] s = true -> exists t, s = LF :: LF :: t.
Proof.
  unfold starts_with.
  destruct (strip_prefix [LF; LF] s) as [t|] eqn:Hp; [|done].
  intros _. exists t. by apply strip_prefix_spec in Hp.
Qed.

Lemma section_rest_parts (s : str) :
  (exists mid, s = mid ++ section_rest s)
  /\ (section_rest s = [] \/ exists t, section_rest s = LF :: LF :: t).
Proof.
  induction s as [|c s [[mid IH1] IH2]]; [split; [by exists []|by left]|].
  cbn [section_rest].
  destruct (starts_with [LF; LF] (c :: s)) eqn:Hb.
  - split; [by exists []|]. right. by apply starts_with_blank.
  - split; [|done]. exists (c :: mid). by rewrite <- app_comm_cons, <- IH1.
Qed.

(** [.*?(?=\n\n|\Z)] after a header: up to the first blank line. *)
Lemma lazy_section (s : str) g (k : cont) :
  (forall s', s' `suffix_of` s -> k s' g = Some (s', g)) ->
  rmatch true (Seq (Rep false 0 CAny) (Look blank_line_or_end)) s g k
  = Some (section_rest s, g).
Proof.
  unfold blank_line_or_end. cbn [rmatch].
  induction s as [|c s IH]; intros Hk.
  - cbn [rep_lazy strip_prefix section_rest]. by apply Hk.
  - cbn [rep_lazy section_rest]. unfold starts_with.
    destruct (strip_prefix [LF; LF] (c :: s)) as [t|].
    + by rewrite Hk.
    + cbn [cset_match orb]. apply IH. intros s' Hs. apply Hk.
      by apply suffix_cons_r.
Qed.

Lemma header_here_parts (h s r : str) :
  h <> [] -> header_here h s = Some r ->
  exists p, s = p ++ r /\ p <> [].
Proof.
  intros Hne. unfold header_here.
  destruct (strip_prefix (LF :: h) s) as [r1|] eqn:H1.
  { intros [= <-]. apply strip_prefix_spec in H1. by exists (LF :: h). }
  destruct (strip_prefix (CR :: LF :: h) s) as [r2|] eqn:H2.
  { intros [= <-]. apply strip_prefix_spec in H2. by exists (CR :: LF :: h). }
  intros H3. apply strip_prefix_spec in H3. by exists h.
Qed.

Lemma header_here_none (h s : str) :
  header_here h s = None -> starts_with h s = false.
Proof.
  unfold header_here, starts_with.
  destruct (strip_prefix (LF :: h) s); [done|].
  destruct (strip_prefix (CR :: LF :: h) s); [done|]. by intros ->.
Qed.

Lemma header_here_blank (h t : str) :
  plain_header h -> header_here h (LF :: LF :: t) = None.
Proof.
  intros (Hne & HLF & _). unfold header_here.
  cbn [strip_prefix]. change (LF =? LF) with true. cbv iota.
  change (CR =? LF) with false. cbv iota.
  by rewrite !strip_prefix_head_ne by (by try apply head_not_LF).
Qed.

Lemma match_here_removal header adv (s : str) :
  plain_header (lit header) ->
  match_here true (removal_pattern header) adv s
  = match header_here (lit header) s with
    | Some r => Some (section_rest r, [])
    | None => None
    end.
Proof.
  intros (Hne & HLF & HCR). unfold match_here, removal_pattern.
  remember (lit header) as h eqn:Hh. cbn [rseq].
  remember (Seq (Rep false 0 CAny) (Look blank_line_or_end)) as body eqn:Hb.
  set (k := fun (s' : str) (g' : groups) =>
              if adv && (length s' =? length s)%nat then None
              else Some (s', g')).
  assert (Hk : forall p r, s = p ++ r -> p <> [] ->
               rmatch true body r [] k = Some (section_rest r, [])).
  { intros p r Hs Hp. subst body. apply lazy_section.
    intros s' [q Hq]. unfold k.
    replace (length s' =? length s)%nat with false; [by rewrite andb_false_r|].
    symmetry. apply Nat.eqb_neq. rewrite Hs, Hq, !length_app.
    destruct p; [done|]. cbn [length]. lia. }
  cbn [rmatch]. unfold header_here.
  destruct s as [|c s]; cbn [strip_prefix].
  { destruct h; [done|]. done. }
  destruct (N.eqb_spec LF c) as [<-|HL].
  - destruct (strip_prefix h s) as [r|] eqn:Hr.
    + apply strip_prefix_spec in Hr.
      by rewrite (Hk (LF :: h) r) by (by rewrite ?Hr).
    + change (CR =? LF) with false. cbv iota.
      by rewrite !strip_prefix_head_ne by (by try apply head_not_LF).
  - destruct (N.eqb_spec CR c) as [<-|HC].
    + rewrite (strip_prefix_head_ne h CR) by done.
      destruct s as [|d s]; [done|].
      destruct (N.eqb_spec LF d) as [<-|HL2]; [|done].
      destruct (strip_prefix h s) as [r|] eqn:Hr; [|done].
      apply strip_prefix_spec in Hr.
      by rewrite (Hk (CR :: LF :: h) r) by (by rewrite ?Hr).
    + destruct (strip_prefix h (c :: s)) as [r|] eqn:Hr; [|done].
      apply strip_prefix_spec in Hr.
      by rewrite (Hk h r) by done.
Qed.

Lemma starts_with_prefix (p a b : str) :
  starts_with p a = true -> starts_with p (a ++ b) = true.
Proof.
  unfold starts_with.
  destruct (strip_prefix p a) as [r|] eqn:Hp; [|done]. intros _.
  apply strip_prefix_spec in Hp as ->.
  by rewrite <- app_assoc, strip_prefix_app.
Qed.

(** The leftmost section with the header: no header before it, and
    after it the end of the text or a blank line. *)
Lemma search_removal header adv pre0 (s : str) :
  plain_header (lit header) ->
  match search_from true (removal_pattern header) adv pre0 s with
  | None => contains (lit header) s = false
  | Some m =>
      exists pre,
        m_pre m = rev pre0 ++ pre
        /\ s = pre ++ m_text m ++ m_rest m
        /\ length (m_text m) <> 0%nat
        /\ contains (lit header) pre = false
        /\ (m_rest m = [] \/ exists t, m_rest m = LF :: LF :: t)
        /\ (forall t, s = LF :: LF :: t -> head pre = Some LF)
  end.
Proof.
  intros Hh. pose proof Hh as (Hne & HLF & HCR).
  assert (Hnil : contains (lit header) [] = false).
  { cbn [contains]. unfold starts_with. by destruct (lit header). }
  revert adv pre0. induction s as [|c s IH]; intros adv pre0.
  - cbn [search_from]. rewrite match_here_removal by done.
    unfold header_here. cbn [strip_prefix]. by destruct (lit header).
  - cbn [search_from]. rewrite match_here_removal by done.
    destruct (header_here (lit header) (c :: s)) as [r|] eqn:Hr.
    + exists []. cbn [m_pre m_text m_rest].
      destruct (header_here_parts _ _ _ Hne Hr) as (p & Hp & Hpn).
      destruct (section_rest_parts r) as [[mid Hmid] Hend].
      assert (Hs : c :: s = (p ++ mid) ++ section_rest r)
        by (by rewrite <- app_assoc, <- Hmid).
      change (S (length s)) with (length (c :: s)).
      assert (Htk : take (length (c :: s) - length (section_rest r)) (c :: s)
                    = p ++ mid)
        by (rewrite Hs; apply take_consumed).
      rewrite Htk.
      split; [by rewrite app_nil_r|]. split; [by rewrite app_nil_l|].
      split; [rewrite length_app; destruct p; [done|cbn [length]; lia]|].
      split; [done|]. split; [done|].
      intros t Ht. rewrite Ht in Hr. by rewrite header_here_blank in Hr.
    + specialize (IH false (c :: pre0)).
      apply header_here_none in Hr.
      destruct (search_from true (removal_pattern header) false
                  (c :: pre0) s) as [m|].
      * destruct IH as (pre & Hp & Hs & Ht & Hc & Hend & _).
        exists (c :: pre).
        split; [rewrite Hp; cbn [rev]; by rewrite <- app_assoc|].
        split; [by rewrite <- app_comm_cons, <- Hs|].
        split; [done|]. split; [|split; [done|]].
        -- cbn [contains]. rewrite Hc, orb_false_r.
           destruct (starts_with (lit header) (c :: pre)) eqn:Hsw; [|done].
           apply (starts_with_prefix _ _ (m_text m ++ m_rest m)) in Hsw.
           rewrite <- app_comm_cons, <- Hs in Hsw. congruence.
        -- by intros t [= -> _].
      * cbn [contains]. by rewrite Hr, IH.
Qed.

(** One removal pass: its header is gone, and a text without newline
    that was not there is not there afterwards. *)
Lemma removal_pass header n (s x : str) :
  plain_header (lit header) ->
  (rounds false s < n)%nat ->
  x <> [] -> LF ∉ x ->
  x = lit header \/ contains x s = false ->
  let found := scan true n (removal_pattern header) false s in
  let out := concat (map (fun m => m_pre m ++ (fun _ => []) m) found.1)
             ++ found.2 in
  contains x out = false
  /\ (s = [] -> out = [])
  /\ (forall t, s = LF :: LF :: t -> head out = Some LF).
Proof.
  intros Hh Hn Hne HLF. revert s Hn.
  induction n as [|n IH]; intros s Hn Hx; [lia|]. cbn [scan].
  pose proof (search_removal header false [] s Hh) as Hs.
  pose proof (search_from_rest true (removal_pattern header) false [] s) as Hr.
  destruct (search_from true (removal_pattern header) false [] s) as [m|].
  - destruct Hs as (pre & Hp & Hs & Ht & Hc & Hend & Hhead).
    destruct (Hr m eq_refl) as (_ & _ & Hlt). specialize (Hlt Ht).
    replace (Nat.eqb (length (m_text m)) 0) with false
      by (symmetry; by apply Nat.eqb_neq).
    assert (Hx' : x = lit header \/ contains x (m_rest m) = false).
    { destruct Hx as [Hx|Hx]; [by left|right].
      apply (contains_infix _ (pre ++ m_text m) _ []).
      by rewrite app_nil_r, <- app_assoc, <- Hs. }
    assert (Hxp : contains x pre = false).
    { destruct Hx as [->|Hx]; [done|].
      apply (contains_infix _ [] _ (m_text m ++ m_rest m)).
      by rewrite app_nil_l, <- Hs. }
    specialize (IH (m_rest m)). cbv zeta in IH.
    destruct (scan true n (removal_pattern header) false (m_rest m))
      as [ms tl].
    destruct IH as (IHc & IHn & IHh); [unfold rounds in *; lia|done|].
    cbn [fst snd map concat] in *. rewrite app_nil_l in Hp.
    rewrite Hp, app_nil_r, <- app_assoc.
    split; [|split].
    + apply contains_junction; try done.
      destruct Hend as [He|[t He]]; [left; by apply IHn|right; by eapply IHh].
    + intros ->. symmetry in Hs. apply app_nil in Hs as [_ Hs].
      apply app_nil in Hs as [Hs _]. by rewrite Hs in Ht.
    + intros t Hst. specialize (Hhead t Hst).
      destruct pre; [done|]. by rewrite <- app_comm_cons.
  - cbn [fst snd map concat]. rewrite app_nil_l.
    split; [by destruct Hx as [->|Hx]|]. split; [done|]. by intros t ->.
Qed.

Lemma sub_removal header (s x : str) :
  plain_header (lit header) ->
  x <> [] -> LF ∉ x ->
  x = lit header \/ contains x s = false ->
  contains x (sub true (removal_pattern header) (fun _ => []) s) = false.
Proof.
  intros Hh Hne HLF Hx. unfold sub, finditer.
  pose proof (removal_pass header (2 * length s + 2) s x Hh) as Hp.
  cbv zeta in Hp.
  destruct (scan true _ (removal_pattern header) false s) as [ms tl].
  apply Hp; try done. unfold rounds. lia.
Qed.

Lemma removal_passes (headers : list string) (s x : str) :
  Forall (fun header => plain_header (lit header)) headers ->
  x <> [] -> LF ∉ x ->
  x ∈ map lit headers \/ contains x s = false ->
  contains x
    (fold_left (fun cleaned pattern => sub true pattern (fun _ => []) cleaned)
               (map removal_pattern headers) s)
  = false.
Proof.
  intros Hall Hne HLF. revert s.
  induction Hall as [|header headers Hh Hall IH]; intros s Hx.
  - destruct Hx as [Hx|Hx]; [by apply elem_of_nil in Hx|done].
  - cbn [map fold_left]. apply IH.
    destruct Hx as [Hx|Hx].
    + cbn [map] in Hx. apply elem_of_cons in Hx as [->|Hx]; [right|by left].
      apply sub_removal; try done. by left.
    + right. apply sub_removal; try done. by right.
Qed.

(** The collapse of the newlines brings in no text without newline. *)
Lemma collapse_pass n (s x : str) :
  (rounds false s < n)%nat ->
  x <> [] -> LF ∉ x ->
  contains x s = false ->
  let found := scan false n newlines_pattern false s in
  let out := concat (map (fun m => m_pre m ++ (fun _ => [LF; LF]) m) found.1)
             ++ found.2 in
  contains x out = false.
Proof.
  intros Hn Hne HLF. revert s Hn.
  induction n as [|n IH]; intros s Hn Hx; [lia|]. cbn [scan].
  pose proof (search_newlines s false []) as Hs.
  pose proof (search_from_rest false newlines_pattern false [] s) as Hr.
  pose proof (search_from_parts false newlines_pattern false [] s) as Hparts.
  destruct (search_from false newlines_pattern false [] s) as [m|]; [|done].
  destruct Hs as (pre & tail & Hs & Hp & _ & Ht & _).
  destruct (Hr m eq_refl) as (_ & _ & Hlt). specialize (Hlt Ht).
  specialize (Hparts m eq_refl). cbn [rev] in Hparts.
  rewrite app_nil_l in Hparts, Hp.
  replace (Nat.eqb (length (m_text m)) 0) with false
    by (symmetry; by apply Nat.eqb_neq).
  specialize (IH (m_rest m)). cbv zeta in IH.
  destruct (scan false n newlines_pattern false (m_rest m)) as [ms tl].
  cbn [fst snd map concat] in *. rewrite <- !app_assoc.
  apply contains_junction; try done.
  - apply (contains_infix _ [] _ (m_text m ++ m_rest m)).
    by rewrite app_nil_l, <- Hparts.
  - rewrite <- !app_comm_cons, app_nil_l.
    rewrite !contains_cons_LF by done. apply IH.
    + unfold rounds in *. lia.
    + apply (contains_infix _ (m_pre m ++ m_text m) _ []).
      by rewrite app_nil_r, <- app_assoc, <- Hparts.
  - by right.
Qed.

(** X14. Whatever an assistant message holds, the text shown for it
    holds none of the five headers "Related Questions:", "You might
    also want to know:", "Suggested Questions:", "Common Questions:"
    and "Follow-up Questions:": the removal of one section, the
    collapse of the newlines and the stripping never bring a header
    back. *)
Theorem hidden_sections_not_shown (content : str) :
  Forall (fun header =>
            contains (lit header) (clean_assistant_response content) = false)
         hidden_headers.
Proof.
  assert (Hplain : Forall (fun header => plain_header (lit header))
                          hidden_headers).
  { repeat constructor; try done; by not_in_literal. }
  apply Forall_forall. intros header Hin.
  assert (Hh : plain_header (lit header)).
  { rewrite Forall_forall in Hplain. by apply Hplain. }
  unfold clean_assistant_response.
  set (cleaned := fold_left _ patterns_to_remove content).
  destruct (strip_infix
              (sub false (Rep true 3 (CChar LF)) (fun _ => [LF; LF]) cleaned))
    as (pre & post & Hs).
  apply (contains_infix _ pre _ post). rewrite <- Hs.
  unfold sub, finditer.
  pose proof (collapse_pass (2 * length cleaned + 2) cleaned (lit header))
    as Hc.
  cbv zeta in Hc. change (Rep true 3 (CChar LF)) with newlines_pattern.
  destruct (scan false _ newlines_pattern false cleaned) as [ms tl].
  destruct Hh as (Hne & HLF & HCR).
  apply Hc; try done; [unfold rounds; lia|].
  unfold cleaned. change patterns_to_remove
    with (map removal_pattern hidden_headers).
  apply removal_passes; try done.
  left. apply list_elem_of_In, in_map. by apply list_elem_of_In.
Qed.

Lemma header_here_contains (h s r : str) :
  header_here h s = Some r -> contains h s = true.
Proof.
  unfold header_here. intros Hr. apply contains_spec.
  destruct (strip_prefix (LF :: h) s) as [r1|] eqn:H1.
  { apply strip_prefix_spec in H1. by exists [LF], r1. }
  destruct (strip_prefix (CR :: LF :: h) s) as [r2|] eqn:H2.
  { apply strip_prefix_spec in H2. by exists [CR; LF], r2. }
  apply strip_prefix_spec in Hr. by exists [], r.
Qed.

Lemma search_removal_none header adv pre0 (s : str) :
  plain_header (lit header) ->
  contains (lit header) s = false ->
  search_from true (removal_pattern header) adv pre0 s = None.
Proof.
  intros Hh. revert adv pre0.
  induction s as [|c s IH]; intros adv pre0 Hc; cbn [search_from];
    rewrite match_here_removal by done;
    (destruct (header_here (lit header) _) as [r|] eqn:Hr;
     [apply header_here_contains in Hr; congruence|]); [done|].
  apply IH. cbn [contains] in Hc. by apply orb_false_iff in Hc as [_ ?].
Qed.

Lemma removal_passes_none (headers : list string) (s : str) :
  Forall (fun header => plain_header (lit header)
                        /\ contains (lit header) s = false) headers ->
  fold_left (fun cleaned pattern => sub true pattern (fun _ => []) cleaned)
            (map removal_pattern headers) s
  = s.
Proof.
  induction 1 as [|header headers [Hh Hc] Hall IH]; [done|].
  cbn [map fold_left]. unfold sub at 2, finditer.
  replace (2 * length s + 2)%nat with (S (2 * length s + 1)) by lia.
  cbn [scan]. by rewrite search_removal_none.
Qed.

Lemma collapse_none (s : str) :
  contains blank_lines s = false ->
  sub false newlines_pattern (fun _ => [LF; LF]) s = s.
Proof.
  intros Hc. unfold sub, finditer.
  replace (2 * length s + 2)%nat with (S (2 * length s + 1)) by lia.
  cbn [scan]. pose proof (search_newlines s false []) as Hs.
  destruct (search_from false newlines_pattern false [] s) as [m|]; [|done].
  destruct Hs as (pre & tail & Hs & _).
  assert (contains blank_lines s = true)
    by (apply contains_spec; by exists pre, tail).
  congruence.
Qed.

(** X15. An assistant message that holds none of the five headers and
    no three newlines in a row is shown as it is, without the white
    space at its ends: nothing else is removed. *)
Theorem plain_answer_shown_stripped (content : str) :
  Forall (fun header => contains (lit header) content = false)
         hidden_headers ->
  contains blank_lines content = false ->
  clean_assistant_response content = strip content.
Proof.
  intros Hh Hb. unfold clean_assistant_response.
  change patterns_to_remove with (map removal_pattern hidden_headers).
  change (Rep true 3 (CChar LF)) with newlines_pattern.
  rewrite removal_passes_none; [by rewrite collapse_none|].
  assert (Hplain : Forall (fun header => plain_header (lit header))
                          hidden_headers).
  { repeat constructor; try done; by not_in_literal. }
  rewrite Forall_forall in Hh, Hplain. apply Forall_forall.
  intros header Hin. split; [by apply Hplain|by apply Hh].
Qed.
End Hidden.

(** ** The runs of the script *)

Section Runs.
Context {World : Type} `{Snowflake World} `{PromptBuilder} `{UnicodeData}.

Lemma call_with_session {A} f ev (oracle : World -> outcome A * World) s :
  call ev oracle (with_session f s)
  = ((call ev oracle s).1, with_session f (call ev oracle s).2).
Proof. rewrite !call_run. reflexivity. Qed.

Lemma get_document_url_with_session f path (s : app World) :
  get_document_url path (with_session f s)
  = ((get_document_url path s).1,
     with_session f (get_document_url path s).2).
Proof.
  rewrite !get_document_url_run. unfold get_document_url_body.
  rewrite !bind_run, call_with_session, !call_run. cbn [fst snd].
  destruct (sql_collect _ (world s)) as [[[]|e] w1]; cbn [fst snd]; [|done].
  rewrite !bind_run.
  match goal with
  | |- context [call ?ev ?o (with_session f ?s0)] =>
      rewrite (call_with_session f ev o s0)
  end.
  rewrite !call_run. cbn [fst snd world].
  destruct (sql_collect _ w1) as [[[]|e] w2]; cbn [fst snd]; [|done].
  cbv zeta. rewrite !bind_run.
  match goal with
  | |- context [call ?ev ?o (with_session f ?s0)] =>
      rewrite (call_with_session f ev o s0)
  end.
  rewrite !call_run. cbn [fst snd world].
  destruct (sql_to_pandas _ w2) as [[frame|e] w3]; cbn [fst snd]; [|done].
  by destruct (frame !! 0%nat).
Qed.

Lemma for_each_urls_with_session f (paths : list str) (s : app World) :
  let visit := for_each (fun path =>
                           url_link ← get_document_url path;
                           mret (path, url_link)) paths in
  visit (with_session f s) = ((visit s).1, with_session f (visit s).2).
Proof.
  cbv zeta. revert s. induction paths as [|path paths IH]; intros s; [done|].
  cbn [for_each]. rewrite !bind_run, get_document_url_with_session.
  destruct (get_document_url path s) as [[url|e] s1]; cbn [fst snd]; [|done].
  rewrite !mret_run, !bind_run, IH.
  by destruct (for_each _ paths s1) as [[documents|e] s2].
Qed.

Lemma update_related_documents_with_session f paths (s : app World) :
  (forall documents st,
     f (set_related_documents documents st)
     = set_related_documents documents (f st)) ->
  _update_related_documents paths (with_session f s)
  = ((_update_related_documents paths s).1,
     with_session f (_update_related_documents paths s).2).
Proof.
  intros Hf. unfold _update_related_documents.
  destruct (elements paths) as [|p ps]; [done|].
  rewrite !bind_run.
  rewrite (for_each_urls_with_session f (p :: ps) s).
  destruct (for_each _ (p :: ps) s) as [[documents|e] s1]; cbn [fst snd];
    [|done].
  unfold set_session, with_session. cbn [fst snd world session trace].
  by rewrite Hf.
Qed.

Lemma handle_user_input_flagged ui (s : app World) :
  question_asked (session s)
  && negb (Nat.eqb (length (current_question (session s))) 0) = true ->
  _handle_user_input ui s
  = match _process_question (current_question (session s)) s with
    | (Ok _, s') => (Ok Rerun, with_session (set_flags false []) s')
    | (Raise e, s') => (Raise e, s')
    end.
Proof.
  intros Hf. unfold _handle_user_input. rewrite bind_run.
  change (get_session s) with (Ok (session s), s). cbv iota. rewrite Hf.
  rewrite bind_run.
  by destruct (_process_question _ s) as [[[]|e] s'].
Qed.

Lemma handle_user_input_idle ui (s : app World) :
  question_asked (session s)
  && negb (Nat.eqb (length (current_question (session s))) 0) = false ->
  _handle_user_input ui s
  = match ui with
    | Submit ((_ :: _) as question) => then_rerun (_process_question question s)
    | _ => (Ok Completed, s)
    end.
Proof.
  intros Hf. unfold _handle_user_input. rewrite bind_run.
  change (get_session s) with (Ok (session s), s). cbv iota. rewrite Hf.
  destruct ui as [| | i |[|c question]]; try done.
  rewrite process_question_run, bind_run.
  unfold set_session at 1. cbv iota beta.
  unfold user_message.
  set (s0 := {| world := world s; session := append_message _ (session s);
                trace := trace s |}).
  rewrite bind_run.
  destruct (_process_user_input (c :: question) s0)
    as [[[response paths]|e] s1]; [|done].
  rewrite bind_run. unfold then_rerun.
  pose proof (update_related_documents_with_session
                (append_message (assistant_message response)) paths s1
                (fun _ _ => eq_refl)) as Hu.
  unfold with_session in Hu at 1. rewrite Hu.
  pose proof (update_related_documents_cases paths s1) as [Hok _].
  cbv zeta in Hok.
  destruct (_update_related_documents paths s1) as [[[]|e] s2];
    cbn [fst snd] in *; [|done].
  rewrite bind_run. by unfold set_session at 1.
Qed.

(** X16. A question typed in the chat input, when no clicked question
    is pending, is handled as a clicked one is: the outcome, the calls
    and the session are those of [_process_question], although the two
    code paths store the answer and update the related documents in
    opposite orders. *)
Theorem typed_like_clicked question (s : app World) :
  question <> [] ->
  question_asked (session s) = false ->
  _handle_user_input (Submit question) s
  = then_rerun (_process_question question s).
Proof.
  intros Hq Hf. rewrite handle_user_input_idle by (by rewrite Hf).
  by destruct question.
Qed.

Lemma run_cases ui (s : app World) :
  run ui s
  = match ui with
    | ClickClear =>
        (Ok Rerun,
         with_session
           (fun st => clear_conversation (_render_chat_interface None st)) s)
    | _ =>
        _handle_user_input ui
          (with_session (_render_chat_interface (clicked_suggestion ui)) s)
    end.
Proof.
  unfold run, _render_main_interface. rewrite !bind_run.
  unfold set_session at 1. cbv iota beta.
  by destruct ui.
Qed.

Lemma well_kept_fresh : well_kept initialize.
Proof.
  unfold well_kept, default_settings. cbn.
  repeat split; try done. constructor.
Qed.

Lemma well_kept_clear st : well_kept st -> well_kept (clear_conversation st).
Proof.
  intros (Hd & _ & _ & _ & _). unfold well_kept, default_settings in *. cbn.
  repeat split; try tauto; try done. constructor.
Qed.

Lemma well_kept_render clicked st :
  well_kept st -> well_kept (_render_chat_interface clicked st).
Proof.
  intros Hk. unfold _render_chat_interface, _display_suggested_questions.
  destruct (messages st) eqn:Hm; [|done].
  destruct clicked as [i|]; [|done].
  destruct (suggested_questions st !! i) as [question|] eqn:Hq; [|done].
  destruct Hk as (Hd & He & Hs & _ & Hl).
  destruct (He Hm) as [Hi Hr].
  unfold well_kept, default_settings in *. cbn.
  repeat split; try tauto.
  intros _. rewrite <- Hi. by eapply list_elem_of_lookup_2.
Qed.

Lemma well_kept_flags_reset st :
  well_kept st -> well_kept (set_flags false [] st).
Proof.
  intros (Hd & He & Hs & _ & Hl). unfold well_kept, default_settings in *. cbn.
  repeat split; try tauto. done.
Qed.

Lemma well_kept_turn question (s : app World) :
  well_kept (session s) ->
  well_kept (session (_process_question question s).2).
Proof.
  intros (Hd & He & Hs & Hf & Hl).
  pose proof (process_question_cases question s) as Hc. cbv zeta in Hc.
  assert (H0' : well_kept
                  (append_message (user_message question) (session s))).
  { unfold well_kept, default_settings in *. cbn.
    split; [tauto|]. split; [intros Hm; by apply app_nil in Hm as [_ ?]|].
    split; [tauto|]. split; [tauto|]. by constructor. }
  destruct (_process_question question s).1.
  - destruct Hc as (response & st1 & Hre & Hq & Hc).
    assert (H2 : well_kept (append_message (assistant_message response) st1)).
    { destruct Hre as [->|(new & Hn & Hlen & ->)];
        unfold well_kept, default_settings in *; cbn;
        (split; [tauto|]; split;
         [intros Hm; by apply app_nil in Hm as [_ ?]|];
         split; [tauto|]; split; [tauto|];
         rewrite <- app_assoc; by constructor). }
    destruct Hc as [->|[documents ->]]; [done|].
    destruct H2 as (Hd2 & He2 & Hs2 & Hf2 & Hl2).
    unfold well_kept, default_settings in *. cbn in *.
    split; [tauto|]. split; [intros Hm; by apply app_nil in Hm as [_ ?]|].
    tauto.
  - by rewrite Hc.
Qed.

Lemma reachable_well_kept (s : app World) :
  reachable s -> well_kept (session s).
Proof.
  induction 1 as [w|s ui _ IH]; [apply well_kept_fresh|].
  rewrite run_cases.
  assert (Hr := well_kept_render (clicked_suggestion ui) _ IH).
  assert (Hh : well_kept
                 (session (_handle_user_input ui
                             (with_session
                                (_render_chat_interface (clicked_suggestion ui))
                                s)).2)).
  { set (s1 := with_session _ s).
    destruct (question_asked (session s1)
              && negb (Nat.eqb (length (current_question (session s1))) 0))
      eqn:Hf.
    - rewrite handle_user_input_flagged by done.
      pose proof (well_kept_turn (current_question (session s1)) s1 Hr) as Ht.
      destruct (_process_question _ s1) as [[[]|e] s2]; cbn [fst snd] in *;
        [by apply well_kept_flags_reset|done].
    - rewrite handle_user_input_idle by done.
      destruct ui as [| | i|[|c question]]; try done.
      pose proof (well_kept_turn (c :: question) s1 Hr) as Ht.
      unfold then_rerun.
      by destruct (_process_question _ s1) as [[[]|e] s2]. }
  destruct ui; try done.
  cbn [snd with_session session]. apply well_kept_clear.
  by apply (well_kept_render None).
Qed.

Lemma for_each_urls_trace (paths : list str) (s : app World) :
  exists lookups,
    trace (for_each (fun path =>
                       url_link ← get_document_url path;
                       mret (path, url_link)) paths s).2
    = trace s ++ lookups
    /\ Forall is_lookup lookups.
Proof.
  revert s. induction paths as [|path paths IH]; intros s.
  - exists []. by rewrite app_nil_r.
  - cbn [for_each]. rewrite !bind_run.
    pose proof (get_document_url_cases path s)
      as (_ & [url Hu] & statements & shown & Ht & Hp & _ & Hsh).
    cbv zeta in Hu, Ht, Hsh.
    destruct (get_document_url path s) as [r s1]. cbn [fst snd] in *.
    subst r. rewrite mret_run, bind_run.
    destruct (IH s1) as (lookups & Hl & Hf).
    assert (Hst : Forall is_lookup statements).
    { assert (Hall : Forall is_lookup (url_statements path))
        by (by repeat constructor).
      destruct Hp as [rest Hp]. rewrite Hp in Hall.
      by apply Forall_app in Hall as [? _]. }
    assert (Hsw : Forall is_lookup shown).
    { destruct Hsh as [[-> _]|(e' & -> & _)]; by repeat constructor. }
    destruct (for_each _ paths s1) as [[documents|e] s2]; cbn [fst snd] in *;
      rewrite ?mret_run; cbn [fst snd];
      (exists ((statements ++ shown) ++ lookups);
       split; [by rewrite Hl, Ht, <- !app_assoc|];
       by repeat (apply Forall_app; split)).
Qed.

Lemma update_related_documents_trace paths (s : app World) :
  exists lookups,
    trace (_update_related_documents paths s).2 = trace s ++ lookups
    /\ Forall is_lookup lookups.
Proof.
  unfold _update_related_documents.
  destruct (elements paths) as [|p ps].
  - exists []. by rewrite mret_run, app_nil_r.
  - rewrite bind_run.
    destruct (for_each_urls_trace (p :: ps) s) as (lookups & Hl & Hf).
    destruct (for_each _ (p :: ps) s) as [[documents|e] s1];
      cbn [fst snd] in *; by exists lookups.
Qed.

(** The calls of a question processed: those of the turn, which use the
    settings, then the lookups of the document addresses. *)
Lemma process_question_trace question (s : app World) :
  exists calls lookups,
    trace (_process_question question s).2 = trace s ++ calls ++ lookups
    /\ Forall (uses_settings (session s)) calls
    /\ Forall is_lookup lookups.
Proof.
  rewrite process_question_run.
  set (s0 := {| world := world s;
                session := append_message _ (session s);
                trace := trace s |}).
  destruct (process_user_input_calls question s0)
    as (reformulation & retrieval & answer & Ht & _ & _ & _ & Hu & _).
  cbv zeta in Ht, Hu.
  destruct (_process_user_input question s0) as [[[response paths]|e] s1];
    cbn [fst snd] in *.
  - match goal with
    | |- context [_update_related_documents paths ?s2] =>
        destruct (update_related_documents_trace paths s2)
          as (lookups & Hl & Hf)
    end.
    exists (reformulation ++ retrieval ++ answer), lookups.
    rewrite Hl. cbn [trace]. rewrite Ht, <- !app_assoc. by repeat split.
  - exists (reformulation ++ retrieval ++ answer), [].
    rewrite Ht, app_nil_r. by repeat split.
Qed.

Lemma default_call_of_settings st ev :
  default_settings st -> uses_settings st ev -> default_call ev.
Proof.
  intros (Hm & Hc & _ & _ & Hn & _). destruct ev; cbn; try done.
  - rewrite Hc, Hn. by intros [-> ->].
  - by rewrite Hm.
Qed.

Lemma default_call_of_lookup ev : is_lookup ev -> default_call ev.
Proof. by destruct ev. Qed.

Lemma process_question_default question (s : app World) :
  default_settings (session s) ->
  exists added,
    trace (_process_question question s).2 = trace s ++ added
    /\ Forall default_call added.
Proof.
  intros Hd.
  destruct (process_question_trace question s)
    as (calls & lookups & Ht & Hc & Hl).
  exists (calls ++ lookups). split; [done|]. apply Forall_app. split.
  - eapply Forall_impl; [done|]. intros ev. by apply default_call_of_settings.
  - eapply Forall_impl; [done|]. apply default_call_of_lookup.
Qed.

Lemma run_default ui (s : app World) :
  well_kept (session s) ->
  exists added,
    trace (run ui s).2 = trace s ++ added /\ Forall default_call added.
Proof.
  intros Hk. rewrite run_cases.
  assert (Hr := well_kept_render (clicked_suggestion ui) _ Hk).
  assert (Hh : exists added,
             trace (_handle_user_input ui
                      (with_session
                         (_render_chat_interface (clicked_suggestion ui))
                         s)).2
             = trace s ++ added
             /\ Forall default_call added).
  { set (s1 := with_session _ s) in *.
    change (trace s) with (trace s1).
    destruct (question_asked (session s1)
              && negb (Nat.eqb (length (current_question (session s1))) 0))
      eqn:Hf.
    - rewrite handle_user_input_flagged by done.
      destruct (process_question_default (current_question (session s1)) s1)
        as (added & Ht & Ha); [apply Hr|].
      exists added.
      by destruct (_process_question _ s1) as [[[]|e] s2].
    - rewrite handle_user_input_idle by done.
      destruct ui as [| | i|[|c question]];
        try (exists []; by rewrite app_nil_r).
      destruct (process_question_default (c :: question) s1)
        as (added & Ht & Ha); [apply Hr|].
      exists added. unfold then_rerun.
      by destruct (_process_question _ s1) as [[[]|e] s2]. }
  destruct ui; try done.
  exists []. by rewrite app_nil_r.
Qed.

Lemma reachable_default_calls (s : app World) :
  reachable s -> Forall default_call (trace s).
Proof.
  induction 1 as [w|s ui Hr IH]; [constructor|].
  destruct (run_default ui s) as (added & -> & Ha);
    [by apply reachable_well_kept|].
  by apply Forall_app.
Qed.

(** X17. In every state the application reaches from a fresh session,
    by any sequence of clicks and questions and whatever the services
    answer, the settings of the session are those of [APP_CONFIG]; and
    every retrieval made so far had no category filter and a limit of
    10 chunks, every completion the configured model. *)
Theorem settings_never_change (s : app World) :
  reachable s ->
  default_settings (session s) /\ Forall default_call (trace s).
Proof.
  intros Hr. split; [by apply reachable_well_kept|].
  by apply reachable_default_calls.
Qed.

(** X18. In every reachable state the transcript is made of questions
    of role User, each followed by at most one answer of role
    assistant: it never begins with an answer and never holds two
    answers in a row; and no answer in it holds an apostrophe. *)
Theorem transcript_is_dialogue (s : app World) :
  reachable s -> dialogue (messages (session s)).
Proof. intros Hr. by apply reachable_well_kept. Qed.

(** X19. In every reachable state there are between one and four
    suggested questions. While the transcript is empty they are the
    initial questions and there are no related documents; once it is
    not empty, rendering the chat column offers no button, whatever is
    clicked; and a pending clicked question is one of the initial
    questions. The questions extracted from the responses are thus
    never the ones on the buttons. *)
Theorem buttons_offer_initial_questions (s : app World) :
  reachable s ->
  let st := session s in
  (suggested_questions st <> []
   /\ (length (suggested_questions st) <= 4)%nat)
  /\ (messages st = [] ->
      suggested_questions st = INITIAL_QUESTIONS
      /\ related_documents st = [])
  /\ (messages st <> [] ->
      forall clicked, _render_chat_interface clicked st = st)
  /\ (question_asked st = true -> current_question st ∈ INITIAL_QUESTIONS).
Proof.
  intros Hr st. destruct (reachable_well_kept s Hr) as (_ & He & Hs & Hf & _).
  split; [done|]. split; [done|]. split; [|done].
  intros Hm clicked. unfold _render_chat_interface. fold st.
  by destruct (messages st).
Qed.

(** X20. In every reachable state, processing a question first asks
    the model for a reformulation, even for the first question of a
    session: the question is appended to the transcript before the
    prompt is built, so the window is never empty. The window holds
    the last six messages of the transcript, or all of them when there
    are fewer, and then the question itself. *)
Theorem every_turn_reformulates question (s : app World) :
  reachable s ->
  let query := replace [APOSTROPHE] [] question in
  exists earlier later,
    earlier `suffix_of` messages (session s)
    /\ length earlier = Nat.min 6 (length (messages (session s)))
    /\ trace (_process_question question s).2
       = trace s
         ++ EvComplete MODEL
              (create_chat_summary_prompt
                 (earlier ++ [user_message question]) query)
            :: later.
Proof.
  intros Hr query.
  destruct (reachable_well_kept s Hr) as ((Hm & _ & Hu & _ & _ & Hw) & _).
  set (s0 := {| world := world s;
                session := append_message (user_message question) (session s);
                trace := trace s |}).
  set (n := Z.to_nat (Z.max 0 (Z.of_nat (length (messages (session s)) + 1)
                               - SLIDING_WINDOW))).
  assert (Hn : (n <= length (messages (session s)))%nat)
    by (unfold n, SLIDING_WINDOW; lia).
  assert (Hh : _get_chat_history (session s0)
               = drop n (messages (session s)) ++ [user_message question]).
  { rewrite get_chat_history_drop. cbn [s0 session append_message messages
      sliding_window]. rewrite length_app, Hw. cbn [length]. fold n.
    by rewrite drop_app_le. }
  exists (drop n (messages (session s))).
  destruct (process_user_input_reformulates question s0) as (later & Ht & _).
  { done. }
  { rewrite Hh. by destruct (drop n _). }
  cbv zeta in Ht. rewrite Hh in Ht. cbn [s0 session append_message
    model_name trace] in Ht. rewrite Hm in Ht. fold s0 in Ht.
  rewrite process_question_run. fold s0.
  destruct (_process_user_input question s0) as [[[response paths]|e] s1];
    cbn [fst snd] in *.
  - match goal with
    | |- context [_update_related_documents paths ?s2] =>
        destruct (update_related_documents_trace paths s2)
          as (lookups & Hl & _)
    end.
    exists (later ++ lookups). split; [apply suffix_drop|].
    split; [rewrite length_drop; unfold n, SLIDING_WINDOW; lia|].
    rewrite Hl. cbn [trace]. by rewrite Ht, <- app_assoc.
  - exists later. split; [apply suffix_drop|].
    split; [rewrite length_drop; unfold n, SLIDING_WINDOW; lia|done].
Qed.

Lemma run_pending question ui (s : app World) :
  pending question (session s) -> question <> [] -> ui <> ClickClear ->
  run ui s
  = match _process_question question s with
    | (Ok _, s') => (Ok Rerun, with_session (set_flags false []) s')
    | (Raise e, s') => (Raise e, s')
    end.
Proof.
  intros (Ha & Hq & Hm) Hne Hui. rewrite run_cases.
  assert (Hs : with_session
                 (_render_chat_interface (clicked_suggestion ui)) s = s).
  { unfold with_session, _render_chat_interface.
    destruct (messages (session s)); [done|]. by destruct s. }
  rewrite Hs. rewrite handle_user_input_flagged, Hq; [by destruct ui|].
  rewrite Ha, Hq. by destruct question.
Qed.

Lemma run_idle (s : app World) :
  question_asked (session s) = false -> run Idle s = (Ok Completed, s).
Proof.
  intros Ha. rewrite run_cases.
  assert (Hs : with_session
                 (_render_chat_interface (clicked_suggestion Idle)) s = s).
  { unfold with_session, _render_chat_interface, clicked_suggestion,
      _display_suggested_questions.
    destruct (messages (session s)); by destruct s. }
  rewrite Hs. by rewrite handle_user_input_idle by (by rewrite Ha).
Qed.

(** X21. When a clicked question is pending and processing it raises,
    the run ends with that exception; the flags stay set and the
    question stays in the transcript. From then on, for as long as
    the attempts raise, every run but a click on the clear button
    processes the same question again before the chat input is read,
    whatever the interaction was. The first attempt that returns
    resets the flags, and an idle run after it processes nothing. *)
Theorem failed_click_retried ui (s : app World) e :
  let question := current_question (session s) in
  let turn := _process_question question s in
  question_asked (session s) = true ->
  question <> [] ->
  turn.1 = Raise e ->
  (_handle_user_input ui s = (Raise e, turn.2)
   /\ session turn.2 = append_message (user_message question) (session s)
   /\ pending question (session turn.2))
  /\ forall s' ui',
       pending question (session s') ->
       ui' <> ClickClear ->
       let retry := _process_question question s' in
       run ui' s'
       = match retry with
         | (Ok _, s'') => (Ok Rerun, with_session (set_flags false []) s'')
         | (Raise e', s'') => (Raise e', s'')
         end
       /\ (forall e', retry.1 = Raise e' -> pending question (session retry.2))
       /\ (forall ended, retry.1 = Ok ended ->
           question_asked (session (run ui' s').2) = false
           /\ current_question (session (run ui' s').2) = []
           /\ run Idle (run ui' s').2 = (Ok Completed, (run ui' s').2)).
Proof.
  intros question turn Ha Hq He.
  assert (Hfail : forall s0 e0,
             question_asked (session s0) = true ->
             current_question (session s0) = question ->
             (_process_question question s0).1 = Raise e0 ->
             session (_process_question question s0).2
             = append_message (user_message question) (session s0)
             /\ pending question (session (_process_question question s0).2)).
  { intros s0 e0 Ha0 Hq0 He0.
    pose proof (process_question_cases question s0) as Hc. cbv zeta in Hc.
    rewrite He0 in Hc. split; [done|]. rewrite Hc.
    split; [done|]. split; [done|]. cbn [append_message messages].
    intros Hm. by apply app_nil in Hm as [_ ?]. }
  split.
  - destruct (Hfail s e Ha eq_refl He) as [Hs Hp].
    split; [|done].
    rewrite handle_user_input_flagged.
    + fold question. fold turn. destruct turn as [r s']. cbn [fst snd] in *.
      by subst r.
    + rewrite Ha. fold question. by destruct question.
  - intros s' ui' Hp Hui retry.
    split; [by apply run_pending|]. split.
    + intros e' He'. destruct Hp as (Ha' & Hq' & _).
      by destruct (Hfail s' e' Ha' Hq' He').
    + intros done0 Hd. rewrite (run_pending question) by done.
      fold retry. destruct retry as [[[]|e'] s'']; [|done].
      cbn [snd with_session session set_flags question_asked
           current_question].
      split; [done|]. split; [done|]. by apply run_idle.
Qed.

(** X22. In every reachable state a click on the clear button ends
    the run with a rerun, calls no service and leaves the session of a
    fresh start, but for the text of the last clicked question, which
    stays with its flag down: a pending question is dropped. *)
Theorem clear_restores_fresh_session (s : app World) :
  reachable s ->
  run ClickClear s
  = (Ok Rerun,
     with_session
       (fun st => set_flags false (current_question st) initialize) s).
Proof.
  intros Hr. rewrite run_cases. unfold with_session. do 2 f_equal.
  destruct (reachable_well_kept s Hr)
    as ((Hm & Hc & Hu & Hd & Hn & Hw) & _).
  unfold _render_chat_interface, _display_suggested_questions,
    clear_conversation, set_flags, initialize.
  destruct (session s) as [ms ? ? ? ? ? ? ? ? ? ?]. cbn in *. subst.
  by destruct ms.
Qed.

(** X23. In a reachable state with an empty transcript, a click on
    the button of index [i] asks the initial question of that index in
    the same run: the flags are set while the page is rendered, the
    question is processed as [_process_question] does, and the flags
    are reset when that returns. *)
Theorem click_asks_initial_question i question (s : app World) :
  reachable s ->
  messages (session s) = [] ->
  INITIAL_QUESTIONS !! i = Some question ->
  run (ClickSuggestion i) s
  = match _process_question question
            (with_session (set_flags true question) s) with
    | (Ok _, s') => (Ok Rerun, with_session (set_flags false []) s')
    | (Raise e, s') => (Raise e, s')
    end.
Proof.
  intros Hr Hm Hq. rewrite run_cases.
  destruct (reachable_well_kept s Hr) as (_ & He & _).
  destruct (He Hm) as [Hi _].
  assert (Hs : with_session
                 (_render_chat_interface
                    (clicked_suggestion (ClickSuggestion i))) s
               = with_session (set_flags true question) s).
  { unfold with_session, _render_chat_interface,
      _display_suggested_questions, clicked_suggestion.
    by rewrite Hm, Hi, Hq. }
  rewrite Hs. rewrite handle_user_input_flagged; [done|].
  cbn [with_session session set_flags question_asked current_question].
  destruct i as [|[|[|[|i]]]]; cbn in Hq; try done;
    injection Hq as <-; reflexivity.
Qed.
End Runs.

(** ** The contracts of a turn *)

Section TurnContracts.
Context {World : Type} `{Snowflake World} `{PromptBuilder} `{UnicodeData}.


(** C7. The reformulated query is the summary the model gave with its
    apostrophes removed, and it is what the retrieval is asked; the
    response of a turn is the answer of the model, after the rewriting
    of its video links, with its apostrophes removed, and it is what
    is stored in the transcript. This holds on every turn, whatever
    the texts are: the removal keeps every character that is not an
    apostrophe and leaves no apostrophe; and "What's the diagnosis?"
    becomes "Whats the diagnosis?". *)
Theorem apostrophes_removed :
  (forall chat_history question s,
     (_summarize_conversation chat_history question s).1
     = match (cortex_complete (model_name (session s))
                (create_chat_summary_prompt chat_history question)
                (world s)).1 with
       | Ok summary => Ok (replace [APOSTROPHE] [] summary)
       | Raise e => Raise e
       end)
  /\ (forall question s summary,
        let st := session s in
        let prompt :=
          create_chat_summary_prompt (_get_chat_history st)
            (replace [APOSTROPHE] [] question) in
        use_chat_history st = true ->
        _get_chat_history st <> [] ->
        (cortex_complete (model_name st) prompt (world s)).1 = Ok summary ->
        exists later,
          trace (_process_user_input question s).2
          = trace s
            ++ EvComplete (model_name st) prompt
            :: EvSearch (replace [APOSTROPHE] [] summary)
                 (category_filter (category_value st)) (num_chunks st)
            :: later)
  /\ (forall question s,
        (_process_user_input question s).1
        = match _create_prompt (replace [APOSTROPHE] [] question) s with
          | (Raise e, _) => Raise e
          | (Ok (prompt, relative_paths, _), s1) =>
              match (cortex_complete (model_name (session s)) prompt
                       (world s1)).1 with
              | Ok answer =>
                  Ok (replace [APOSTROPHE] [] (process_video_links answer),
                      relative_paths)
              | Raise e => Raise e
              end
          end)
  /\ (forall question s,
        let asked := {| role := lit "User"; content := question |} in
        let s0 := {| world := world s;
                     session := append_message asked (session s);
                     trace := trace s |} in
        (_process_question question s).1 = Ok tt ->
        exists response paths,
          (_process_user_input question s0).1 = Ok (response, paths)
          /\ messages (session (_process_question question s).2)
             = messages (session s)
               ++ [asked; {| role := lit "assistant"; content := response |}])
  /\ (forall text,
        replace [APOSTROPHE] [] text
        = filter (fun x => x <> APOSTROPHE) text
        /\ quote_free (replace [APOSTROPHE] [] text))
  /\ replace [APOSTROPHE] [] (lit "What's the diagnosis?")
     = lit "Whats the diagnosis?".
Proof.
  split; [|split; [|split; [|split; [|split]]]].
  - intros chat_history question s. rewrite summarize_conversation_run.
    unfold complete_with_llm. rewrite call_run.
    by destruct (cortex_complete _ _ (world s)) as [[summary|e] w].
  - intros question s summary st prompt Hu Hh Hc.
    destruct (process_user_input_reformulates question s Hu Hh)
      as (later & Ht & Hl).
    cbv zeta in Ht, Hl. fold st in Ht, Hl. fold prompt in Ht, Hl.
    rewrite Hc in Hl. destruct Hl as (later' & -> & _). by exists later'.
  - intros question s. rewrite process_user_input_result.
    destruct (_create_prompt _ s) as [[[[prompt paths] ctx]|e] s1]; [|done].
    by destruct (cortex_complete _ prompt (world s1)) as [[answer|e] w].
  - intros question s asked s0 Hok.
    pose proof (process_question_cases question s) as Hc. cbv zeta in Hc.
    rewrite process_question_run in Hok, Hc |- *. fold asked s0 in Hok, Hc |- *.
    unfold user_message in Hok, Hc |- *. fold asked s0 in Hok, Hc |- *.
    destruct (_process_user_input question s0) as [[[response paths]|e] s1]
      eqn:Hturn; [|done].
    exists response, paths. split; [done|].
    pose proof (process_user_input_resuggested question s0) as [Hre _].
    cbv zeta in Hre. rewrite Hturn in Hre. cbn [snd] in Hre.
    assert (Hm : messages (session s1) = messages (session s) ++ [asked]).
    { destruct Hre as [->|(new & _ & _ & ->)]; done. }
    match goal with
    | |- context [_update_related_documents paths ?s2] =>
        destruct (update_related_documents_cases paths s2) as (_ & He & Hne);
        destruct (decide (paths = ∅)) as [Hp|Hp];
        [rewrite (He Hp)|destruct (Hne Hp) as (documents & -> & _)]
    end; cbn [session messages append_message set_related_documents];
      by rewrite Hm, <- app_assoc.
  - intros text. split; [apply replace_char_filter|].
    apply replace_drops_apostrophes.
  - vm_compute. reflexivity.
Qed.

Lemma create_prompt_retrieves question s prompt paths ctx s' :
  _create_prompt question s = (Ok (prompt, paths, ctx), s') ->
  exists earlier query w items,
    trace s'
    = earlier
      ++ [EvSearch query (category_filter (category_value (session s)))
                   (num_chunks (session s))]
    /\ cortex_search query (category_filter (category_value (session s)))
         (num_chunks (session s)) w
       = (Ok ctx, world s')
    /\ results ctx = Some items
    /\ relative_paths_of items = Ok paths.
Proof.
  assert (Hret : forall query chat_history s0,
             session s0 = session s ->
             (prompt_context ←
                search_similar_chunks query (category_value (session s))
                  (num_chunks (session s));
              after_search question chat_history prompt_context) s0
             = (Ok (prompt, paths, ctx), s') ->
             exists earlier query w items,
               trace s'
               = earlier
                 ++ [EvSearch query
                       (category_filter (category_value (session s)))
                       (num_chunks (session s))]
               /\ cortex_search query
                    (category_filter (category_value (session s)))
                    (num_chunks (session s)) w
                  = (Ok ctx, world s')
               /\ results ctx = Some items
               /\ relative_paths_of items = Ok paths).
  { intros query chat_history s0 Hs0. rewrite retrieve_run. cbv zeta.
    destruct (cortex_search query _ _ (world s0)) as [[pc|e] w] eqn:Hc;
      cbn [fst snd]; [|done].
    destruct (results pc) as [items|] eqn:Hr; [|done].
    destruct (relative_paths_of items) as [found|e] eqn:Hp; [|done].
    intros [= <- <- <- <-]. exists (trace s0), query, (world s0), items.
    by cbn [trace world]. }
  destruct (use_chat_history (session s)) eqn:Hu;
    [destruct (_get_chat_history (session s)) as [|m h] eqn:Hh|].
  - rewrite create_prompt_plain by (by right). by apply Hret.
  - rewrite create_prompt_reformulated by (by rewrite ?Hh). rewrite Hh.
    rewrite bind_run.
    pose proof (frame_summarize_conversation (fun _ => True) (m :: h)
                  question s) as (Hs1 & _ & _).
    destruct (_summarize_conversation (m :: h) question s)
      as [[summary|e] s1]; [|done].
    cbn [snd] in Hs1. by apply Hret.
  - rewrite create_prompt_plain by (by left). by apply Hret.
Qed.

Lemma create_prompt_returns question s items :
  (forall query filter limit w,
     (cortex_search query filter limit w).1 = Ok {| results := Some items |}) ->
  (forall model prompt w,
     exists answer, (cortex_complete model prompt w).1 = Ok answer) ->
  Forall (fun item => is_Some (relative_path item)) items ->
  exists prompt paths ctx s',
    _create_prompt question s = (Ok (prompt, paths, ctx), s')
    /\ results ctx = Some items
    /\ relative_paths_of items = Ok paths.
Proof.
  intros Hsearch Hcomplete Hitems.
  apply relative_paths_of_total in Hitems as [paths Hp].
  assert (Hret : forall query chat_history s0,
             exists prompt ctx s',
               (prompt_context ←
                  search_similar_chunks query (category_value (session s))
                    (num_chunks (session s));
                after_search question chat_history prompt_context) s0
               = (Ok (prompt, paths, ctx), s')
               /\ results ctx = Some items).
  { intros query chat_history s0. rewrite retrieve_run. cbv zeta.
    rewrite Hsearch. cbn [results]. rewrite Hp. by eexists _, _, _. }
  destruct (use_chat_history (session s)) eqn:Hu;
    [destruct (_get_chat_history (session s)) as [|m h] eqn:Hh|].
  - rewrite create_prompt_plain by (by right).
    destruct (Hret question [] s) as (prompt & ctx & s' & -> & Hr).
    by eexists _, _, _, _.
  - rewrite create_prompt_reformulated by (by rewrite ?Hh). rewrite Hh.
    rewrite bind_run, summarize_conversation_run.
    unfold complete_with_llm. rewrite call_run.
    destruct (Hcomplete (model_name (session s))
                (create_chat_summary_prompt (m :: h) question) (world s))
      as [answer ->].
    match goal with
    | |- context [(_ ← search_similar_chunks ?q _ _; _) ?s1] =>
        destruct (Hret q (m :: h) s1) as (prompt & ctx & s' & -> & Hr)
    end.
    by eexists _, _, _, _.
  - rewrite create_prompt_plain by (by left).
    destruct (Hret question [] s) as (prompt & ctx & s' & -> & Hr).
    by eexists _, _, _, _.
Qed.

(** C8. The citation set of a turn is built from the result list the
    retrieval answered: the set that [_create_prompt] returns, and the
    turn hands on, holds exactly the paths that occur in that list.
    For every result list whose items have their path the set is
    built; it does not depend on the order of the list; and for the
    paths a.pdf, a.pdf, b.pdf it is the set of a.pdf and b.pdf. *)
Theorem citation_set :
  (forall question s prompt paths ctx s',
     _create_prompt question s = (Ok (prompt, paths, ctx), s') ->
     let filter := category_filter (category_value (session s)) in
     let limit := num_chunks (session s) in
     exists earlier query w items,
       trace s' = earlier ++ [EvSearch query filter limit]
       /\ cortex_search query filter limit w = (Ok ctx, world s')
       /\ results ctx = Some items
       /\ forall p,
            p ∈ paths
            <-> exists item, item ∈ items /\ relative_path item = Some p)
  /\ (forall question s items,
        (forall query filter limit w,
           (cortex_search query filter limit w).1
           = Ok {| results := Some items |}) ->
        (forall model prompt w,
           exists answer, (cortex_complete model prompt w).1 = Ok answer) ->
        Forall (fun item => is_Some (relative_path item)) items ->
        exists response paths,
          (_process_user_input question s).1 = Ok (response, paths)
          /\ forall p,
               p ∈ paths
               <-> exists item, item ∈ items /\ relative_path item = Some p)
  /\ (forall question s response paths,
        (_process_user_input question s).1 = Ok (response, paths) ->
        exists prompt ctx s1,
          _create_prompt (replace [APOSTROPHE] [] question) s
          = (Ok (prompt, paths, ctx), s1))
  /\ (forall items items' paths,
        items ≡ₚ items' ->
        relative_paths_of items = Ok paths ->
        relative_paths_of items' = Ok paths)
  /\ relative_paths_of [passage "a.pdf"; passage "a.pdf"; passage "b.pdf"]
     = Ok {[lit "a.pdf"; lit "b.pdf"]}.
Proof.
  split; [|split; [|split; [|split]]].
  - intros question s prompt paths ctx s' Hr filter limit.
    destruct (create_prompt_retrieves _ _ _ _ _ _ Hr)
      as (earlier & query & w & items & Ht & Hc & Hres & Hp).
    exists earlier, query, w, items. repeat split; try done;
      by apply relative_paths_of_elem.
  - intros question s items Hsearch Hcomplete Hitems.
    destruct (create_prompt_returns (replace [APOSTROPHE] [] question) s
                items Hsearch Hcomplete Hitems)
      as (prompt & paths & ctx & s' & Hr & _ & Hp).
    rewrite process_user_input_result, Hr.
    destruct (Hcomplete (model_name (session s)) prompt (world s'))
      as [answer Ha].
    destruct (cortex_complete _ prompt (world s')) as [[answer'|e] w];
      [|done].
    eexists _, paths. split; [done|].
    intros p. by apply relative_paths_of_elem.
  - intros question s response paths. rewrite process_user_input_result.
    destruct (_create_prompt _ s) as [[[[prompt paths0] ctx]|e] s1]; [|done].
    destruct (cortex_complete _ prompt (world s1)) as [[answer|e] w];
      [|done].
    intros [= _ <-]. by eexists _, _, _.
  - intros items items' paths Hperm Hp.
    assert (Hall : Forall (fun item => is_Some (relative_path item)) items')
      by (rewrite <- Hperm; apply relative_paths_of_total; eauto).
    apply relative_paths_of_total in Hall as [paths' Hp'].
    rewrite Hp'. f_equal. apply set_eq. intros p.
    rewrite (relative_paths_of_elem _ _ p Hp),
            (relative_paths_of_elem _ _ p Hp').
    by setoid_rewrite Hperm.
  - cbn [relative_paths_of passage relative_path]. f_equal; set_solver.
Qed.
End TurnContracts.


(** A turn after one message, with a model that writes apostrophes:
    the retrieval is asked the summary without them, and the response
    comes back without them. Asked from a fresh session, the question
    is stored as typed and the response without apostrophe. *)
Lemma apostrophes_removed_witness :
  let s := start (session_with [{| role := lit "User"; content := lit "Hi" |}]
                    SLIDING_WINDOW []) in
  let turn := _process_user_input (H := answering [] (lit "It's here."))
                (H0 := plain_prompts) (H1 := ascii_unicode_data)
                (lit "What's the diagnosis?") s in
  let asked := _process_question (H := answering [] (lit "It's here."))
                 (H0 := plain_prompts) (H1 := ascii_unicode_data)
                 (lit "What's the diagnosis?") (start initialize) in
  (exists later,
     trace turn.2
     = EvComplete MODEL (lit "HiWhats the diagnosis?")
       :: EvSearch (lit "Its here.") None NUM_CHUNKS :: later)
  /\ turn.1 = Ok (lit "Its here.", ∅)
  /\ messages (session asked.2)
     = [{| role := lit "User"; content := lit "What's the diagnosis?" |};
        {| role := lit "assistant"; content := lit "Its here." |}].
Proof.
  intros s turn asked.
  destruct (apostrophes_removed (H := answering [] (lit "It's here."))
              (H0 := plain_prompts) (H1 := ascii_unicode_data))
    as (_ & Hquery & Hresponse & Hstored & _).
  split; [|split].
  - destruct (Hquery (lit "What's the diagnosis?") s (lit "It's here."))
      as [later Ht].
    + reflexivity.
    + vm_compute. discriminate.
    + reflexivity.
    + exists later. exact Ht.
  - unfold turn. rewrite Hresponse. vm_compute. reflexivity.
  - destruct (Hstored (lit "What's the diagnosis?") (start initialize))
      as (response & paths & Hturn & Hm); [vm_compute; reflexivity|].
    unfold asked. rewrite Hm. rewrite Hresponse in Hturn.
    vm_compute in Hturn. by injection Hturn as <- _.
Defined.

(** A retrieval that answers a.pdf twice and b.pdf once. *)
Lemma citation_set_witness :
  let items := [passage "a.pdf"; passage "a.pdf"; passage "b.pdf"] in
  exists response paths,
    (_process_user_input (H := answering items (lit "None."))
       (H0 := plain_prompts) (H1 := ascii_unicode_data)
       (lit "Why?") (start initialize)).1
    = Ok (response, paths)
    /\ lit "a.pdf" ∈ paths
    /\ lit "b.pdf" ∈ paths
    /\ forall p, p ∈ paths -> p = lit "a.pdf" \/ p = lit "b.pdf".
Proof.
  intros items.
  destruct (citation_set (H := answering items (lit "None."))
              (H0 := plain_prompts) (H1 := ascii_unicode_data))
    as (_ & Hbuilt & _).
  destruct (Hbuilt (lit "Why?") (start initialize) items)
    as (response & paths & Hr & Hmem).
  - reflexivity.
  - intros model prompt w. by eexists.
  - repeat constructor; by eexists.
  - exists response, paths. split; [exact Hr|]. split; [|split].
    + apply Hmem. exists (passage "a.pdf"). split; [by left|reflexivity].
    + apply Hmem. exists (passage "b.pdf").
      split; [by do 2 right; left|reflexivity].
    + intros p Hp. apply Hmem in Hp as (item & Hin & Hpath).
      unfold items in Hin.
      repeat (apply elem_of_cons in Hin as [->|Hin]);
        try (injection Hpath as <-; by auto).
      by apply elem_of_nil in Hin.
Defined.

(** ** The further properties at work *)

(** A window of zero: the question itself is the query. *)
Lemma retrieval_without_window_witness :
  let s := start (session_with [user_message (lit "Hi")] 0 []) in
  exists later,
    trace (_process_user_input (H := answering [] (lit "None."))
             (H0 := plain_prompts) (H1 := ascii_unicode_data)
             (lit "Why?") s).2
    = EvSearch (lit "Why?") None NUM_CHUNKS :: later.
Proof.
  intros s.
  destruct (retrieval_without_window
              (H := answering [] (lit "None.")) (H0 := plain_prompts)
              (H1 := ascii_unicode_data) (lit "Why?") s)
    as (later & Ht & _).
  - right. simpl. lia.
  - exists later. exact Ht.
Defined.

(** One message in the window: the first call is the reformulation. *)
Lemma reformulation_first_witness :
  let s := start (session_with [user_message (lit "Hi")] SLIDING_WINDOW []) in
  exists later,
    trace (_process_user_input (H := answering [] (lit "None."))
             (H0 := plain_prompts) (H1 := ascii_unicode_data)
             (lit "Why?") s).2
    = EvComplete MODEL (lit "HiWhy?") :: later.
Proof.
  intros s.
  destruct (reformulation_first
              (H := answering [] (lit "None.")) (H0 := plain_prompts)
              (H1 := ascii_unicode_data) (lit "Why?") s)
    as (later & Ht & _).
  - reflexivity.
  - vm_compute. discriminate.
  - exists later. exact Ht.
Defined.

(** A retrieval that answers without results ends the turn. *)
Lemma unreadable_response_aborts_witness :
  exists e,
    (_process_user_input (H := unreadable_search) (H0 := plain_prompts)
       (H1 := ascii_unicode_data) (lit "Why?") (start initialize)).1
    = Raise e.
Proof.
  apply (unreadable_response_aborts
           (H := unreadable_search) (H0 := plain_prompts)
           (H1 := ascii_unicode_data) (lit "Why?") (start initialize)).
  intros query filter limit w r [= <-] (items & Hr & _). discriminate.
Defined.

(** A link between two pieces of text. *)
Lemma video_link_in_text_witness :
  let title := lit "Add user" in
  let url := lit "internal_video_path/7" in
  process_video_links (H := ascii_unicode_data)
    (lit "See " ++ raw_link title url ++ lit " now")
  = lit "See " ++ video_link title (rewritten_url title url)
    ++ process_video_links (H := ascii_unicode_data) (lit " now").
Proof.
  intros title url.
  apply (video_link_in_text (H := ascii_unicode_data)).
  - vm_compute. reflexivity.
  - by vm_compute; repeat constructor.
  - not_in_literal.
  - by vm_compute; repeat constructor.
  - not_in_literal.
Defined.

Lemma video_free_text_unchanged_witness :
  process_video_links (H := ascii_unicode_data) (lit "No video here.")
  = lit "No video here.".
Proof.
  apply (video_free_text_unchanged (H := ascii_unicode_data)).
  vm_compute. reflexivity.
Defined.

(** A question typed into a fresh session. *)
Lemma typed_like_clicked_witness :
  let s := start initialize in
  _handle_user_input (H := answering [] (lit "None."))
    (H0 := plain_prompts) (H1 := ascii_unicode_data) (Submit (lit "Why?")) s
  = then_rerun
      (_process_question (H := answering [] (lit "None."))
         (H0 := plain_prompts) (H1 := ascii_unicode_data) (lit "Why?") s).
Proof.
  intros s.
  apply (typed_like_clicked (H := answering [] (lit "None."))
           (H0 := plain_prompts) (H1 := ascii_unicode_data)).
  - vm_compute. discriminate.
  - reflexivity.
Defined.

(** The session after a question typed into a fresh one. *)
Lemma settings_never_change_witness :
  let s := (run (H := answering [passage "a.pdf"] example_response)
              (H0 := plain_prompts) (H1 := ascii_unicode_data)
              (Submit (lit "Why?")) (start initialize)).2 in
  default_settings (session s) /\ Forall default_call (trace s).
Proof.
  intros s.
  apply (settings_never_change
           (H := answering [passage "a.pdf"] example_response)
           (H0 := plain_prompts) (H1 := ascii_unicode_data)).
  apply reachable_run. apply (reachable_fresh tt).
Defined.

Lemma transcript_is_dialogue_witness :
  let s := (run (H := answering [passage "a.pdf"] example_response)
              (H0 := plain_prompts) (H1 := ascii_unicode_data)
              (Submit (lit "Why?")) (start initialize)).2 in
  dialogue (messages (session s)).
Proof.
  intros s.
  apply (transcript_is_dialogue
           (H := answering [passage "a.pdf"] example_response)
           (H0 := plain_prompts) (H1 := ascii_unicode_data)).
  apply reachable_run. apply (reachable_fresh tt).
Defined.

(** The session after a click on the second suggestion that failed. *)
Lemma buttons_offer_initial_questions_witness :
  let s := (run (H := unreadable_search) (H0 := plain_prompts)
              (H1 := ascii_unicode_data)
              (ClickSuggestion 1) (start initialize)).2 in
  question_asked (session s) = true
  /\ current_question (session s) ∈ INITIAL_QUESTIONS.
Proof.
  intros s.
  destruct (buttons_offer_initial_questions
              (H := unreadable_search) (H0 := plain_prompts)
              (H1 := ascii_unicode_data) s) as (_ & _ & _ & Hf).
  - apply reachable_run. apply (reachable_fresh tt).
  - split; [reflexivity|]. apply Hf. reflexivity.
Defined.

(** The first question of a session is reformulated too. *)
Lemma every_turn_reformulates_witness :
  exists later,
    trace (_process_question (H := answering [] (lit "None."))
             (H0 := plain_prompts) (H1 := ascii_unicode_data)
             (lit "Why?") (start initialize)).2
    = EvComplete MODEL (lit "Why?Why?") :: later.
Proof.
  destruct (every_turn_reformulates
              (H := answering [] (lit "None.")) (H0 := plain_prompts)
              (H1 := ascii_unicode_data) (lit "Why?") (start initialize))
    as (earlier & later & Hs & Hl & Ht).
  - apply (reachable_fresh tt).
  - exists later. destruct earlier; [exact Ht|discriminate Hl].
Defined.

(** A clicked question whose retrieval cannot be read the first time:
    the next run asks it again, although another question was typed;
    that attempt returns, and the idle run after it does nothing. *)
Lemma failed_click_retried_witness :
  let s := {| world := false;
              session := set_flags true (lit "Why?") initialize;
              trace := [] |} in
  let failed := _handle_user_input (H := unreadable_once)
                  (H0 := plain_prompts) (H1 := ascii_unicode_data) Idle s in
  let retried := run (H := unreadable_once) (H0 := plain_prompts)
                   (H1 := ascii_unicode_data) (Submit (lit "Other"))
                   failed.2 in
  failed.1 = Raise (KeyError (lit "'results'"))
  /\ retried.1 = Ok Rerun
  /\ map content (messages (session retried.2))
     = [lit "Why?"; lit "Why?"; lit "Summary."]
  /\ run (H := unreadable_once) (H0 := plain_prompts)
       (H1 := ascii_unicode_data) Idle retried.2
     = (Ok Completed, retried.2).
Proof.
  intros s failed retried.
  destruct (failed_click_retried (H := unreadable_once)
              (H0 := plain_prompts) (H1 := ascii_unicode_data)
              Idle s (KeyError (lit "'results'")))
    as ((Hfailed & _ & Hpending) & Hretry).
  - reflexivity.
  - vm_compute. discriminate.
  - vm_compute. reflexivity.
  - subst retried failed. rewrite Hfailed. cbn [fst snd].
    split; [reflexivity|].
    destruct (Hretry _ (Submit (lit "Other")) Hpending)
      as (_ & _ & Hreturned); [discriminate|].
    destruct (Hreturned tt) as (_ & _ & Hidle); [vm_compute; reflexivity|].
    split; [vm_compute; reflexivity|].
    split; [vm_compute; reflexivity|]. exact Hidle.
Defined.

(** An answer without sections. *)
Lemma plain_answer_shown_stripped_witness :
  clean_assistant_response (H := ascii_unicode_data) (lit " Answer. ")
  = lit "Answer.".
Proof.
  etransitivity.
  - apply (plain_answer_shown_stripped (H := ascii_unicode_data)).
    + repeat constructor; vm_compute; reflexivity.
    + vm_compute. reflexivity.
  - vm_compute. reflexivity.
Defined.

(** A question, then the clear button. *)
Lemma clear_restores_fresh_session_witness :
  let s := (run (H := answering [passage "a.pdf"] example_response)
              (H0 := plain_prompts) (H1 := ascii_unicode_data)
              (Submit (lit "Why?")) (start initialize)).2 in
  session (run (H := answering [passage "a.pdf"] example_response)
             (H0 := plain_prompts) (H1 := ascii_unicode_data)
             ClickClear s).2
  = initialize.
Proof.
  intros s.
  rewrite (clear_restores_fresh_session
             (H := answering [passage "a.pdf"] example_response)
             (H0 := plain_prompts) (H1 := ascii_unicode_data) s).
  - vm_compute. reflexivity.
  - apply reachable_run. apply (reachable_fresh tt).
Defined.

(** A click on the first button of a fresh session. *)
Lemma click_asks_initial_question_witness :
  let question :=
    lit "What are the patient's profile and admission details?" in
  let s := start initialize in
  run (H := answering [] (lit "None.")) (H0 := plain_prompts)
    (H1 := ascii_unicode_data) (ClickSuggestion 0) s
  = match _process_question (H := answering [] (lit "None."))
            (H0 := plain_prompts) (H1 := ascii_unicode_data) question
            (with_session (set_flags true question) s) with
    | (Ok _, s') => (Ok Rerun, with_session (set_flags false []) s')
    | (Raise e, s') => (Raise e, s')
    end.
Proof.
  intros question s.
  apply (click_asks_initial_question (H := answering [] (lit "None."))
           (H0 := plain_prompts) (H1 := ascii_unicode_data)).
  - apply (reachable_fresh tt).
  - reflexivity.
  - reflexivity.
Defined.
